(** * Field validators of package [verify] (internal/verify/validate.go)

    A shallow embedding of the validators of [validate.go] together with the
    library routines they call, and the properties of the validators that the
    specification states.

    Conventions of the embedding:
    - a Go [string] is a Rocq [string], one [ascii] per byte; [len] is
      [String.length];
    - Go integers are [Z]; where the source relies on a bound the bound is
      written out;
    - [interface{}] / [any] is the type [value];
    - an [error] is kept as the call that built it ([fmt.Errorf] with its
      format and operands), [nil] is [None];
    - a validator of the legacy convention yields an [outcome]: either it
      returns [(ws, errors)] or the unchecked type assertion panics. *)

From Stdlib Require Import ZArith List String Ascii Bool Lia DecimalString.
From Stdlib Require Import Floats.SpecFloat.
Import ListNotations.

Local Open Scope string_scope.
Local Open Scope list_scope.
Local Open Scope Z_scope.

(** string concatenation, Go's [+] on strings *)
Local Infix "+++" := String.append (at level 60, right associativity).

(** ** Bytes and Go's [strings] package *)

Module GoStrings.

Definition code (c : ascii) : Z := Z.of_N (N_of_ascii c).

Definition byte_in (lo hi c : ascii) : bool :=
  (code lo <=? code c) && (code c <=? code hi).

Definition is_digit (c : ascii) : bool := byte_in "0" "9" c.

Definition len (s : string) : Z := Z.of_nat (String.length s).

(** [strings.HasPrefix(s, prefix)] *)
Definition HasPrefix (s p : string) : bool := String.prefix p s.

(** [s[i:]] for [0 <= i <= len(s)] *)
Fixpoint drop (n : nat) (s : string) : string :=
  match n, s with
  | O, _ => s
  | S n', String _ s' => drop n' s'
  | S _, EmptyString => EmptyString
  end.

(** [strings.HasSuffix(s, suffix)] *)
Definition HasSuffix (s suffix : string) : bool :=
  (String.length suffix <=? String.length s)%nat
  && String.eqb (drop (String.length s - String.length suffix) s) suffix.

(** [strings.IndexByte(s, c)], [None] for -1; the result pairs the text
    before the byte with the text after it. *)
Fixpoint cut (c : ascii) (s : string) : option (string * string) :=
  match s with
  | EmptyString => None
  | String a s' =>
      if Ascii.eqb a c then Some (EmptyString, s')
      else match cut c s' with
           | Some (l, r) => Some (String a l, r)
           | None => None
           end
  end.

(** [strings.SplitN(s, sep, n)] for a one-byte separator and [n > 0]: at
    most [n] pieces, the last one being the unsplit remainder. *)
Fixpoint SplitN (s : string) (sep : ascii) (n : nat) : list string :=
  match n with
  | O => []
  | S O => [s]
  | S n' =>
      match cut sep s with
      | Some (l, r) => l :: SplitN r sep n'
      | None => [s]
      end
  end.

(** the byte 0x22, written apart because it cannot stand in a literal *)
Definition dquote : string := String (ascii_of_nat 34) EmptyString.

End GoStrings.

(** ** Go's [regexp] package, for anchored patterns

    Every pattern of [validate.go] has the shape [^body$] and none sets a
    flag, so [MatchString] holds exactly when the whole subject is in the
    language of [body].  Classes are ASCII only ([\d] is [0-9] in RE2), so
    matching byte by byte agrees with matching rune by rune.  The language
    test is by derivatives. *)

Module Regexp.
Import GoStrings.

Inductive re : Type :=
| Void : re                       (* no string *)
| Eps : re                        (* the empty string *)
| Range : ascii -> ascii -> re    (* [lo-hi] *)
| Cat : re -> re -> re
| Alt : re -> re -> re
| Star : re -> re.

Definition Lit (c : ascii) : re := Range c c.

Fixpoint Str (s : string) : re :=
  match s with
  | EmptyString => Eps
  | String c EmptyString => Lit c
  | String c s' => Cat (Lit c) (Str s')
  end.

Definition Plus (r : re) : re := Cat r (Star r).

Fixpoint Repeat (n : nat) (r : re) : re :=
  match n with
  | O => Eps
  | S O => r
  | S n' => Cat r (Repeat n' r)
  end.

Fixpoint Alts (rs : list re) : re :=
  match rs with
  | [] => Void
  | [r] => r
  | r :: rs' => Alt r (Alts rs')
  end.

Fixpoint nullable (r : re) : bool :=
  match r with
  | Void => false
  | Eps => true
  | Range _ _ => false
  | Cat a b => nullable a && nullable b
  | Alt a b => nullable a || nullable b
  | Star _ => true
  end.

Definition cat (a b : re) : re :=
  match a, b with
  | Void, _ => Void
  | _, Void => Void
  | Eps, _ => b
  | _, _ => Cat a b
  end.

Definition alt (a b : re) : re :=
  match a, b with
  | Void, _ => b
  | _, Void => a
  | _, _ => Alt a b
  end.

Fixpoint deriv (c : ascii) (r : re) : re :=
  match r with
  | Void => Void
  | Eps => Void
  | Range lo hi => if byte_in lo hi c then Eps else Void
  | Cat a b =>
      if nullable a then alt (cat (deriv c a) b) (deriv c b)
      else cat (deriv c a) b
  | Alt a b => alt (deriv c a) (deriv c b)
  | Star a => cat (deriv c a) (Star a)
  end.

Fixpoint accepts (r : re) (s : string) : bool :=
  match s with
  | EmptyString => nullable r
  | String c s' => accepts (deriv c r) s'
  end.

(** A compiled pattern: its source text (what [%s] and [%q] print) and the
    body between [^] and [$]. *)
Record Regexp : Type := MustCompile { source : string; body : re }.

Definition MatchString (p : Regexp) (s : string) : bool := accepts (body p) s.

Definition digit : re := Range "0" "9".
Definition lower : re := Range "a" "z".
Definition upper : re := Range "A" "Z".

End Regexp.

(** ** Go values, [float64] and errors *)

(** IEEE 754 binary64, by its specification in the Standard Library. *)
Definition float64 : Type := spec_float.

Module Float64.

Definition of_Z (z : Z) : float64 := binary_normalize 53 1024 z 0 false.
Definition mul : float64 -> float64 -> float64 := SFmul 53 1024.
Definition div : float64 -> float64 -> float64 := SFdiv 53 1024.
(** [a <= b] of Go: false as soon as one side is NaN *)
Definition leb : float64 -> float64 -> bool := SFleb.

(** [uint64(x)] for a finite [x >= 0] below [2^64]: truncation *)
Definition to_uint64 (x : float64) : Z :=
  match x with
  | S754_finite false m e =>
      if 0 <=? e then Z.pos m * 2 ^ e else Z.pos m / 2 ^ (- e)
  | _ => 0
  end.

End Float64.

(** What an [interface{}] handed to a validator can hold. *)
Inductive value : Type :=
| VString (s : string)
| VFloat64 (f : float64)
| VInt (n : Z)
| VBool (b : bool)
| VNil.

(** [net.IP] and [net.IPMask] are byte slices; [nil] is the empty list. *)
Definition IP : Type := list Z.
Definition IPMask : Type := list Z.
Record IPNet : Type := mkIPNet { IPNet_IP : IP; IPNet_Mask : IPMask }.

(** An error value is the call that made it.  [Errorf] keeps the format and
    the operands of [fmt.Errorf]: the text of the message is the format with
    each verb replaced by its operand ([%q] quotes it, a [*net.IPNet] and a
    [*regexp.Regexp] print through their [String] methods). *)
Inductive error : Type :=
| Errorf (format : string) (a : list operand)
| errors_New (text : string)
| NumError (Func Num : string) (Err : error)      (* strconv.NumError *)
| ParseError (Type_ Text : string)                (* net.ParseError *)
with operand : Type :=
| OString (s : string)
| OValue (v : value)
| OError (e : error)
| ORegexp (r : Regexp.Regexp)
| OFloat64 (f : float64)
| OIPNet (n : IPNet).

(** ** [strconv.ParseInt(s, 10, 64)] *)

Module Strconv.
Import GoStrings.

Definition ErrSyntax : error := errors_New "invalid syntax".
Definition ErrRange : error := errors_New "value out of range".
Definition maxUint64 : Z := 2 ^ 64 - 1.

(** The digit loop of [ParseUint] for base 10 and bitSize 64; [n] is the
    value read so far.  A byte that is not a decimal digit is a syntax error;
    the first overflow ends the scan with a range error and [maxUint64]. *)
Fixpoint ParseUint_loop (s0 s : string) (n : Z) : Z * option error :=
  match s with
  | EmptyString => (n, None)
  | String c s' =>
      if negb (is_digit c) then (0, Some (NumError "ParseUint" s0 ErrSyntax))
      else
        let d := code c - code "0" in
        if n >=? maxUint64 / 10 + 1 then
          (maxUint64, Some (NumError "ParseUint" s0 ErrRange))
        else
          let n1 := n * 10 + d in
          if n1 >? maxUint64 then
            (maxUint64, Some (NumError "ParseUint" s0 ErrRange))
          else ParseUint_loop s0 s' n1
  end.

Definition ParseUint (s : string) : Z * option error :=
  match s with
  | EmptyString => (0, Some (NumError "ParseUint" s ErrSyntax))
  | _ => ParseUint_loop s s 0
  end.

Definition ParseInt (s : string) : Z * option error :=
  match s with
  | EmptyString => (0, Some (NumError "ParseInt" s ErrSyntax))
  | String c0 rest =>
      let s0 := s in
      let '(neg, s) :=
        if Ascii.eqb c0 "+" then (false, rest)
        else if Ascii.eqb c0 "-" then (true, rest)
        else (false, s) in
      let cutoff := 2 ^ 63 in
      match ParseUint s with
      | (_, Some (NumError _ _ (errors_New "value out of range"))) =>
          (* a range error of ParseUint carries maxUint64 on *)
          if negb neg then (cutoff - 1, Some (NumError "ParseInt" s0 ErrRange))
          else (- cutoff, Some (NumError "ParseInt" s0 ErrRange))
      | (_, Some _) => (0, Some (NumError "ParseInt" s0 ErrSyntax))
      | (un, None) =>
          if negb neg && (un >=? cutoff) then
            (cutoff - 1, Some (NumError "ParseInt" s0 ErrRange))
          else if neg && (un >? cutoff) then
            (- cutoff, Some (NumError "ParseInt" s0 ErrRange))
          else (if neg then - un else un, None)
      end
  end.

End Strconv.

(** ** [time.ParseDuration] *)

Module Time.
Import GoStrings.

(** [time.Duration] is an [int64] count of nanoseconds. *)
Definition Duration : Type := Z.

Definition uint64 (z : Z) : Z := z mod 2 ^ 64.
Definition int64 (z : Z) : Z := (z + 2 ^ 63) mod 2 ^ 64 - 2 ^ 63.

Definition lowerhex (n : Z) : ascii :=
  if n <? 10 then ascii_of_N (Z.to_N (code "0" + n))
  else ascii_of_N (Z.to_N (code "a" + (n - 10))).

(** [time.quote]: bytes outside printable ASCII are written [\xNN], the
    double quote and the backslash get a backslash. *)
Fixpoint quote_bytes (s : string) : string :=
  match s with
  | EmptyString => EmptyString
  | String c s' =>
      (if (128 <=? code c) || (code c <? 32) then
         String "\" (String "x" (String (lowerhex (code c / 16))
                                   (String (lowerhex (code c mod 16)) EmptyString)))
       else if (code c =? 34) || Ascii.eqb c "\" then
         String "\" (String c EmptyString)
       else String c EmptyString) +++ quote_bytes s'
  end.

Definition quote (s : string) : string := dquote +++ quote_bytes s +++ dquote.

Definition errLeadingInt : error := errors_New "time: bad [0-9]*".

(** [leadingInt]: the leading [[0-9]*] of [s], its value and the rest. *)
Fixpoint leadingInt_loop (s : string) (x : Z) : Z * string * option error :=
  match s with
  | EmptyString => (x, s, None)
  | String c s' =>
      if negb (is_digit c) then (x, s, None)
      else if x >? 2 ^ 63 / 10 then (0, EmptyString, Some errLeadingInt)
      else
        let x := uint64 (x * 10 + code c - code "0") in
        if x >? 2 ^ 63 then (0, EmptyString, Some errLeadingInt)
        else leadingInt_loop s' x
  end.

Definition leadingInt (s : string) : Z * string * option error :=
  leadingInt_loop s 0.

(** [leadingFraction]: the leading [[0-9]*] of [s] as [x / scale]; digits
    past the capacity of [x] are skipped. *)
Fixpoint leadingFraction_loop (s : string) (x : Z) (scale : float64)
    (overflow : bool) : Z * float64 * string :=
  match s with
  | EmptyString => (x, scale, s)
  | String c s' =>
      if negb (is_digit c) then (x, scale, s)
      else if overflow then leadingFraction_loop s' x scale overflow
      else if x >? (2 ^ 63 - 1) / 10 then leadingFraction_loop s' x scale true
      else
        let y := uint64 (x * 10 + code c - code "0") in
        if y >? 2 ^ 63 then leadingFraction_loop s' x scale true
        else leadingFraction_loop s' y (Float64.mul scale (Float64.of_Z 10)) overflow
  end.

Definition leadingFraction (s : string) : Z * float64 * string :=
  leadingFraction_loop s 0 (Float64.of_Z 1) false.

Definition Nanosecond : Z := 1.
Definition Microsecond : Z := 1000 * Nanosecond.
Definition Millisecond : Z := 1000 * Microsecond.
Definition Second : Z := 1000 * Millisecond.
Definition Minute : Z := 60 * Second.
Definition Hour : Z := 60 * Minute.

(** U+00B5 (micro sign) and U+03BC (Greek mu) in UTF-8 *)
Definition micro_sign : string :=
  String (ascii_of_nat 194) (String (ascii_of_nat 181) EmptyString).
Definition greek_mu : string :=
  String (ascii_of_nat 206) (String (ascii_of_nat 188) EmptyString).

Definition unitMap (u : string) : option Z :=
  if String.eqb u "ns" then Some Nanosecond
  else if String.eqb u "us" then Some Microsecond
  else if String.eqb u (micro_sign +++ "s") then Some Microsecond
  else if String.eqb u (greek_mu +++ "s") then Some Microsecond
  else if String.eqb u "ms" then Some Millisecond
  else if String.eqb u "s" then Some Second
  else if String.eqb u "m" then Some Minute
  else if String.eqb u "h" then Some Hour
  else None.

(** the index of the first byte of [s] that is [.] or a digit, [len(s)] if
    there is none: where the unit ends *)
Fixpoint unit_end (s : string) : nat :=
  match s with
  | EmptyString => O
  | String c s' =>
      if Ascii.eqb c "." || is_digit c then O else S (unit_end s')
  end.

Definition invalid_duration (orig : string) : error :=
  errors_New ("time: invalid duration " +++ quote orig).

(** One round of the loop [for s != ""] of [ParseDuration]: [inl] is a
    [return] from inside the loop, [inr] carries [s] and [d] to the next
    round. *)
Definition ParseDuration_body (orig s : string) (d : Z)
    : (Duration * option error) + (string * Z) :=
  match s with
  | EmptyString => inr (s, d)
  | String c0 _ =>
      if negb (Ascii.eqb c0 "." || is_digit c0) then
        inl (0, Some (invalid_duration orig))
      else
        let pl := String.length s in
        let '(v, s, err) := leadingInt s in
        match err with
        | Some _ => inl (0, Some (invalid_duration orig))
        | None =>
            let pre := negb (pl =? String.length s)%nat in
            let '(f, scale, s, post) :=
              match s with
              | String c s' =>
                  if Ascii.eqb c "." then
                    let s := s' in
                    let pl := String.length s in
                    let '(f, scale, s) := leadingFraction s in
                    (f, scale, s, negb (pl =? String.length s)%nat)
                  else (0, Float64.of_Z 1, s, false)
              | EmptyString => (0, Float64.of_Z 1, s, false)
              end in
            if negb pre && negb post then
              inl (0, Some (invalid_duration orig))
            else
              let i := unit_end s in
              if (i =? 0)%nat then
                inl (0, Some (errors_New
                       ("time: missing unit in duration " +++ quote orig)))
              else
                let u := substring 0 i s in
                let s := drop i s in
                match unitMap u with
                | None =>
                    inl (0, Some (errors_New
                           ("time: unknown unit " +++ quote u
                            +++ " in duration " +++ quote orig)))
                | Some unit =>
                    if v >? 2 ^ 63 / unit then
                      inl (0, Some (invalid_duration orig))
                    else
                      let v := uint64 (v * unit) in
                      let v' :=
                        if f >? 0 then
                          uint64 (v + Float64.to_uint64
                                        (Float64.mul (Float64.of_Z f)
                                           (Float64.div (Float64.of_Z unit) scale)))
                        else v in
                      if (f >? 0) && (v' >? 2 ^ 63) then
                        inl (0, Some (invalid_duration orig))
                      else
                        let d := uint64 (d + v') in
                        if d >? 2 ^ 63 then
                          inl (0, Some (invalid_duration orig))
                        else inr (s, d)
                end
        end
  end.

(** The loop.  Each round consumes at least the unit, so [len(s)] rounds
    are enough; [None] stands for running out of rounds. *)
Fixpoint ParseDuration_loop (fuel : nat) (orig s : string) (d : Z)
    : option ((Duration * option error) + Z) :=
  match s with
  | EmptyString => Some (inr d)
  | _ =>
      match fuel with
      | O => None
      | S fuel' =>
          match ParseDuration_body orig s d with
          | inl r => Some (inl r)
          | inr (s', d') => ParseDuration_loop fuel' orig s' d'
          end
      end
  end.

Definition ParseDuration (s : string) : Duration * option error :=
  let orig := s in
  let '(neg, s) :=
    match s with
    | String c rest =>
        if Ascii.eqb c "-" || Ascii.eqb c "+" then (Ascii.eqb c "-", rest)
        else (false, s)
    | EmptyString => (false, s)
    end in
  if String.eqb s "0" then (0, None)
  else if String.eqb s EmptyString then (0, Some (invalid_duration orig))
  else
    match ParseDuration_loop (String.length s) orig s 0 with
    | Some (inl r) => r
    | Some (inr d) =>
        if neg then (int64 (- int64 d), None)
        else if d >? 2 ^ 63 - 1 then (0, Some (invalid_duration orig))
        else (int64 d, None)
    | None =>
        (* out of rounds: never the case, see [ParseDuration_loop_total] *)
        (0, Some (errors_New "time: loop bound exceeded"))
    end.

End Time.

(** ** Package [net]: [ParseCIDR], [ParseIP] and the [IP] / [IPNet] methods

    Addresses are parsed by [netip.ParseAddr]; its error values never leave
    [net] ([ParseCIDR] and [ParseIP] replace them), so a failed parse is
    [None] here. *)

Module Net.
Import GoStrings.

Definition IPv4len : nat := 4.
Definition IPv6len : nat := 16.

(** [netip.Addr]: a 4-byte address, or a 16-byte address with its zone *)
Inductive Addr : Type :=
| Addr4 (fields : list Z)
| Addr6 (bytes : list Z) (zone : string).

Definition v4InV6Prefix : list Z := [0; 0; 0; 0; 0; 0; 0; 0; 0; 0; 255; 255].

Definition As16 (a : Addr) : list Z :=
  match a with
  | Addr4 f => v4InV6Prefix ++ f
  | Addr6 b _ => b
  end.

Definition BitLen (a : Addr) : Z :=
  match a with
  | Addr4 _ => 32
  | Addr6 _ _ => 128
  end.

Definition Zone (a : Addr) : string :=
  match a with
  | Addr4 _ => EmptyString
  | Addr6 _ z => z
  end.

(** [parseIPv4Fields] on the text [s]: [prev] is the byte before the current
    one ([None] at index 0), [fields] the octets stored so far (so [pos] is
    their number), [val] and [digLen] the octet being read. *)
Fixpoint parseIPv4Fields_loop (s : string) (prev : option ascii)
    (val : Z) (digLen : Z) (fields : list Z) : option (list Z) :=
  match s with
  | EmptyString =>
      if (List.length fields <? 3)%nat then None      (* IPv4 address too short *)
      else Some (fields ++ [val])
  | String c s' =>
      if is_digit c then
        if (digLen =? 1) && (val =? 0) then None  (* octet with leading zero *)
        else
          let val := val * 10 + code c - code "0" in
          if val >? 255 then None                 (* value >255 *)
          else parseIPv4Fields_loop s' (Some c) val (digLen + 1) fields
      else if Ascii.eqb c "." then
        match prev, s' with
        | None, _ => None                         (* .1.2.3 *)
        | _, EmptyString => None                  (* 1.2.3. *)
        | Some p, _ =>
            if Ascii.eqb p "." then None          (* 1..2.3 *)
            else if (List.length fields =? 3)%nat then None   (* too long *)
            else parseIPv4Fields_loop s' (Some c) 0 0 (fields ++ [val])
        end
      else None                                   (* unexpected character *)
  end.

Definition parseIPv4Fields (s : string) : option (list Z) :=
  parseIPv4Fields_loop s None 0 0 [].

Definition parseIPv4 (s : string) : option Addr :=
  match parseIPv4Fields s with
  | Some fields => Some (Addr4 fields)
  | None => None
  end.

Definition hexval (c : ascii) : option Z :=
  if byte_in "0" "9" c then Some (code c - code "0")
  else if byte_in "a" "f" c then Some (code c - code "a" + 10)
  else if byte_in "A" "F" c then Some (code c - code "A" + 10)
  else None.

(** The hex number at the head of [s]: its value, its number of digits
    [off] and [s[off:]]; [None] when it has more than 4 digits. *)
Fixpoint hexGroup (s : string) (off : nat) (acc : Z)
    : option (Z * nat * string) :=
  match s with
  | EmptyString => Some (acc, off, s)
  | String c s' =>
      match hexval c with
      | None => Some (acc, off, s)
      | Some h =>
          let acc := acc * 16 + h in
          if (3 <? off)%nat then None
          else if acc >? 65535 then None
          else hexGroup s' (S off) acc
      end
  end.

(** The trailing IPv4 address of an IPv6 text: [parseIPv4Fields] on what is
    left, stored at [ip[i:i+4]]; it ends the loop with nothing unread. *)
Definition embeddedIPv4 (s : string) (ip : list Z) (ellipsis : option nat)
    : option (list Z * string * option nat) :=
  match parseIPv4Fields s with
  | Some f => Some (ip ++ f, EmptyString, ellipsis)
  | None => None
  end.

(** The loop [for i < 16] of [parseIPv6].  [ip] holds the bytes stored so
    far, so [i] is their number; a round stores two bytes (or ends the
    loop), so [rounds] counts the rounds left until [i = 16].  The result is
    what the code after the loop reads: [ip], the unread text and the place
    of the ellipsis. *)
Fixpoint parseIPv6_loop (rounds : nat) (s : string) (ellipsis : option nat)
    (ip : list Z) : option (list Z * string * option nat) :=
  match rounds with
  | O => Some (ip, s, ellipsis)
  | S rounds' =>
      let i := List.length ip in
      match hexGroup s 0 0 with
      | None => None
      | Some (_, O, _) => None          (* no digit in the field *)
      | Some (_, _, String "." _) =>
          (* followed by a dot: a trailing IPv4 address *)
          if (match ellipsis with None => true | Some _ => false end)
             && negb (i =? 12)%nat then None
          else if (16 <? i + 4)%nat then None
          else embeddedIPv4 s ip ellipsis
      | Some (acc, _, rest) =>
          let ip := ip ++ [Z.shiftr acc 8; Z.land acc 255] in
          let i := List.length ip in
          match rest with
          | EmptyString => Some (ip, rest, ellipsis)
          | String c s1 =>
              if negb (Ascii.eqb c ":") then None    (* want colon *)
              else
                match s1 with
                | EmptyString => None                (* colon at the end *)
                | String ":" s2 =>
                    match ellipsis with
                    | Some _ => None                 (* multiple :: *)
                    | None =>
                        match s2 with
                        | EmptyString => Some (ip, s2, Some i)
                        | _ => parseIPv6_loop rounds' s2 (Some i) ip
                        end
                    end
                | _ => parseIPv6_loop rounds' s1 ellipsis ip
                end
          end
      end
  end.

Definition parseIPv6 (in_ : string) : option Addr :=
  (* the zone is split off first *)
  let split :=
    match cut "%" in_ with
    | Some (s, zone) =>
        if String.eqb zone EmptyString then None else Some (s, zone)
    | None => Some (in_, EmptyString)
    end in
  match split with
  | None => None                         (* zone must be non-empty *)
  | Some (s, zone) =>
      let '(ellipsis, s, only) :=
        match s with
        | String ":" (String ":" s') =>
            (Some O, s', String.eqb s' EmptyString)
        | _ => (None, s, false)
        end in
      if only then Some (Addr6 (repeat 0 16) zone)     (* IPv6Unspecified *)
      else
        match parseIPv6_loop 8 s ellipsis [] with
        | None => None
        | Some (ip, s, ellipsis) =>
            let i := List.length ip in
            if negb (String.eqb s EmptyString) then None   (* trailing garbage *)
            else if (i <? 16)%nat then
              match ellipsis with
              | None => None                         (* too short *)
              | Some e =>
                  Some (Addr6 (firstn e ip ++ repeat 0 (16 - i) ++ skipn e ip)
                          zone)
              end
            else
              match ellipsis with
              | Some _ => None       (* :: must stand for some zero field *)
              | None => Some (Addr6 ip zone)
              end
        end
  end.

(** [netip.ParseAddr]: the first of [.], [:] and [%] in [s] picks the
    parser. *)
Fixpoint ParseAddr_scan (s rest : string) : option Addr :=
  match rest with
  | EmptyString => None                  (* unable to parse IP *)
  | String c rest' =>
      if Ascii.eqb c "." then parseIPv4 s
      else if Ascii.eqb c ":" then parseIPv6 s
      else if Ascii.eqb c "%" then None  (* missing IPv6 address *)
      else ParseAddr_scan s rest'
  end.

Definition ParseAddr (s : string) : option Addr := ParseAddr_scan s s.

Definition isZeros (p : list Z) : bool := forallb (Z.eqb 0) p.
Definition allFF (p : list Z) : bool := forallb (Z.eqb 255) p.

Definition list_eqb (a b : list Z) : bool :=
  (List.length a =? List.length b)%nat
  && forallb (fun p => fst p =? snd p) (combine a b).

(** [ip.To4()]; the [nil] slice is [[]] *)
Definition To4 (ip : IP) : IP :=
  if (List.length ip =? IPv4len)%nat then ip
  else if (List.length ip =? IPv6len)%nat
          && isZeros (firstn 10 ip)
          && (nth 10 ip 0 =? 255)
          && (nth 11 ip 0 =? 255)
  then skipn 12 ip
  else [].

(** [ip.Mask(mask)] *)
Definition Mask (ip : IP) (mask : IPMask) : IP :=
  let mask :=
    if (List.length mask =? IPv6len)%nat && (List.length ip =? IPv4len)%nat
       && allFF (firstn 12 mask)
    then skipn 12 mask else mask in
  let ip :=
    if (List.length mask =? IPv4len)%nat && (List.length ip =? IPv6len)%nat
       && list_eqb (firstn 12 ip) v4InV6Prefix
    then skipn 12 ip else ip in
  if negb (List.length ip =? List.length mask)%nat then []
  else map (fun p => Z.land (fst p) (snd p)) (combine ip mask).

(** The bytes of [CIDRMask(ones, bits)] from the byte where [n] ones are
    still to be set; [l] bytes are left to fill. *)
Fixpoint CIDRMask_loop (l : nat) (n : Z) : IPMask :=
  match l with
  | O => []
  | S l' =>
      if n >=? 8 then 255 :: CIDRMask_loop l' (n - 8)
      else Z.lxor 255 (Z.shiftr 255 n) :: CIDRMask_loop l' 0
  end.

Definition CIDRMask (ones bits : Z) : IPMask :=
  if negb (bits =? 32) && negb (bits =? 128) then []
  else if (ones <? 0) || (ones >? bits) then []
  else CIDRMask_loop (Z.to_nat (bits / 8)) ones.

(** [dtoi]: the decimal number at the head of [s], the number of bytes read
    and whether it is in range. *)
Definition big : Z := 16777215.

Fixpoint dtoi_loop (s : string) (n : Z) (i : Z) : Z * Z * bool :=
  match s with
  | EmptyString => if i =? 0 then (0, 0, false) else (n, i, true)
  | String c s' =>
      if is_digit c then
        let n := n * 10 + (code c - code "0") in
        if n >=? big then (big, i, false)
        else dtoi_loop s' n (i + 1)
      else if i =? 0 then (0, 0, false) else (n, i, true)
  end.

Definition dtoi (s : string) : Z * Z * bool := dtoi_loop s 0 0.

(** [net.ParseCIDR]: the address and the network it lies in, or the error
    (the results [ip] and [ipnet] are [nil] exactly when [err] is not) *)
Definition ParseCIDR (s : string) : (IP * IPNet) + error :=
  match cut "/" s with
  | None => inr (ParseError "CIDR address" s)
  | Some (addr, mask) =>
      match ParseAddr addr with
      | None => inr (ParseError "CIDR address" s)
      | Some ipAddr =>
          if negb (String.eqb (Zone ipAddr) EmptyString) then
            inr (ParseError "CIDR address" s)
          else
            let '(n, i, ok) := dtoi mask in
            if negb ok || negb (i =? len mask) || (n <? 0)
               || (n >? BitLen ipAddr) then
              inr (ParseError "CIDR address" s)
            else
              let m := CIDRMask n (BitLen ipAddr) in
              let addr16 := As16 ipAddr in
              inl (addr16, mkIPNet (Mask addr16 m) m)
      end
  end.

(** [net.ParseIP]; [nil] is [[]] *)
Definition ParseIP (s : string) : IP :=
  match ParseAddr s with
  | Some ip => if String.eqb (Zone ip) EmptyString then As16 ip else []
  | None => []
  end.

(** [ip.IsMulticast()] *)
Definition IsMulticast (ip : IP) : bool :=
  match To4 ip with
  | b0 :: _ => Z.land b0 240 =? 224
  | [] => (List.length ip =? IPv6len)%nat && (nth 0 ip 0 =? 255)
  end.

(** *** Printing *)

Definition hexdigit (n : Z) : ascii :=
  if n <? 10 then ascii_of_N (Z.to_N (code "0" + n))
  else ascii_of_N (Z.to_N (code "a" + (n - 10))).

(** [hexString]: two lower-case hex digits a byte *)
Fixpoint hexString (b : list Z) : string :=
  match b with
  | [] => EmptyString
  | x :: b' =>
      String (hexdigit (Z.shiftr x 4)) (String (hexdigit (Z.land x 15)) (hexString b'))
  end.

(** [uitoa]: an unsigned number in decimal *)
Definition uitoa (n : Z) : string := NilZero.string_of_uint (N.to_uint (Z.to_N n)).

(** [netip.Addr.String] of a 4-byte address *)
Definition string4 (p : list Z) : string :=
  uitoa (nth 0 p 0) +++ "." +++ uitoa (nth 1 p 0) +++ "."
  +++ uitoa (nth 2 p 0) +++ "." +++ uitoa (nth 3 p 0).

(** [appendHex]: a 16-bit field in hex without leading zeros *)
Definition appendHex (x : Z) : string :=
  (if x >=? 4096 then String (hexdigit (Z.shiftr x 12)) EmptyString else EmptyString)
  +++ (if x >=? 256 then String (hexdigit (Z.land (Z.shiftr x 8) 15)) EmptyString
       else EmptyString)
  +++ (if x >=? 16 then String (hexdigit (Z.land (Z.shiftr x 4) 15)) EmptyString
       else EmptyString)
  +++ String (hexdigit (Z.land x 15)) EmptyString.

(** [ip.v6u16(i)]: the [i]-th 16-bit field of a 16-byte address *)
Definition v6u16 (ip : list Z) (i : nat) : Z :=
  Z.shiftl (nth (2 * i) ip 0) 8 + nth (2 * i + 1) ip 0.

(** the inner loop [for j < 8 && ip.v6u16(j) == 0 { j++ }], from [j] with
    [n] fields left to look at *)
Fixpoint zeroRun (ip : list Z) (n : nat) (j : nat) : nat :=
  match n with
  | O => j
  | S n' => if v6u16 ip j =? 0 then zeroRun ip n' (S j) else j
  end.

(** the search of [appendTo6] for the first longest run of two or more
    zero fields; 255, 255 when there is none *)
Fixpoint zeroSpan (ip : list Z) (n : nat) (i : nat) (zeroStart zeroEnd : nat)
    : nat * nat :=
  match n with
  | O => (zeroStart, zeroEnd)
  | S n' =>
      let j := zeroRun ip (8 - i) i in
      let l := (j - i)%nat in
      if (2 <=? l)%nat && (zeroEnd - zeroStart <? l)%nat
      then zeroSpan ip n' (S i) i j
      else zeroSpan ip n' (S i) zeroStart zeroEnd
  end.

(** the output loop of [appendTo6]; a round advances [i] by one at least,
    so 8 rounds reach [i >= 8] *)
Fixpoint appendTo6_loop (ip : list Z) (zeroStart zeroEnd : nat) (n : nat)
    (i : nat) : string :=
  match n with
  | O => EmptyString
  | S n' =>
      if (8 <=? i)%nat then EmptyString
      else if (i =? zeroStart)%nat then
        "::" +++ (if (8 <=? zeroEnd)%nat then EmptyString
                  else appendHex (v6u16 ip zeroEnd)
                       +++ appendTo6_loop ip zeroStart zeroEnd n' (S zeroEnd))
      else
        (if (0 <? i)%nat then ":" else EmptyString)
        +++ appendHex (v6u16 ip i)
        +++ appendTo6_loop ip zeroStart zeroEnd n' (S i)
  end.

(** [netip.Addr.String] of a 16-byte address without zone that is not
    IPv4-mapped *)
Definition string6 (ip : list Z) : string :=
  let '(zeroStart, zeroEnd) := zeroSpan ip 8 0 255 255 in
  appendTo6_loop ip zeroStart zeroEnd 8 0.

(** [ip.String()] *)
Definition IP_String (ip : IP) : string :=
  if (List.length ip =? 0)%nat then "<nil>"
  else if negb (List.length ip =? IPv4len)%nat
          && negb (List.length ip =? IPv6len)%nat
  then "?" +++ hexString ip
  else if (List.length (To4 ip) =? IPv4len)%nat then string4 (To4 ip)
  else string6 ip.

(** [m.String()] of an [IPMask] *)
Definition IPMask_String (m : IPMask) : string :=
  if (List.length m =? 0)%nat then "<nil>" else hexString m.

(** the number of leading ones of the byte [v], with what is left of it
    after shifting them out; [n] bounds the shifts by the 8 bits of a byte *)
Fixpoint leadingOnes (n : nat) (v : Z) (count : Z) : Z * Z :=
  match n with
  | O => (count, v)
  | S n' =>
      if negb (Z.land v 128 =? 0)
      then leadingOnes n' (Z.land (Z.shiftl v 1) 255) (count + 1)
      else (count, v)
  end.

(** [simpleMaskLength]: the number of leading ones of a mask of the form
    1...10...0, otherwise -1 *)
Fixpoint simpleMaskLength_loop (mask : IPMask) (n : Z) : Z :=
  match mask with
  | [] => n
  | v :: rest =>
      if v =? 255 then simpleMaskLength_loop rest (n + 8)
      else
        let '(n, v) := leadingOnes 8 v n in
        if negb (v =? 0) then -1
        else if negb (isZeros rest) then -1
        else n
  end.

Definition simpleMaskLength (mask : IPMask) : Z := simpleMaskLength_loop mask 0.

(** [networkNumberAndMask]; [None] is [nil, nil] *)
Definition networkNumberAndMask (n : IPNet) : option (IP * IPMask) :=
  let ip4 := To4 (IPNet_IP n) in
  let ip := match ip4 with [] => IPNet_IP n | _ => ip4 end in
  if (match ip4 with [] => negb (List.length ip =? IPv6len)%nat | _ => false end)
  then None
  else
    let m := IPNet_Mask n in
    if (List.length m =? IPv4len)%nat then
      if negb (List.length ip =? IPv4len)%nat then None else Some (ip, m)
    else if (List.length m =? IPv6len)%nat then
      if (List.length ip =? IPv4len)%nat then Some (ip, skipn 12 m)
      else Some (ip, m)
    else None.

(** [n.String()] of a non-nil [*IPNet] *)
Definition IPNet_String (n : IPNet) : string :=
  match networkNumberAndMask n with
  | None => "<nil>"
  | Some (nn, m) =>
      let l := simpleMaskLength m in
      if l =? -1 then IP_String nn +++ "/" +++ IPMask_String m
      else IP_String nn +++ "/" +++ uitoa l
  end.

End Net.

(** ** [github.com/aws/aws-sdk-go/aws/arn] *)

Module Arn.
Import GoStrings.

Record ARN : Type := mkARN {
  Partition : string;
  Service : string;
  Region : string;
  AccountID : string;
  Resource : string
}.

Definition arnDelimiter : ascii := ":".
Definition arnSections : nat := 6.
Definition arnPrefix : string := "arn:".
Definition invalidPrefix : string := "arn: invalid prefix".
Definition invalidSections : string := "arn: not enough sections".

Definition zeroARN : ARN :=
  mkARN EmptyString EmptyString EmptyString EmptyString EmptyString.

(** [arn.Parse] *)
Definition Parse (arn : string) : ARN * option error :=
  if negb (HasPrefix arn arnPrefix) then (zeroARN, Some (errors_New invalidPrefix))
  else
    let sections := SplitN arn arnDelimiter arnSections in
    if negb (List.length sections =? arnSections)%nat then
      (zeroARN, Some (errors_New invalidSections))
    else
      (mkARN (nth 1 sections EmptyString)
             (nth 2 sections EmptyString)
             (nth 3 sections EmptyString)
             (nth 4 sections EmptyString)
             (nth 5 sections EmptyString), None).

End Arn.

(** ** Library routines kept abstract

    [time.Parse], [strconv.ParseFloat], the JSON normaliser of the plugin SDK
    and [strings.ToLower] (which maps whole Unicode) are not unfolded: a
    validator only looks at whether they fail. *)

Class Externals : Type := {
  (** the error of [time.Parse(layout, value)] *)
  time_Parse : string -> string -> option error;
  (** the error of [strconv.ParseFloat(value, 64)] *)
  strconv_ParseFloat : string -> option error;
  (** the error of [structure.NormalizeJsonString] on a string *)
  structure_NormalizeJsonString : string -> option error;
  strings_ToLower : string -> string
}.

(** ** Package [verify]: validate.go *)

Module Verify.
Import GoStrings Regexp.

(** A run-time panic: the failed type assertion [v.(T)]. *)
Inductive panic : Type :=
| TypeAssertionError (v : value) (asserted : string).

(** What a call of a [schema.SchemaValidateFunc] does: it returns
    [(ws, errors)], or it panics. *)
Inductive outcome : Type :=
| Return (ws : list string) (errors : list error)
| Panic (p : panic).

(** [value := v.(string)], the form without [ok]: it panics unless [v] holds
    a string. *)
Definition assertString (v : value) (k : string -> outcome) : outcome :=
  match v with
  | VString value => k value
  | _ => Panic (TypeAssertionError v "string")
  end.

Notation "'let!' x ':=' v '.(string)' 'in' body" :=
  (assertString v (fun x => body))
  (at level 10, x name, v at level 9, body at level 200, only parsing).

Definition accountIDRegexp : Regexp :=
  MustCompile "^(aws|aws-managed|third-party|\d{12})$"
    (Alts [Str "aws"; Str "aws-managed"; Str "third-party"; Repeat 12 digit]).

Definition partitionRegexp : Regexp :=
  MustCompile "^aws(-[a-z]+)*$"
    (Cat (Str "aws") (Star (Cat (Lit "-") (Plus lower)))).

Definition regionRegexp : Regexp :=
  MustCompile "^[a-z]{2}(-[a-z]+)+-\d$"
    (Cat (Repeat 2 lower)
       (Cat (Plus (Cat (Lit "-") (Plus lower))) (Cat (Lit "-") digit))).

Definition Valid4ByteASN (v : value) (k : string) : outcome :=
  let ws : list string := [] in
  let errors : list error := [] in
  let! value := v.(string) in
  let '(asn, err) := Strconv.ParseInt value in
  match err with
  | Some _ =>
      let errors :=
        errors ++ [Errorf "%q (%q) must be a 64-bit integer" [OString k; OValue v]] in
      Return ws errors
  | None =>
      let errors :=
        if (asn <? 0) || (asn >? 4294967295) then
          errors ++ [Errorf "%q (%q) must be in the range 0 to 4294967295"
                       [OString k; OValue v]]
        else errors in
      Return ws errors
  end.

Definition ARNCheckFunc : Type :=
  value -> string -> Arn.ARN -> list string * list error.

(** The loop [for _, f := range f] of [ValidARNCheck]. *)
Fixpoint ValidARNCheck_range (f : list ARNCheckFunc) (v : value) (k : string)
    (parsedARN : Arn.ARN) (ws : list string) (errors : list error)
    : list string * list error :=
  match f with
  | [] => (ws, errors)
  | f0 :: f' =>
      let '(w, e) := f0 v k parsedARN in
      let ws := ws ++ w in
      let errors := errors ++ e in
      ValidARNCheck_range f' v k parsedARN ws errors
  end.

Definition ValidARNCheck (f : list ARNCheckFunc) (v : value) (k : string)
    : outcome :=
  let ws : list string := [] in
  let errors : list error := [] in
  match v with
  | VString value =>
      if String.eqb value EmptyString then Return ws errors
      else
        let '(parsedARN, err) := Arn.Parse value in
        match err with
        | Some err =>
            let errors :=
              errors ++ [Errorf "%q (%s) is an invalid ARN: %s"
                           [OString k; OString value; OError err]] in
            Return ws errors
        | None =>
            let errors :=
              if String.eqb (Arn.Partition parsedARN) EmptyString then
                errors ++ [Errorf "%q (%s) is an invalid ARN: missing partition value"
                             [OString k; OString value]]
              else if negb (MatchString partitionRegexp (Arn.Partition parsedARN)) then
                errors ++ [Errorf "%q (%s) is an invalid ARN: invalid partition value (expecting to match regular expression: %s)"
                             [OString k; OString value; ORegexp partitionRegexp]]
              else errors in
            let errors :=
              if negb (String.eqb (Arn.Region parsedARN) EmptyString)
                 && negb (MatchString regionRegexp (Arn.Region parsedARN)) then
                errors ++ [Errorf "%q (%s) is an invalid ARN: invalid region value (expecting to match regular expression: %s)"
                             [OString k; OString value; ORegexp regionRegexp]]
              else errors in
            let errors :=
              if negb (String.eqb (Arn.AccountID parsedARN) EmptyString)
                 && negb (MatchString accountIDRegexp (Arn.AccountID parsedARN)) then
                errors ++ [Errorf "%q (%s) is an invalid ARN: invalid account ID value (expecting to match regular expression: %s)"
                             [OString k; OString value; ORegexp accountIDRegexp]]
              else errors in
            let errors :=
              if String.eqb (Arn.Resource parsedARN) EmptyString then
                errors ++ [Errorf "%q (%s) is an invalid ARN: missing resource value"
                             [OString k; OString value]]
              else errors in
            let '(ws, errors) := ValidARNCheck_range f v k parsedARN ws errors in
            Return ws errors
        end
  | _ =>
      let errors :=
        errors ++ [Errorf "expected type of %s to be string" [OString k]] in
      Return ws errors
  end.

(** [ValidARN] validates that a string value matches a generic ARN format *)
Definition ValidARN : value -> string -> outcome := ValidARNCheck [].

Definition ValidAccountID (v : value) (k : string) : outcome :=
  let ws : list string := [] in
  let errors : list error := [] in
  let! value := v.(string) in
  let pattern := MustCompile "^\d{12}$" (Repeat 12 digit) in
  let errors :=
    if negb (MatchString pattern value) then
      errors ++ [Errorf "%q doesn't look like AWS Account ID (exactly 12 digits): %q"
                   [OString k; OString value]]
    else errors in
  Return ws errors.

(** Modelled from the spec: [CIDRBlocksEqual], a function of package
    [verify] that is not in validate.go.  The specification (4.2) has the
    input reparsed and re-rendered and the renderings compared byte for
    byte, so that a text with host bits set differs from the canonical form
    of its network: both texts are parsed, and the rendered addresses and
    the rendered networks have to agree. *)
Definition CIDRBlocksEqual (cidr1 cidr2 : string) : bool :=
  match Net.ParseCIDR cidr1, Net.ParseCIDR cidr2 with
  | inl (ip1, ipnet1), inl (ip2, ipnet2) =>
      String.eqb (Net.IP_String ip2) (Net.IP_String ip1)
      && String.eqb (Net.IPNet_String ipnet2) (Net.IPNet_String ipnet1)
  | _, _ => false
  end.

Definition ValidateCIDRBlock (cidr : string) : option error :=
  match Net.ParseCIDR cidr with
  | inr err =>
      Some (Errorf "%q is not a valid CIDR block: %w" [OString cidr; OError err])
  | inl (_, ipnet) =>
      if negb (CIDRBlocksEqual cidr (Net.IPNet_String ipnet)) then
        Some (Errorf "%q is not a valid CIDR block; did you mean %q?"
                [OString cidr; OIPNet ipnet])
      else None
  end.

Definition ValidCIDRNetworkAddress (v : value) (k : string) : outcome :=
  let ws : list string := [] in
  let errors : list error := [] in
  let! value := v.(string) in
  match ValidateCIDRBlock value with
  | Some err => Return ws (errors ++ [err])
  | None => Return ws errors
  end.

Definition ValidIAMPolicyJSON `{Externals} (v : value) (k : string) : outcome :=
  let ws : list string := [] in
  let errors : list error := [] in
  let! value := v.(string) in
  if len value <? 1 then
    Return ws (errors ++ [Errorf "%q contains an invalid JSON policy" [OString k]])
  else if negb (String.eqb (substring 0 1 value) "{") then
    Return ws (errors ++ [Errorf "%q contains an invalid JSON policy" [OString k]])
  else
    match structure_NormalizeJsonString value with
    | Some err =>
        Return ws (errors ++ [Errorf "%q contains an invalid JSON: %s"
                                [OString k; OError err]])
    | None => Return ws errors
    end.

Definition ValidateIPv4CIDRBlock (cidr : string) : option error :=
  match Net.ParseCIDR cidr with
  | inr err =>
      Some (Errorf "%q is not a valid CIDR block: %w" [OString cidr; OError err])
  | inl (ip, ipnet) =>
      let ipv4 := Net.To4 ip in
      match ipv4 with
      | [] => Some (Errorf "%q is not a valid IPv4 CIDR block" [OString cidr])
      | _ =>
          if negb (CIDRBlocksEqual cidr (Net.IPNet_String ipnet)) then
            Some (Errorf "%q is not a valid IPv4 CIDR block; did you mean %q?"
                    [OString cidr; OIPNet ipnet])
          else None
      end
  end.

Definition ValidateIPv6CIDRBlock (cidr : string) : option error :=
  match Net.ParseCIDR cidr with
  | inr err =>
      Some (Errorf "%q is not a valid CIDR block: %w" [OString cidr; OError err])
  | inl (ip, ipnet) =>
      let ipv4 := Net.To4 ip in
      match ipv4 with
      | _ :: _ => Some (Errorf "%q is not a valid IPv6 CIDR block" [OString cidr])
      | [] =>
          if negb (CIDRBlocksEqual cidr (Net.IPNet_String ipnet)) then
            Some (Errorf "%q is not a valid IPv6 CIDR block; did you mean %q?"
                    [OString cidr; OIPNet ipnet])
          else None
      end
  end.

Definition ValidIPv4CIDRNetworkAddress (v : value) (k : string) : outcome :=
  let ws : list string := [] in
  let errors : list error := [] in
  let! value := v.(string) in
  match ValidateIPv4CIDRBlock value with
  | Some err => Return ws (errors ++ [err])
  | None => Return ws errors
  end.

Definition ValidIPv6CIDRNetworkAddress (v : value) (k : string) : outcome :=
  let ws : list string := [] in
  let errors : list error := [] in
  let! value := v.(string) in
  match ValidateIPv6CIDRBlock value with
  | Some err => Return ws (errors ++ [err])
  | None => Return ws errors
  end.

Definition ValidKMSKeyID (v : value) (k : string) : outcome :=
  let ws : list string := [] in
  let errors : list error := [] in
  let! value := v.(string) in
  let errors :=
    if len value <? 1 then
      errors ++ [Errorf "%q cannot be shorter than 1 character" [OString k]]
    else if len value >? 2048 then
      errors ++ [Errorf "%q cannot be longer than 2048 characters" [OString k]]
    else errors in
  Return ws errors.

Definition ValidLaunchTemplateID (v : value) (k : string) : outcome :=
  let ws : list string := [] in
  let errors : list error := [] in
  let! value := v.(string) in
  let errors :=
    if len value <? 1 then
      errors ++ [Errorf "%q cannot be shorter than 1 character" [OString k]]
    else if len value >? 255 then
      errors ++ [Errorf "%q cannot be longer than 255 characters" [OString k]]
    else if negb (MatchString
                    (MustCompile "^lt\-[a-z0-9]+$"
                       (Cat (Str "lt-") (Plus (Alt lower digit))))
                    value) then
      errors ++ [Errorf "%q must begin with 'lt-' and be comprised of only alphanumeric characters: %v"
                   [OString k; OString value]]
    else errors in
  Return ws errors.

Definition ValidLaunchTemplateName (v : value) (k : string) : outcome :=
  let ws : list string := [] in
  let errors : list error := [] in
  let! value := v.(string) in
  let errors :=
    if len value <? 3 then
      errors ++ [Errorf "%q cannot be less than 3 characters" [OString k]]
    else if HasSuffix k "prefix" && (len value >? 99) then
      errors ++ [Errorf "%q cannot be longer than 99 characters, name is limited to 125"
                   [OString k]]
    else if negb (HasSuffix k "prefix") && (len value >? 125) then
      errors ++ [Errorf "%q cannot be longer than 125 characters" [OString k]]
    else if negb (MatchString
                    (MustCompile "^[0-9a-zA-Z()./_\-]+$"
                       (Plus (Alts [digit; lower; upper; Lit "("; Lit ")";
                                    Lit "."; Lit "/"; Lit "_"; Lit "-"])))
                    value) then
      errors ++ [Errorf "%q can only alphanumeric characters and ()./_- symbols"
                   [OString k]]
    else errors in
  Return ws errors.

(** [validateMulticastIPAddress] validates that the specified string is a
    multicast IP address. *)
Definition validateMulticastIPAddress (s : string) : option error :=
  let ip := Net.ParseIP s in
  match ip with
  | [] => Some (Errorf "%q is not a valid IP address" [OString s])
  | _ =>
      if negb (Net.IsMulticast ip) then
        Some (Errorf "%q is not a valid multicast address" [OString s])
      else None
  end.

Definition ValidMulticastIPAddress (v : value) (k : string) : outcome :=
  let ws : list string := [] in
  let errors : list error := [] in
  let! value := v.(string) in
  match validateMulticastIPAddress value with
  | Some err => Return ws (errors ++ [err])
  | None => Return ws errors
  end.

(** "hh24:mi": [([0-1][0-9]|2[0-3]):([0-5][0-9])] *)
Definition hh24mi : re :=
  Cat (Alt (Cat (Range "0" "1") digit) (Cat (Lit "2") (Range "0" "3")))
      (Cat (Lit ":") (Cat (Range "0" "5") digit)).

Definition ValidateOnceADayWindowFormat (value : string) : option error :=
  let validTimeFormat := "([0-1][0-9]|2[0-3]):([0-5][0-9])" in
  let validTimeFormatConsolidated :=
    "^(" +++ validTimeFormat +++ "-" +++ validTimeFormat +++ "|)$" in
  if negb (MatchString
             (MustCompile validTimeFormatConsolidated
                (Alt (Cat hh24mi (Cat (Lit "-") hh24mi)) Eps))
             value) then
    Some (Errorf ("(%s) must satisfy the format of " +++ dquote
                  +++ "hh24:mi-hh24:mi" +++ dquote) [OString value])
  else None.

Definition ValidOnceADayWindowFormat (v : value) (k : string) : outcome :=
  let ws : list string := [] in
  let errors : list error := [] in
  let! value := v.(string) in
  match ValidateOnceADayWindowFormat value with
  | Some err => Return ws (errors ++ [err])
  | None => Return ws errors
  end.

(** "ddd:hh24:mi": [(sun|mon|tue|wed|thu|fri|sat):([0-1][0-9]|2[0-3]):([0-5][0-9])] *)
Definition dddhh24mi : re :=
  Cat (Alts [Str "sun"; Str "mon"; Str "tue"; Str "wed"; Str "thu";
             Str "fri"; Str "sat"])
      (Cat (Lit ":") hh24mi).

Definition ValidateOnceAWeekWindowFormat `{Externals} (value : string)
    : option error :=
  let validTimeFormat :=
    "(sun|mon|tue|wed|thu|fri|sat):([0-1][0-9]|2[0-3]):([0-5][0-9])" in
  let validTimeFormatConsolidated :=
    "^(" +++ validTimeFormat +++ "-" +++ validTimeFormat +++ "|)$" in
  let val := strings_ToLower value in
  if negb (MatchString
             (MustCompile validTimeFormatConsolidated
                (Alt (Cat dddhh24mi (Cat (Lit "-") dddhh24mi)) Eps))
             val) then
    Some (Errorf ("(%s) must satisfy the format of " +++ dquote
                  +++ "ddd:hh24:mi-ddd:hh24:mi" +++ dquote) [OString val])
  else None.

Definition ValidOnceAWeekWindowFormat `{Externals} (v : value) (k : string)
    : outcome :=
  let ws : list string := [] in
  let errors : list error := [] in
  let! value := v.(string) in
  match ValidateOnceAWeekWindowFormat value with
  | Some err => Return ws (errors ++ [err])
  | None => Return ws errors
  end.

Definition ValidRegionName (v : value) (k : string) : outcome :=
  let ws : list string := [] in
  let errors : list error := [] in
  let! value := v.(string) in
  if String.eqb value EmptyString then Return ws errors
  else
    let errors :=
      if negb (MatchString regionRegexp value) then
        errors ++ [Errorf "%q region name is malformed(%q): %q"
                     [OString k; ORegexp regionRegexp; OString value]]
      else errors in
    Return ws errors.

(** [ValidTypeStringNullableFloat] provides custom error messaging for
    TypeString floats *)
Definition ValidTypeStringNullableFloat `{Externals} (v : value) (k : string)
    : outcome :=
  let ws : list string := [] in
  let es : list error := [] in
  match v with
  | VString value =>
      if String.eqb value EmptyString then Return ws es
      else
        match strconv_ParseFloat value with
        | Some err =>
            Return ws (es ++ [Errorf "%s: cannot parse '%s' as float: %s"
                                [OString k; OString value; OError err]])
        | None => Return ws es
        end
  | _ =>
      Return ws (es ++ [Errorf "expected type of %s to be string" [OString k]])
  end.

Definition RFC3339 : string := "2006-01-02T15:04:05Z07:00".

Definition ValidateUTCTimestamp `{Externals} (value : string) : option error :=
  match time_Parse RFC3339 value with
  | Some err =>
      Some (Errorf "must be in RFC3339 time format %q. Example: %s"
              [OString RFC3339; OError err])
  | None => None
  end.

Definition ValidUTCTimestamp `{Externals} (v : value) (k : string) : outcome :=
  let ws : list string := [] in
  let errors : list error := [] in
  let! value := v.(string) in
  match ValidateUTCTimestamp value with
  | Some err => Return ws (errors ++ [err])
  | None => Return ws errors
  end.

(** The statements of [ValidDuration] after the call of
    [time.ParseDuration], on what that call gave. *)
Definition ValidDuration_checks (k : string) (duration : Time.Duration)
    (err : option error) : list error :=
  let errors : list error := [] in
  let errors :=
    match err with
    | Some err =>
        errors ++ [Errorf "%q cannot be parsed as a duration: %s"
                     [OString k; OError err]]
    | None => errors
    end in
  let errors :=
    if duration <? 0 then
      errors ++ [Errorf "%q must be greater than zero" [OString k]]
    else errors in
  errors.

Definition ValidDuration (v : value) (k : string) : outcome :=
  let ws : list string := [] in
  let! value := v.(string) in
  let '(duration, err) := Time.ParseDuration value in
  Return ws (ValidDuration_checks k duration err).

(** [FloatGreaterThan] returns a SchemaValidateFunc which tests if the
    provided value is of type float and is greater than threshold. *)
Definition FloatGreaterThan (threshold : float64) (i : value) (k : string)
    : outcome :=
  let s : list string := [] in
  let es : list error := [] in
  match i with
  | VFloat64 v =>
      if Float64.leb v threshold then
        Return s (es ++ [Errorf "expected %s to be greater than (%f), got %f"
                           [OString k; OFloat64 threshold; OFloat64 v]])
      else Return s es
  | _ =>
      Return s (es ++ [Errorf "expected type of %s to be float" [OString k]])
  end.

(** *** The composition helpers *)

Inductive Severity : Type := Error | Warning.

Record Diagnostic : Type := mkDiagnostic {
  Severity_ : Severity;
  Summary : string;
  Detail : string
}.

Definition Diagnostics : Type := list Diagnostic.

(** [cty.Path], as the attribute names it steps through *)
Definition Path : Type := list string.

Definition SchemaValidateDiagFunc : Type := value -> Path -> Diagnostics.

Fixpoint ValidAllDiag_range (validators : list SchemaValidateDiagFunc)
    (i : value) (path : Path) (results : Diagnostics) : Diagnostics :=
  match validators with
  | [] => results
  | validator :: rest =>
      let results := results ++ validator i path in
      ValidAllDiag_range rest i path results
  end.

Definition ValidAllDiag (validators : list SchemaValidateDiagFunc)
    : SchemaValidateDiagFunc :=
  fun i path =>
    let results : Diagnostics := [] in
    ValidAllDiag_range validators i path results.

Fixpoint ValidAnyDiag_range (validators : list SchemaValidateDiagFunc)
    (i : value) (path : Path) (results : Diagnostics) : Diagnostics :=
  match validators with
  | [] => results
  | validator :: rest =>
      let diags := validator i path in
      if (List.length diags =? 0)%nat then []
      else
        let results := results ++ diags in
        ValidAnyDiag_range rest i path results
  end.

Definition ValidAnyDiag (validators : list SchemaValidateDiagFunc)
    : SchemaValidateDiagFunc :=
  fun i path =>
    let results : Diagnostics := [] in
    ValidAnyDiag_range validators i path results.

(** *** [validation.All] and [validation.Any] of the plugin SDK, and the
    validator built from them *)

Definition SchemaValidateFunc : Type := value -> string -> outcome.

(** The loop of [validation.All]: every validator runs, its warnings and
    errors are appended; a validator that panics ends the call. *)
Fixpoint validation_All_range (validators : list SchemaValidateFunc)
    (i : value) (k : string) (allWarnings : list string)
    (allErrors : list error) : outcome :=
  match validators with
  | [] => Return allWarnings allErrors
  | validator :: rest =>
      match validator i k with
      | Panic p => Panic p
      | Return validatorWarnings validatorErrors =>
          let allWarnings := allWarnings ++ validatorWarnings in
          let allErrors := allErrors ++ validatorErrors in
          validation_All_range rest i k allWarnings allErrors
      end
  end.

Definition validation_All (validators : list SchemaValidateFunc)
    : SchemaValidateFunc :=
  fun i k => validation_All_range validators i k [] [].

(** The loop of [validation.Any]: the first validator without warning and
    without error makes the result empty. *)
Fixpoint validation_Any_range (validators : list SchemaValidateFunc)
    (i : value) (k : string) (allWarnings : list string)
    (allErrors : list error) : outcome :=
  match validators with
  | [] => Return allWarnings allErrors
  | validator :: rest =>
      match validator i k with
      | Panic p => Panic p
      | Return validatorWarnings validatorErrors =>
          if (List.length validatorWarnings =? 0)%nat
             && (List.length validatorErrors =? 0)%nat
          then Return [] []
          else
            let allWarnings := allWarnings ++ validatorWarnings in
            let allErrors := allErrors ++ validatorErrors in
            validation_Any_range rest i k allWarnings allErrors
      end
  end.

Definition validation_Any (validators : list SchemaValidateFunc)
    : SchemaValidateFunc :=
  fun i k => validation_Any_range validators i k [] [].

(** [IsIPv4CIDRBlockOrIPv6CIDRBlock] returns a SchemaValidateFunc that
    tests if the provided value is a valid IPv4 CIDR block and passes the
    specified validation, or is a valid IPv6 CIDR block and passes the
    specified validation. *)
Definition IsIPv4CIDRBlockOrIPv6CIDRBlock
    (ipv4Validator ipv6Validator : SchemaValidateFunc) : SchemaValidateFunc :=
  validation_Any
    [validation_All [ValidIPv4CIDRNetworkAddress; ipv4Validator];
     validation_All [ValidIPv6CIDRNetworkAddress; ipv6Validator]].

End Verify.

(** ** The notions the properties are stated with *)

Module Spec.
Import GoStrings Regexp Verify.

(** the primitive type a value holds *)
Definition is_string (v : value) : bool :=
  match v with VString _ => true | _ => false end.

Definition is_float64 (v : value) : bool :=
  match v with VFloat64 _ => true | _ => false end.

(** the error of a checked type assertion *)
Definition expected_type (k : string) (type : string) : error :=
  Errorf ("expected type of %s to be " +++ type) [OString k].

(** a validator returned, and with no warning *)
Definition returns_no_warnings (o : outcome) : Prop :=
  exists errors, o = Return [] errors.

(** *** The four subfield checks of an ARN, as section 4.1 words them *)

(** partition is non-empty and matches its pattern *)
Definition partition_ok (a : Arn.ARN) : bool :=
  negb (String.eqb (Arn.Partition a) EmptyString)
  && MatchString partitionRegexp (Arn.Partition a).

(** region, if non-empty, matches its pattern *)
Definition region_ok (a : Arn.ARN) : bool :=
  String.eqb (Arn.Region a) EmptyString
  || MatchString regionRegexp (Arn.Region a).

(** account ID, if non-empty, matches its pattern *)
Definition accountID_ok (a : Arn.ARN) : bool :=
  String.eqb (Arn.AccountID a) EmptyString
  || MatchString accountIDRegexp (Arn.AccountID a).

(** resource is non-empty *)
Definition resource_ok (a : Arn.ARN) : bool :=
  negb (String.eqb (Arn.Resource a) EmptyString).

(** a check contributes its error when it fails, and nothing otherwise *)
Definition failing (ok : bool) (e : error) : list error :=
  if ok then [] else [e].

Definition partition_error (k value : string) (a : Arn.ARN) : error :=
  if String.eqb (Arn.Partition a) EmptyString then
    Errorf "%q (%s) is an invalid ARN: missing partition value"
      [OString k; OString value]
  else
    Errorf "%q (%s) is an invalid ARN: invalid partition value (expecting to match regular expression: %s)"
      [OString k; OString value; ORegexp partitionRegexp].

Definition region_error (k value : string) : error :=
  Errorf "%q (%s) is an invalid ARN: invalid region value (expecting to match regular expression: %s)"
    [OString k; OString value; ORegexp regionRegexp].

Definition accountID_error (k value : string) : error :=
  Errorf "%q (%s) is an invalid ARN: invalid account ID value (expecting to match regular expression: %s)"
    [OString k; OString value; ORegexp accountIDRegexp].

Definition resource_error (k value : string) : error :=
  Errorf "%q (%s) is an invalid ARN: missing resource value"
    [OString k; OString value].

Definition subfield_errors (k value : string) (a : Arn.ARN) : list error :=
  failing (partition_ok a) (partition_error k value a)
  ++ failing (region_ok a) (region_error k value)
  ++ failing (accountID_ok a) (accountID_error k value)
  ++ failing (resource_ok a) (resource_error k value).

(** the number of subfield checks that fail *)
Definition failures (a : Arn.ARN) : nat :=
  List.length (filter negb
    [partition_ok a; region_ok a; accountID_ok a; resource_ok a]).

(** what the secondary checks give, one after the other *)
Definition secondary_warnings (f : list ARNCheckFunc) (v : value) (k : string)
    (a : Arn.ARN) : list string :=
  flat_map (fun g => fst (g v k a)) f.

Definition secondary_errors (f : list ARNCheckFunc) (v : value) (k : string)
    (a : Arn.ARN) : list error :=
  flat_map (fun g => snd (g v k a)) f.

(** *** The two errors of [ValidDuration] *)

Definition parse_error (k : string) (err : error) : error :=
  Errorf "%q cannot be parsed as a duration: %s" [OString k; OError err].

Definition negative_error (k : string) : error :=
  Errorf "%q must be greater than zero" [OString k].

(** *** CIDR texts *)




Definition not_IPv6_error (cidr : string) : error :=
  Errorf "%q is not a valid IPv6 CIDR block" [OString cidr].

Definition not_CIDR_error (cidr : string) (err : error) : error :=
  Errorf "%q is not a valid CIDR block: %w" [OString cidr; OError err].

(** *** Diagnostics *)

(** the diagnostics of all validators, in order *)
Definition all_diagnostics (validators : list SchemaValidateDiagFunc)
    (i : value) (path : Path) : Diagnostics :=
  flat_map (fun validator => validator i path) validators.

(** a validator succeeds when it gives no diagnostic *)
Definition succeeds (i : value) (path : Path)
    (validator : SchemaValidateDiagFunc) : bool :=
  match validator i path with [] => true | _ => false end.

End Spec.

(** ** Sample validators and checks, for instances of the properties *)

Module Samples.
Import Verify.

Definition notA (type : string) : Diagnostic :=
  mkDiagnostic Error "wrong type" ("the value is not a " +++ type).

Definition requireString : SchemaValidateDiagFunc :=
  fun i _ => match i with VString _ => [] | _ => [notA "string"] end.

Definition requireFloat : SchemaValidateDiagFunc :=
  fun i _ => match i with VFloat64 _ => [] | _ => [notA "float"] end.

Definition requireBool : SchemaValidateDiagFunc :=
  fun i _ => match i with VBool _ => [] | _ => [notA "bool"] end.

(** a secondary ARN check that accepts the service "s3" only, and warns
    about an ARN with a region *)
Definition s3Only : ARNCheckFunc :=
  fun _ k a =>
    ((if String.eqb (Arn.Region a) EmptyString
      then [] else ["region in " +++ k]),
     (if String.eqb (Arn.Service a) "s3"
      then [] else [Errorf "%q is not an S3 ARN" [OString k]])).

End Samples.

(** ** Further notions, for the properties beyond the claims *)

Module Notions.
Import GoStrings Regexp Verify.

(** a pattern for one byte, the bytes that satisfy [p] *)
Definition class_of (r : re) (p : ascii -> bool) : Prop :=
  forall s, accepts r s = true <-> exists c, s = String c EmptyString /\ p c = true.

(** every byte of [s] satisfies [p] *)
Definition all_bytes (p : ascii -> bool) (s : string) : bool :=
  forallb p (list_ascii_of_string s).

Definition is_lower (c : ascii) : bool := byte_in "a" "z" c.
Definition is_upper (c : ascii) : bool := byte_in "A" "Z" c.

(** the bytes of a launch template ID after "lt-" *)
Definition id_byte (c : ascii) : bool := is_lower c || is_digit c.

(** the bytes of a launch template name: letters, digits and [()./_-] *)
Definition name_byte (c : ascii) : bool :=
  is_digit c || is_lower c || is_upper c
  || Ascii.eqb c "(" || Ascii.eqb c ")" || Ascii.eqb c "." || Ascii.eqb c "/"
  || Ascii.eqb c "_" || Ascii.eqb c "-".

(** the longest name a key admits: 99 bytes under a key that ends in
    "prefix", 125 under any other *)
Definition name_limit (k : string) : Z :=
  if HasSuffix k "prefix" then 99 else 125.

(** the value of a decimal digit *)
Definition digit_value (c : ascii) : Z := code c - code "0".

(** the number a string of decimal digits writes, after the digits that
    made [n] *)
Fixpoint decimal_from (n : Z) (s : string) : Z :=
  match s with
  | EmptyString => n
  | String c s' => decimal_from (10 * n + digit_value c) s'
  end.

Definition decimal (s : string) : Z := decimal_from 0 s.

(** a non-empty string of decimal digits *)
Definition is_number (s : string) : bool :=
  negb (String.eqb s EmptyString) && all_bytes is_digit s.

(** a text without the byte [c] *)
Definition without (c : ascii) (s : string) : bool :=
  all_bytes (fun x => negb (Ascii.eqb x c)) s.

(** [arn.ARN.String]: the text of an ARN *)
Definition ARN_String (a : Arn.ARN) : string :=
  Arn.arnPrefix +++ Arn.Partition a +++ ":" +++ Arn.Service a +++ ":"
  +++ Arn.Region a +++ ":" +++ Arn.AccountID a +++ ":" +++ Arn.Resource a.

(** the fields of an ARN that a colon ends hold no colon *)
Definition fields_without_colon (a : Arn.ARN) : bool :=
  without ":" (Arn.Partition a) && without ":" (Arn.Service a)
  && without ":" (Arn.Region a) && without ":" (Arn.AccountID a).

(** a byte, as a number *)
Definition is_byte (x : Z) : bool := (0 <=? x) && (x <=? 255).

(** the numbers from 0 to [n - 1] *)
Definition below (n : nat) : list Z := map Z.of_nat (seq 0 n).

(** What the digit branch of [parseIPv4Fields] makes of a run of digits:
    the octet and its number of digits, [None] where it stops with an
    error. *)
Fixpoint octet_scan (ds : string) (val digLen : Z) : option (Z * Z) :=
  match ds with
  | EmptyString => Some (val, digLen)
  | String c ds' =>
      if (digLen =? 1) && (val =? 0) then None
      else
        let val := val * 10 + code c - code "0" in
        if val >? 255 then None else octet_scan ds' val (digLen + 1)
  end.

(** the dotted text of four octets *)
Definition dotted (a b c d : Z) : string := Net.string4 [a; b; c; d].

(** four octets *)
Definition is_IPv4 (ip : list Z) : bool :=
  (List.length ip =? 4)%nat && forallb is_byte ip.

(** the text "a.b.c.d/n" of the address [ip] with a prefix of [n] bits *)
Definition block (ip : list Z) (n : Z) : string :=
  Net.string4 ip +++ "/" +++ Net.uitoa n.

(** the network of [n] bits the address [ip] lies in: its host bits
    cleared *)
Definition network (ip : list Z) (n : Z) : list Z :=
  Net.Mask ip (Net.CIDRMask n 32).

(** a text that does not start with a sign *)
Definition unsigned (s : string) : bool :=
  match s with
  | String c _ => negb (Ascii.eqb c "-" || Ascii.eqb c "+")
  | EmptyString => true
  end.

(** a time of day "hh:mm" on the 24-hour clock: two digits that make a
    number below 24, a colon, two digits that make a number below 60 *)
Definition is_clock (s : string) : bool :=
  match s with
  | String h1 (String h2 (String c (String m1 (String m2 EmptyString)))) =>
      is_digit h1 && is_digit h2 && Ascii.eqb c ":"
      && is_digit m1 && is_digit m2
      && (10 * digit_value h1 + digit_value h2 <? 24)
      && (10 * digit_value m1 + digit_value m2 <? 60)
  | _ => false
  end.

(** the lower-case abbreviations of the days of the week *)
Definition days : list string :=
  ["sun"; "mon"; "tue"; "wed"; "thu"; "fri"; "sat"].

Definition is_day (s : string) : bool := existsb (String.eqb s) days.

(** a time of the week "ddd:hh:mm" *)
Definition is_day_time (s : string) : Prop :=
  exists d t, s = d +++ ":" +++ t /\ is_day d = true /\ is_clock t = true.

(** a window "from-to" between two times that satisfy [P], or nothing *)
Definition is_window (P : string -> Prop) (s : string) : Prop :=
  s = EmptyString \/ exists a b, s = a +++ "-" +++ b /\ P a /\ P b.

End Notions.

(** ** Notions for region names and the fields of an ARN *)

Module Names.
Import GoStrings Regexp Verify Notions.

(** a non-empty word of lower-case letters *)
Definition lower_word (w : string) : bool :=
  negb (String.eqb w EmptyString) && all_bytes is_lower w.

(** words, each after a dash: "-w1-w2..." *)
Fixpoint dashed (ws : list string) : string :=
  match ws with
  | [] => EmptyString
  | w :: ws' => "-" +++ w +++ dashed ws'
  end.

(** a region name: two lower-case letters, one or more dashed lower-case
    words, a dash and a digit, as in "us-east-1" and "us-gov-west-1" *)
Definition is_region (s : string) : Prop :=
  exists p ws d,
    s = p +++ dashed ws +++ "-" +++ String d EmptyString
    /\ String.length p = 2%nat /\ all_bytes is_lower p = true
    /\ ws <> [] /\ forallb lower_word ws = true
    /\ is_digit d = true.

(** a partition: "aws" and dashed lower-case words, as in "aws" and
    "aws-us-gov" *)
Definition is_partition (s : string) : Prop :=
  exists ws, s = "aws" +++ dashed ws /\ forallb lower_word ws = true.

(** an account field: twelve digits or one of the words AWS uses *)
Definition is_account (s : string) : bool :=
  String.eqb s "aws" || String.eqb s "aws-managed"
  || String.eqb s "third-party"
  || ((String.length s =? 12)%nat && all_bytes is_digit s).

(** a validator returned, without warning and with one error at most *)
Definition at_most_one_error (o : outcome) : Prop :=
  exists errors, o = Return [] errors /\ (List.length errors <= 1)%nat.

End Names.

(** ** Notions for CIDR blocks of either family *)

Module Blocks.
Import GoStrings Verify Notions.

(** sixteen bytes *)
Definition is_IPv6 (ip : list Z) : bool :=
  (List.length ip =? 16)%nat && forallb is_byte ip.

(** The host bits of the address [ip] in the network [ipnet]: byte by byte,
    the bits of the address that the mask leaves out (a mask of four bytes
    lies over the last four bytes of the address). *)
Definition host_bits (ip : IP) (ipnet : IPNet) : list Z :=
  let m := IPNet_Mask ipnet in
  map (fun p => Z.land (fst p) (Z.lxor (snd p) 255))
      (combine (skipn (List.length ip - List.length m) ip) m).

(** some host bit of the address is set *)
Definition host_bits_set (ip : IP) (ipnet : IPNet) : bool :=
  negb (Net.isZeros (host_bits ip ipnet)).

(** a hex digit, of either case *)
Definition is_hex (c : ascii) : bool :=
  match Net.hexval c with Some _ => true | None => false end.

(** a 16-bit field *)
Definition is_field (x : Z) : bool := (0 <=? x) && (x <=? 65535).

(** the two bytes of a 16-bit field, as [parseIPv6] stores them *)
Definition field_bytes (x : Z) : list Z := [Z.shiftr x 8; Z.land x 255].

(** a text that does not go on with a hex digit *)
Definition field_end (rest : string) : Prop :=
  match rest with
  | EmptyString => True
  | String c _ => Net.hexval c = None
  end.

(** a byte of the text of an IPv6 address: a hex digit or a colon *)
Definition is_hex_or_colon (c : ascii) : bool := is_hex c || Ascii.eqb c ":".

(** What [parseIPv6] makes of the result of its loop, for a text without
    zone: trailing text is an error, the ellipsis is expanded where fewer
    than 16 bytes were stored, and must not be there otherwise. *)
Definition expand (r : option (list Z * string * option nat))
    : option Net.Addr :=
  match r with
  | None => None
  | Some (ip, s, ellipsis) =>
      let i := List.length ip in
      if negb (String.eqb s EmptyString) then None
      else if (i <? 16)%nat then
        match ellipsis with
        | None => None
        | Some e =>
            Some (Net.Addr6 (firstn e ip ++ repeat 0 (16 - i) ++ skipn e ip)
                    EmptyString)
        end
      else
        match ellipsis with
        | Some _ => None
        | None => Some (Net.Addr6 ip EmptyString)
        end
  end.

(** What the search of [appendTo6] may hold: no run (255, 255), or a run
    of two or more zero fields. *)
Definition span_ok (ip : list Z) (zeroStart zeroEnd : nat) : Prop :=
  (zeroStart = 255 /\ zeroEnd = 255)%nat
  \/ ((zeroStart + 2 <= zeroEnd <= 8)%nat
      /\ forall k, (zeroStart <= k < zeroEnd)%nat -> Net.v6u16 ip k = 0).

(** the bytes of an address under a mask of the same length: what
    [ip.Mask(mask)] keeps *)
Definition masked (ip mask : list Z) : list Z :=
  map (fun p => Z.land (fst p) (snd p)) (combine ip mask).

End Blocks.

(** * Properties *)

Import GoStrings Verify Spec Samples.

(** ** Proof steps used throughout *)

(** split on the test of the first conditional of the goal *)
Ltac case_if :=
  match goal with
  | |- context [if ?c then _ else _] => destruct c eqn:?
  end.

(** split on the scrutinee of the first [match] of the goal *)
Ltac case_match :=
  match goal with
  | |- context [match ?x with _ => _ end] => destruct x eqn:?
  end.

Create HintDb validators.

(** ** Lemmas on the loops *)

Lemma ValidARNCheck_range_spec (f : list ARNCheckFunc) (v : value)
    (k : string) (a : Arn.ARN) (ws : list string) (errors : list error) :
  ValidARNCheck_range f v k a ws errors
  = (ws ++ secondary_warnings f v k a, errors ++ secondary_errors f v k a).
Proof.
  revert ws errors.
  induction f as [|g f IH]; intros ws errors; simpl.
  - now rewrite !app_nil_r.
  - destruct (g v k a) as [w e] eqn:Hg; simpl.
    rewrite IH. now rewrite <- !app_assoc.
Qed.

Lemma ValidAllDiag_range_spec (validators : list SchemaValidateDiagFunc)
    (i : value) (path : Path) (results : Diagnostics) :
  ValidAllDiag_range validators i path results
  = results ++ all_diagnostics validators i path.
Proof.
  revert results.
  induction validators as [|v vs IH]; intros results; simpl.
  - now rewrite app_nil_r.
  - rewrite IH. now rewrite <- app_assoc.
Qed.

Lemma ValidAnyDiag_range_spec (validators : list SchemaValidateDiagFunc)
    (i : value) (path : Path) (results : Diagnostics) :
  ValidAnyDiag_range validators i path results
  = if existsb (succeeds i path) validators then []
    else results ++ all_diagnostics validators i path.
Proof.
  revert results.
  induction validators as [|v vs IH]; intros results; simpl.
  - now rewrite app_nil_r.
  - unfold succeeds at 1.
    destruct (v i path) as [|d ds] eqn:Hv; simpl; [reflexivity|].
    rewrite IH.
    destruct (existsb (succeeds i path) vs); [reflexivity|].
    now rewrite <- app_assoc.
Qed.

(** ** The composition helpers *)

(** C7: the validator made by [ValidAnyDiag] runs its validators in order;
    as soon as one of them gives no diagnostic the result is the empty list,
    whatever the validators before it gave (and whatever comes after it);
    when every validator gives some diagnostic the result is the
    diagnostics of all of them, in order. *)
Theorem ValidAnyDiag_first_success_or_all
    (validators : list SchemaValidateDiagFunc) (i : value) (path : Path) :
  (forall earlier v later,
      validators = earlier ++ v :: later ->
      v i path = [] ->
      ValidAnyDiag validators i path = [])
  /\ ((forall v, In v validators -> v i path <> []) ->
      ValidAnyDiag validators i path = all_diagnostics validators i path).
Proof.
  unfold ValidAnyDiag. rewrite ValidAnyDiag_range_spec. split.
  - intros earlier v later -> Hv.
    rewrite existsb_app. simpl. unfold succeeds at 2. rewrite Hv.
    now rewrite orb_true_r.
  - intros Hall.
    destruct (existsb (succeeds i path) validators) eqn:Hex; [|reflexivity].
    apply existsb_exists in Hex. destruct Hex as [v [Hin Hs]].
    unfold succeeds in Hs. specialize (Hall v Hin).
    destruct (v i path); [now elim Hall | discriminate].
Qed.

(** C8: the validator made by [ValidAllDiag] gives the diagnostics of all
    its validators on the same input, in order, none left out after a
    failure; with two validators of which one gives exactly one diagnostic
    and the other none, it gives exactly that one diagnostic. *)
Theorem ValidAllDiag_concatenates
    (validators : list SchemaValidateDiagFunc) (i : value) (path : Path) :
  ValidAllDiag validators i path = all_diagnostics validators i path
  /\ (forall v1 v2 d,
         v1 i path = [d] -> v2 i path = [] ->
         ValidAllDiag [v1; v2] i path = [d]
         /\ ValidAllDiag [v2; v1] i path = [d]).
Proof.
  split.
  - unfold ValidAllDiag. now rewrite ValidAllDiag_range_spec.
  - intros v1 v2 d H1 H2. unfold ValidAllDiag. simpl.
    now rewrite H1, H2.
Qed.

Lemma ValidAnyDiag_first_success_or_all_witness :
  ValidAnyDiag [requireFloat; requireString; requireBool] (VString "x") ["attr"]
  = []
  /\ ValidAnyDiag [requireFloat; requireBool] (VString "x") ["attr"]
     = [notA "float"; notA "bool"].
Proof.
  split.
  - apply (proj1 (ValidAnyDiag_first_success_or_all
                    [requireFloat; requireString; requireBool]
                    (VString "x") ["attr"])
             [requireFloat] requireString [requireBool]); reflexivity.
  - apply (proj2 (ValidAnyDiag_first_success_or_all
                    [requireFloat; requireBool] (VString "x") ["attr"])).
    intros v [<-|[<-|[]]]; discriminate.
Defined.

Lemma ValidAllDiag_concatenates_witness :
  ValidAllDiag [requireFloat; requireString] (VString "x") ["attr"]
  = [notA "float"]
  /\ ValidAllDiag [requireString; requireFloat] (VString "x") ["attr"]
     = [notA "float"].
Proof.
  apply (proj2 (ValidAllDiag_concatenates [] (VString "x") ["attr"])
           requireFloat requireString (notA "float")); reflexivity.
Defined.

(** ** The ARN validator *)

(** C9: the validator made by [ValidARNCheck] gives no warning and no error
    on the empty string; on a non-empty string that [arn.Parse] rejects it
    returns at once with exactly one error, the same whatever secondary
    checks were supplied: neither the subfield checks nor the secondary
    checks add anything. *)
Theorem ValidARNCheck_empty_or_unparseable
    (f : list ARNCheckFunc) (value k : string) (a : Arn.ARN) (err : error) :
  value <> EmptyString ->
  Arn.Parse value = (a, Some err) ->
  ValidARNCheck f (VString EmptyString) k = Return [] []
  /\ ValidARNCheck f (VString value) k
     = Return [] [Errorf "%q (%s) is an invalid ARN: %s"
                    [OString k; OString value; OError err]].
Proof.
  intros Hne Hparse. split; [reflexivity|].
  unfold ValidARNCheck.
  destruct (String.eqb value EmptyString) eqn:He.
  - apply String.eqb_eq in He. contradiction.
  - now rewrite Hparse.
Qed.

Lemma ValidARNCheck_empty_or_unparseable_witness :
  ValidARNCheck [s3Only] (VString EmptyString) "role_arn" = Return [] []
  /\ ValidARNCheck [s3Only] (VString "not-an-arn") "role_arn"
     = Return [] [Errorf "%q (%s) is an invalid ARN: %s"
                    [OString "role_arn"; OString "not-an-arn";
                     OError (errors_New "arn: invalid prefix")]].
Proof.
  apply (ValidARNCheck_empty_or_unparseable [s3Only] "not-an-arn" "role_arn"
           Arn.zeroARN (errors_New "arn: invalid prefix")).
  - discriminate.
  - reflexivity.
Defined.

(** C2: on a non-empty string that parses as an ARN, the validator made by
    [ValidARNCheck] runs the four subfield checks one after the other, none
    depending on the outcome of another, each adding its one error when it
    fails (so the errors before the secondary checks are as many as the
    failing checks, two for a malformed region together with a malformed
    account ID); then every secondary check runs, whatever failed before,
    and its warnings and errors are appended. *)
Theorem ValidARNCheck_accumulates
    (f : list ARNCheckFunc) (value k : string) (a : Arn.ARN) :
  value <> EmptyString ->
  Arn.Parse value = (a, None) ->
  ValidARNCheck f (VString value) k
  = Return (secondary_warnings f (VString value) k a)
           (subfield_errors k value a
            ++ secondary_errors f (VString value) k a)
  /\ List.length (subfield_errors k value a) = failures a.
Proof.
  intros Hne Hparse. split.
  - unfold ValidARNCheck.
    destruct (String.eqb value EmptyString) eqn:He.
    { apply String.eqb_eq in He. contradiction. }
    rewrite Hparse. rewrite ValidARNCheck_range_spec. simpl.
    f_equal.
    unfold subfield_errors, failing, partition_ok, region_ok, accountID_ok,
      resource_ok, partition_error, region_error, accountID_error,
      resource_error.
    destruct (String.eqb (Arn.Partition a) EmptyString);
      destruct (Regexp.MatchString partitionRegexp (Arn.Partition a));
      destruct (String.eqb (Arn.Region a) EmptyString);
      destruct (Regexp.MatchString regionRegexp (Arn.Region a));
      destruct (String.eqb (Arn.AccountID a) EmptyString);
      destruct (Regexp.MatchString accountIDRegexp (Arn.AccountID a));
      destruct (String.eqb (Arn.Resource a) EmptyString);
      reflexivity.
  - unfold subfield_errors, failures, failing.
    destruct (partition_ok a), (region_ok a), (accountID_ok a),
      (resource_ok a); reflexivity.
Qed.

Lemma ValidARNCheck_accumulates_witness :
  ValidARNCheck [s3Only] (VString "arn:aws:iam:us_east:12:role/r") "role_arn"
  = Return ["region in role_arn"]
      [region_error "role_arn" "arn:aws:iam:us_east:12:role/r";
       accountID_error "role_arn" "arn:aws:iam:us_east:12:role/r";
       Errorf "%q is not an S3 ARN" [OString "role_arn"]]
  /\ List.length
       (subfield_errors "role_arn" "arn:aws:iam:us_east:12:role/r"
          (Arn.mkARN "aws" "iam" "us_east" "12" "role/r")) = 2%nat.
Proof.
  apply (ValidARNCheck_accumulates [s3Only]
           "arn:aws:iam:us_east:12:role/r" "role_arn"
           (Arn.mkARN "aws" "iam" "us_east" "12" "role/r")).
  - discriminate.
  - reflexivity.
Defined.

(** ** The type of the value *)

(** C1, as the code has it: the validators that test their type assertion
    ([ValidARNCheck], [ValidTypeStringNullableFloat] and
    [FloatGreaterThan]) return no warning and exactly one error, naming the
    expected type, on a value of another type; the other validators of the
    legacy convention assert [v.(string)] without a test, and panic on a
    value that is not a string. *)
Theorem type_mismatch_checked_or_panics
    (f : list ARNCheckFunc) (threshold : float64) (v vf : value) (k : string) :
  is_string v = false ->
  is_float64 vf = false ->
  (ValidARNCheck f v k = Return [] [expected_type k "string"]
   /\ (forall E : Externals,
          ValidTypeStringNullableFloat v k = Return [] [expected_type k "string"])
   /\ FloatGreaterThan threshold vf k = Return [] [expected_type k "float"])
  /\ (let panics := Panic (TypeAssertionError v "string") in
      Valid4ByteASN v k = panics
      /\ ValidAccountID v k = panics
      /\ (forall E : Externals, ValidIAMPolicyJSON v k = panics)
      /\ ValidKMSKeyID v k = panics
      /\ ValidLaunchTemplateID v k = panics
      /\ ValidLaunchTemplateName v k = panics
      /\ ValidMulticastIPAddress v k = panics
      /\ ValidOnceADayWindowFormat v k = panics
      /\ (forall E : Externals, ValidOnceAWeekWindowFormat v k = panics)
      /\ ValidRegionName v k = panics
      /\ (forall E : Externals, ValidUTCTimestamp v k = panics)
      /\ ValidDuration v k = panics
      /\ ValidCIDRNetworkAddress v k = panics
      /\ ValidIPv4CIDRNetworkAddress v k = panics
      /\ ValidIPv6CIDRNetworkAddress v k = panics).
Proof.
  intros Hv Hvf. split.
  - repeat split.
    + destruct v; [discriminate | reflexivity ..].
    + intros E. destruct v; [discriminate | reflexivity ..].
    + destruct vf; try reflexivity. discriminate.
  - destruct v; [discriminate | ..]; cbv zeta;
      repeat split; intros; reflexivity.
Qed.

Lemma type_mismatch_checked_or_panics_witness :
  ValidARNCheck [] (VInt 64512) "asn"
  = Return [] [Errorf "expected type of %s to be string" [OString "asn"]]
  /\ FloatGreaterThan (Float64.of_Z 0) (VString "1.5") "ratio"
     = Return [] [Errorf "expected type of %s to be float" [OString "ratio"]]
  /\ Valid4ByteASN (VInt 64512) "asn"
     = Panic (TypeAssertionError (VInt 64512) "string").
Proof.
  pose proof (type_mismatch_checked_or_panics [] (Float64.of_Z 0)
                (VInt 64512) (VString "1.5") "asn" eq_refl eq_refl) as H.
  split; [exact (proj1 (proj1 H)) | split].
  - exact (proj2 (proj2 (proj1 (type_mismatch_checked_or_panics
             [] (Float64.of_Z 0) (VInt 64512) (VString "1.5") "ratio"
             eq_refl eq_refl)))).
  - exact (proj1 (proj2 H)).
Defined.

(** C1, as it is stated, fails: [Valid4ByteASN] on the integer 64512 does
    not return one error, it panics. *)
Lemma type_mismatch_single_error_counterexample :
  Valid4ByteASN (VInt 64512) "asn"
  = Panic (TypeAssertionError (VInt 64512) "string")
  /\ ~ (exists ws e, Valid4ByteASN (VInt 64512) "asn" = Return ws [e]).
Proof.
  split; [reflexivity|].
  intros [ws [e H]]. discriminate H.
Qed.

(** ** Warnings *)

Lemma returns_no_warnings_Return (errors : list error) :
  returns_no_warnings (Return [] errors).
Proof. now exists errors. Qed.

#[local] Hint Resolve returns_no_warnings_Return : validators.



(** ** Durations *)

(** C3: [ValidDuration] fails on a negative duration ("-5s"), fails on a
    text that is no duration ("abc") and succeeds on a non-negative one
    ("5s"); the test of the parse error and the test of the sign are two
    statements in a row, neither returning early: whatever
    [time.ParseDuration] gives, a parse error adds its error and then a
    negative duration adds a second, different one. *)
Theorem ValidDuration_two_independent_checks (k : string) :
  ValidDuration (VString "-5s") k = Return [] [negative_error k]
  /\ ValidDuration (VString "abc") k
     = Return [] [parse_error k (Time.invalid_duration "abc")]
  /\ ValidDuration (VString "5s") k = Return [] []
  /\ (forall value,
         ValidDuration (VString value) k
         = Return [] (ValidDuration_checks k
                        (fst (Time.ParseDuration value))
                        (snd (Time.ParseDuration value))))
  /\ (forall duration err,
         ValidDuration_checks k duration err
         = match err with Some e => [parse_error k e] | None => [] end
           ++ (if duration <? 0 then [negative_error k] else []))
  /\ (forall n e,
         ValidDuration_checks k (Z.neg n) (Some e)
         = [parse_error k e; negative_error k]).
Proof.
  repeat split.
  - intros value. unfold ValidDuration; simpl.
    now destruct (Time.ParseDuration value).
  - intros duration [e|]; unfold ValidDuration_checks; simpl;
      destruct (duration <? 0); reflexivity.
Qed.

(** *** [time.ParseDuration] gives the zero duration with every error *)

Lemma drop_length (i : nat) (s : string) :
  String.length (drop i s) = (String.length s - i)%nat.
Proof.
  revert s. induction i as [|i IH]; intros [|c s]; simpl; auto.
Qed.

Lemma leadingInt_loop_length (s : string) (x v : Z) (rest : string)
    (err : option error) :
  Time.leadingInt_loop s x = (v, rest, err) ->
  (String.length rest <= String.length s)%nat.
Proof.
  revert x. induction s as [|c s IH]; intros x; simpl.
  - intros H. inversion H. simpl. lia.
  - repeat case_if; intros H;
      try (apply IH in H; lia); inversion H; simpl; lia.
Qed.

Lemma leadingFraction_loop_length (s : string) (x : Z) (scale : float64)
    (overflow : bool) (f : Z) (scale' : float64) (rest : string) :
  Time.leadingFraction_loop s x scale overflow = (f, scale', rest) ->
  (String.length rest <= String.length s)%nat.
Proof.
  revert x scale overflow.
  induction s as [|c s IH]; intros x scale overflow; simpl.
  - intros H. inversion H. simpl. lia.
  - repeat case_if; intros H;
      try (apply IH in H; lia); inversion H; simpl; lia.
Qed.

Lemma unit_end_length (s : string) :
  (Time.unit_end s <= String.length s)%nat.
Proof.
  induction s as [|c s IH]; simpl; [lia|].
  case_if; lia.
Qed.

Lemma ParseDuration_body_returns_zero (orig s : string) (d : Z)
    (r : Time.Duration * option error) :
  Time.ParseDuration_body orig s d = inl r -> fst r = 0 /\ snd r <> None.
Proof.
  unfold Time.ParseDuration_body.
  repeat case_match; intros H; inversion H; subst; simpl;
    split; congruence.
Qed.

Lemma ParseDuration_body_consumes (orig s s' : string) (d d' : Z) :
  s <> EmptyString ->
  Time.ParseDuration_body orig s d = inr (s', d') ->
  (String.length s' < String.length s)%nat.
Proof.
  unfold Time.ParseDuration_body. intros Hs.
  destruct s as [|c0 s0]; [congruence|].
  destruct (negb (Ascii.eqb c0 "." || is_digit c0)); [discriminate|].
  destruct (Time.leadingInt (String c0 s0)) as [[v s1] err] eqn:Hint.
  apply leadingInt_loop_length in Hint.
  destruct err; [discriminate|].
  assert (Hfrac : forall f scale s2 post,
             match s1 with
             | String c s0' =>
                 if Ascii.eqb c "." then
                   let s := s0' in
                   let pl := String.length s in
                   let '(f, scale, s) := Time.leadingFraction s in
                   (f, scale, s, negb (pl =? String.length s)%nat)
                 else (0, Float64.of_Z 1, s1, false)
             | EmptyString => (0, Float64.of_Z 1, s1, false)
             end = (f, scale, s2, post) ->
             (String.length s2 <= String.length s1)%nat).
  { intros f scale s2 post. destruct s1 as [|c s1'].
    - intros H; inversion H; simpl; lia.
    - destruct (Ascii.eqb c ".").
      + cbv zeta.
        destruct (Time.leadingFraction s1') as [[f' scale'] s2'] eqn:Hf.
        apply leadingFraction_loop_length in Hf.
        intros H; inversion H; subst; simpl; lia.
      + intros H; inversion H; simpl; lia. }
  destruct (match s1 with
            | EmptyString => _
            | String _ _ => _
            end) as [[[f scale] s2] post] eqn:Hs2.
  specialize (Hfrac f scale s2 post eq_refl).
  destruct (negb _ && negb post); [discriminate|].
  destruct (Time.unit_end s2 =? 0)%nat eqn:Hi; [discriminate|].
  apply Nat.eqb_neq in Hi.
  pose proof (unit_end_length s2) as Hle.
  pose proof (drop_length (Time.unit_end s2) s2) as Hdrop.
  destruct (Time.unitMap _); [|discriminate].
  repeat case_if; intros H; inversion H; subst;
    rewrite Hdrop; lia.
Qed.

Lemma ParseDuration_loop_returns_zero (fuel : nat) (orig s : string) (d : Z)
    (r : Time.Duration * option error) :
  Time.ParseDuration_loop fuel orig s d = Some (inl r) ->
  fst r = 0 /\ snd r <> None.
Proof.
  revert s d. induction fuel as [|fuel IH]; intros s d; simpl.
  - destruct s; discriminate.
  - destruct s as [|c s]; [discriminate|].
    destruct (Time.ParseDuration_body orig (String c s) d) as [r'|[s' d']] eqn:Hb.
    + intros H. inversion H; subst.
      now apply ParseDuration_body_returns_zero in Hb.
    + apply IH.
Qed.

(** [len(s)] rounds are enough for the loop of [ParseDuration]. *)
Lemma ParseDuration_loop_total (fuel : nat) (orig s : string) (d : Z) :
  (String.length s <= fuel)%nat ->
  Time.ParseDuration_loop fuel orig s d <> None.
Proof.
  revert s d. induction fuel as [|fuel IH]; intros s d Hlen; simpl.
  - destruct s; [discriminate | simpl in Hlen; lia].
  - destruct s as [|c s]; [discriminate|].
    destruct (Time.ParseDuration_body orig (String c s) d) as [r'|[s' d']] eqn:Hb;
      [discriminate|].
    apply IH.
    apply ParseDuration_body_consumes in Hb; [|discriminate].
    simpl in Hb, Hlen. lia.
Qed.

Lemma ParseDuration_error_zero (s : string) :
  match Time.ParseDuration s with
  | (duration, Some _) => duration = 0
  | (_, None) => True
  end.
Proof.
  unfold Time.ParseDuration.
  destruct (match s with
            | EmptyString => _
            | String _ _ => _
            end) as [neg s1].
  destruct (String.eqb s1 "0"); [exact I|].
  destruct (String.eqb s1 EmptyString); [reflexivity|].
  destruct (Time.ParseDuration_loop (String.length s1) s s1 0)
    as [[[duration err]|d]|] eqn:Hloop.
  - apply ParseDuration_loop_returns_zero in Hloop. simpl in Hloop.
    destruct err; [tauto | exact I].
  - destruct neg; [exact I|].
    destruct (d >? 2 ^ 63 - 1); [reflexivity | exact I].
  - reflexivity.
Qed.

(** C4: on every string [ValidDuration] returns at most one error: when
    [time.ParseDuration] fails the duration it gives is zero, which is not
    negative, so the error of the parse and the error of the sign are never
    appended together. *)
Theorem ValidDuration_at_most_one_error (value k : string) :
  (exists errors,
      ValidDuration (VString value) k = Return [] errors
      /\ (List.length errors <= 1)%nat)
  /\ match Time.ParseDuration value with
     | (duration, Some err) =>
         duration = 0
         /\ ValidDuration (VString value) k = Return [] [parse_error k err]
     | (duration, None) =>
         ValidDuration (VString value) k
         = Return [] (if duration <? 0 then [negative_error k] else [])
     end.
Proof.
  pose proof (ParseDuration_error_zero value) as Hz.
  unfold ValidDuration; simpl.
  destruct (Time.ParseDuration value) as [duration [err|]].
  - subst duration. split; [|split; reflexivity].
    eexists; split; [reflexivity | simpl; lia].
  - split; [|reflexivity].
    eexists; split; [reflexivity|].
    unfold ValidDuration_checks.
    destruct (duration <? 0); simpl; lia.
Qed.

(** ** CIDR blocks *)

Lemma CIDRBlocksEqual_refl (cidr : string) (ip : IP) (ipnet : IPNet) :
  Net.ParseCIDR cidr = inl (ip, ipnet) ->
  CIDRBlocksEqual cidr cidr = true.
Proof.
  intros H. unfold CIDRBlocksEqual. rewrite H.
  now rewrite !String.eqb_refl.
Qed.

(** *** The address family *)

Lemma parseIPv4Fields_loop_length (s : string) (prev : option ascii)
    (val digLen : Z) (fields f : list Z) :
  (List.length fields <= 3)%nat ->
  Net.parseIPv4Fields_loop s prev val digLen fields = Some f ->
  List.length f = 4%nat.
Proof.
  revert prev val digLen fields.
  induction s as [|c s IH]; intros prev val digLen fields Hlen; simpl.
  - destruct (List.length fields <? 3)%nat eqn:Hlt; [discriminate|].
    apply Nat.ltb_ge in Hlt.
    intros H. inversion H. rewrite length_app. simpl. lia.
  - destruct (is_digit c).
    + repeat case_if; try discriminate. now apply IH.
    + destruct (Ascii.eqb c "."); [|discriminate].
      destruct prev as [p|]; [|discriminate].
      destruct s as [|c' s']; [discriminate|].
      destruct (Ascii.eqb p "."); [discriminate|].
      destruct (List.length fields =? 3)%nat eqn:H3; [discriminate|].
      apply Nat.eqb_neq in H3.
      apply IH. rewrite length_app. simpl. lia.
Qed.

Lemma parseIPv6_not_Addr4 (s : string) (f : list Z) :
  Net.parseIPv6 s <> Some (Net.Addr4 f).
Proof.
  unfold Net.parseIPv6.
  repeat case_match; discriminate.
Qed.

Lemma ParseAddr_scan_Addr4 (s rest : string) (f : list Z) :
  Net.ParseAddr_scan s rest = Some (Net.Addr4 f) ->
  List.length f = 4%nat.
Proof.
  induction rest as [|c rest IH]; simpl; [discriminate|].
  destruct (Ascii.eqb c ".").
  { unfold Net.parseIPv4, Net.parseIPv4Fields.
    destruct (Net.parseIPv4Fields_loop s None 0 0 []) as [f'|] eqn:Hf;
      [|discriminate].
    intros H. inversion H; subst.
    apply parseIPv4Fields_loop_length in Hf; [assumption | simpl; lia]. }
  destruct (Ascii.eqb c ":").
  { intros H. now apply parseIPv6_not_Addr4 in H. }
  destruct (Ascii.eqb c "%"); [discriminate | assumption].
Qed.

(** The address of an IPv4 text reduces to its four bytes. *)
Lemma To4_As16_Addr4 (f : list Z) :
  List.length f = 4%nat ->
  Net.To4 (Net.As16 (Net.Addr4 f)) = f /\ f <> [].
Proof.
  destruct f as [|a [|b [|c [|d [|e f]]]]]; try discriminate.
  intros _. split; [reflexivity | discriminate].
Qed.




(** * Further properties of the validators *)

Import Notions.

(** ** The pattern matcher *)

Import Regexp.

Lemma accepts_Void (s : string) : accepts Void s = false.
Proof. induction s as [|c s IH]; simpl; auto. Qed.

Lemma accepts_alt_Alt (s : string) :
  forall a b,
    accepts (Alt a b) s = accepts a s || accepts b s
    /\ accepts (alt a b) s = accepts a s || accepts b s.
Proof.
  induction s as [|c s IH]; intros a b.
  - assert (H : accepts (Alt a b) EmptyString
                = accepts a EmptyString || accepts b EmptyString) by reflexivity.
    split; [exact H|].
    destruct a; destruct b; simpl; try reflexivity;
      rewrite ?orb_false_r; reflexivity.
  - assert (H : accepts (Alt a b) (String c s)
                = accepts a (String c s) || accepts b (String c s)).
    { simpl. apply IH. }
    split; [exact H|].
    destruct a; destruct b; try exact H;
      change (accepts Void (String c s)) with (accepts Void s);
      rewrite ?accepts_Void, ?orb_false_r; reflexivity.
Qed.

Lemma accepts_Alt (a b : re) (s : string) :
  accepts (Alt a b) s = accepts a s || accepts b s.
Proof. apply accepts_alt_Alt. Qed.

Lemma accepts_alt (a b : re) (s : string) :
  accepts (alt a b) s = accepts a s || accepts b s.
Proof. apply accepts_alt_Alt. Qed.

Lemma cat_Void_r (a : re) : cat a Void = Void.
Proof. now destruct a. Qed.

Lemma accepts_Cat_Void_l (b : re) (s : string) : accepts (Cat Void b) s = false.
Proof. destruct s; simpl; [reflexivity | apply accepts_Void]. Qed.

Lemma accepts_Cat_Void_r (a : re) (s : string) : accepts (Cat a Void) s = false.
Proof.
  destruct s as [|c s]; simpl.
  - apply andb_false_r.
  - destruct (nullable a); rewrite cat_Void_r; apply accepts_Void.
Qed.

Lemma accepts_Cat_Eps_l (b : re) (s : string) :
  accepts (Cat Eps b) s = accepts b s.
Proof.
  destruct s as [|c s]; reflexivity.
Qed.

Lemma accepts_cat (a b : re) (s : string) :
  accepts (cat a b) s = accepts (Cat a b) s.
Proof.
  destruct a; destruct b; simpl cat;
    rewrite ?accepts_Cat_Void_l, ?accepts_Cat_Void_r, ?accepts_Cat_Eps_l,
      ?accepts_Void; reflexivity.
Qed.

(** A concatenation accepts the texts that split into a text of each part. *)
Lemma accepts_Cat (s : string) :
  forall a b,
    accepts (Cat a b) s = true
    <-> exists s1 s2,
        s = s1 +++ s2 /\ accepts a s1 = true /\ accepts b s2 = true.
Proof.
  induction s as [|c s IH]; intros a b.
  - simpl. rewrite andb_true_iff. split.
    + intros [Ha Hb]. now exists EmptyString, EmptyString.
    + intros [s1 [s2 [Hs [Ha Hb]]]].
      destruct s1; [|discriminate]. destruct s2; [|discriminate]. auto.
  - assert (Hstep : accepts (Cat a b) (String c s)
                    = accepts (Cat (deriv c a) b) s
                      || (nullable a && accepts b (String c s))).
    { simpl. destruct (nullable a).
      - now rewrite accepts_alt, accepts_cat.
      - now rewrite accepts_cat, orb_false_r. }
    rewrite Hstep, orb_true_iff, andb_true_iff, IH. split.
    + intros [[s1 [s2 [Hs [Ha Hb]]]] | [Hn Hb]].
      * exists (String c s1), s2. subst s. auto.
      * exists EmptyString, (String c s). auto.
    + intros [s1 [s2 [Hs [Ha Hb]]]].
      destruct s1 as [|c1 s1]; simpl in Hs.
      * right. subst s2. auto.
      * left. inversion Hs; subst. now exists s1, s2.
Qed.

(** A repetition accepts the empty text and a non-empty text of the body
    followed by a text of the repetition. *)
Lemma accepts_Star_cons (a : re) (c : ascii) (s : string) :
  accepts (Star a) (String c s) = true
  <-> exists s1 s2,
      s = s1 +++ s2 /\ accepts a (String c s1) = true
      /\ accepts (Star a) s2 = true.
Proof.
  change (accepts (Star a) (String c s))
    with (accepts (cat (deriv c a) (Star a)) s).
  rewrite accepts_cat, accepts_Cat. reflexivity.
Qed.

Lemma class_Range (lo hi : ascii) : class_of (Range lo hi) (byte_in lo hi).
Proof.
  intros s. destruct s as [|c s]; simpl.
  - split; [discriminate | intros [c [H _]]; discriminate].
  - destruct (byte_in lo hi c) eqn:Hc.
    + destruct s; simpl.
      * split; [now exists c | reflexivity].
      * rewrite accepts_Void. split; [discriminate|].
        intros [c' [H _]]; discriminate.
    + rewrite accepts_Void. split; [discriminate|].
      intros [c' [H Hp]]. inversion H; subst. congruence.
Qed.

Lemma class_Alt (a b : re) (p q : ascii -> bool) :
  class_of a p -> class_of b q -> class_of (Alt a b) (fun c => p c || q c).
Proof.
  intros Ha Hb s. rewrite accepts_Alt, orb_true_iff, (Ha s), (Hb s).
  split.
  - intros [[c [Hs Hc]] | [c [Hs Hc]]]; exists c; rewrite Hc;
      auto using orb_true_r.
  - intros [c [Hs Hc]]. apply orb_true_iff in Hc.
    destruct Hc; [left | right]; now exists c.
Qed.

Lemma accepts_Star_class (r : re) (p : ascii -> bool) (s : string) :
  class_of r p ->
  accepts (Star r) s = all_bytes p s.
Proof.
  intros Hr. unfold all_bytes. induction s as [|c s IH]; [reflexivity|].
  simpl forallb. apply eq_true_iff_eq.
  rewrite accepts_Star_cons, andb_true_iff. split.
  - intros [s1 [s2 [Hs [H1 H2]]]].
    apply Hr in H1. destruct H1 as [c' [Hc' Hp]].
    inversion Hc'; subst. simpl in *. rewrite <- IH. auto.
  - intros [Hp Hs]. exists EmptyString, s. repeat split.
    + apply Hr. now exists c.
    + now rewrite IH.
Qed.

Lemma accepts_Plus_class (r : re) (p : ascii -> bool) (s : string) :
  class_of r p ->
  accepts (Plus r) s
  = negb (String.eqb s EmptyString) && all_bytes p s.
Proof.
  intros Hr. apply eq_true_iff_eq. unfold Plus.
  rewrite accepts_Cat, andb_true_iff. split.
  - intros [s1 [s2 [Hs [H1 H2]]]].
    apply Hr in H1. destruct H1 as [c [Hc Hp]]. subst.
    rewrite (accepts_Star_class r p s2 Hr) in H2.
    unfold all_bytes in *. simpl. now rewrite Hp, H2.
  - intros [Hne Hall]. destruct s as [|c s]; [discriminate|].
    unfold all_bytes in Hall.
    simpl in Hall. apply andb_true_iff in Hall. destruct Hall as [Hp Hall].
    exists (String c EmptyString), s. repeat split.
    + apply Hr. now exists c.
    + now rewrite (accepts_Star_class r p s Hr).
Qed.

Lemma byte_in_same (c x : ascii) : byte_in c c x = Ascii.eqb x c.
Proof.
  unfold byte_in, code. apply eq_true_iff_eq.
  rewrite andb_true_iff, !Z.leb_le, Ascii.eqb_eq. split.
  - intros [H1 H2].
    assert (H : N_of_ascii x = N_of_ascii c) by lia.
    rewrite <- (ascii_N_embedding x), <- (ascii_N_embedding c).
    now rewrite H.
  - intros ->. lia.
Qed.

Lemma class_Lit (c : ascii) : class_of (Lit c) (fun x => Ascii.eqb x c).
Proof.
  intros s. unfold Lit. rewrite (class_Range c c s).
  split; intros [x [Hs Hx]]; exists x; split; auto;
    [rewrite <- byte_in_same | rewrite byte_in_same]; assumption.
Qed.

Lemma class_ext (r : re) (p q : ascii -> bool) :
  (forall c, p c = q c) -> class_of r p -> class_of r q.
Proof.
  intros Hpq Hr s. rewrite (Hr s).
  split; intros [c [Hs Hc]]; exists c; split; auto; congruence.
Qed.

Lemma accepts_Eps (s : string) : accepts Eps s = String.eqb s EmptyString.
Proof. destruct s; simpl; [reflexivity | apply accepts_Void]. Qed.

Lemma accepts_class_cons (r : re) (p : ascii -> bool) (s : string) :
  class_of r p ->
  accepts r s
  = match s with
    | String c EmptyString => p c
    | _ => false
    end.
Proof.
  intros Hr. apply eq_true_iff_eq. rewrite (Hr s).
  destruct s as [|c [|c' s]].
  - split; [intros [x [H _]] |]; discriminate.
  - split; [intros [x [H Hx]]; now inversion H; subst | now exists c].
  - split; [intros [x [H _]] |]; discriminate.
Qed.

(** A class followed by a pattern takes one byte of the class. *)
Lemma accepts_Cat_class (r b : re) (p : ascii -> bool) (s : string) :
  class_of r p ->
  accepts (Cat r b) s
  = match s with
    | String c s' => p c && accepts b s'
    | EmptyString => false
    end.
Proof.
  intros Hr. apply eq_true_iff_eq. rewrite accepts_Cat. split.
  - intros [s1 [s2 [Hs [H1 H2]]]].
    apply Hr in H1. destruct H1 as [c [Hc Hp]]. subst. simpl.
    now rewrite Hp, H2.
  - destruct s as [|c s']; [discriminate|].
    rewrite andb_true_iff. intros [Hp Hb].
    exists (String c EmptyString), s'. repeat split; auto.
    apply Hr. now exists c.
Qed.

Lemma accepts_Repeat_class (r : re) (p : ascii -> bool) (n : nat) :
  class_of r p ->
  forall s,
    accepts (Repeat n r) s = (String.length s =? n)%nat && all_bytes p s.
Proof.
  intros Hr. unfold all_bytes.
  induction n as [|n IH]; intros s.
  - simpl. rewrite accepts_Eps. destruct s; reflexivity.
  - destruct n as [|n].
    + simpl Repeat. rewrite (accepts_class_cons r p s Hr).
      destruct s as [|c [|c' s]]; simpl; auto using andb_true_r.
    + change (Repeat (S (S n)) r) with (Cat r (Repeat (S n) r)).
      rewrite (accepts_Cat_class r _ p s Hr).
      destruct s as [|c s]; [reflexivity|].
      rewrite IH. simpl String.length. simpl forallb.
      change (S (String.length s) =? S (S n))%nat
        with (String.length s =? S n)%nat.
      destruct (p c), (String.length s =? S n)%nat; reflexivity.
Qed.

Lemma accepts_Str (t s : string) : accepts (Str t) s = String.eqb s t.
Proof.
  revert s. induction t as [|c t IH]; intros s.
  - apply accepts_Eps.
  - destruct t as [|c' t].
    + simpl Str. rewrite (accepts_class_cons _ _ s (class_Lit c)).
      destruct s as [|x [|x' s]]; simpl; try reflexivity.
      * now destruct (Ascii.eqb x c).
      * now destruct (Ascii.eqb x c).
    + change (Str (String c (String c' t)))
        with (Cat (Lit c) (Str (String c' t))).
      rewrite (accepts_Cat_class _ _ _ s (class_Lit c)).
      destruct s as [|x s]; [reflexivity|].
      rewrite IH. reflexivity.
Qed.

(** ** Account IDs *)

(** X1: [ValidAccountID] accepts exactly the strings of twelve decimal
    digits; every other string gets the one error
    "doesn't look like AWS Account ID". *)
Theorem ValidAccountID_twelve_digits (s k : string) :
  ValidAccountID (VString s) k
  = if (String.length s =? 12)%nat && all_bytes is_digit s
    then Return [] []
    else Return [] [Errorf "%q doesn't look like AWS Account ID (exactly 12 digits): %q"
                      [OString k; OString s]].
Proof.
  unfold ValidAccountID, assertString, MatchString. cbn [body].
  rewrite (accepts_Repeat_class digit is_digit 12 (class_Range "0" "9") s).
  now destruct ((String.length s =? 12)%nat && all_bytes is_digit s).
Qed.

(** ** Launch templates *)

Lemma class_id_byte : class_of (Alt lower digit) id_byte.
Proof.
  apply (class_Alt lower digit _ _ (class_Range "a" "z") (class_Range "0" "9")).
Qed.

(** X2: [ValidLaunchTemplateID] accepts exactly the strings of at most 255
    bytes made of "lt-" and one or more lower-case letters and digits. *)
Theorem ValidLaunchTemplateID_accepts (s k : string) :
  ValidLaunchTemplateID (VString s) k = Return [] []
  <-> len s <= 255
      /\ exists t, s = "lt-" +++ t /\ t <> EmptyString
                   /\ all_bytes id_byte t = true.
Proof.
  unfold ValidLaunchTemplateID, assertString, MatchString. cbn [body].
  assert (Hre : accepts (Cat (Str "lt-") (Plus (Alt lower digit))) s = true
                <-> exists t, s = "lt-" +++ t /\ t <> EmptyString
                              /\ all_bytes id_byte t = true).
  { rewrite accepts_Cat. split.
    - intros [s1 [s2 [Hs [H1 H2]]]].
      rewrite accepts_Str in H1. apply String.eqb_eq in H1. subst s1.
      rewrite (accepts_Plus_class _ _ s2 class_id_byte) in H2.
      apply andb_true_iff in H2. destruct H2 as [Hne Hall].
      exists s2. repeat split; auto.
      intros ->. discriminate.
    - intros [t [Hs [Hne Hall]]].
      exists "lt-", t. repeat split; auto.
      rewrite (accepts_Plus_class _ _ t class_id_byte), Hall.
      destruct t; [congruence | reflexivity]. }
  destruct (len s <? 1) eqn:H1.
  { split; [discriminate|]. intros [_ [t [Hs _]]].
    apply Z.ltb_lt in H1. subst s. unfold len in H1. simpl in H1. lia. }
  destruct (len s >? 255) eqn:H255.
  { split; [discriminate|]. intros [Hle _]. lia. }
  destruct (accepts (Cat (Str "lt-") (Plus (Alt lower digit))) s) eqn:Hm; simpl.
  - split; [|reflexivity]. intros _. split; [lia|]. now apply Hre.
  - split; [discriminate|]. intros [_ Ht]. apply Hre in Ht. discriminate.
Qed.

Lemma class_name_byte :
  class_of (Alts [digit; lower; upper; Lit "("; Lit ")"; Lit "."; Lit "/";
                  Lit "_"; Lit "-"]) name_byte.
Proof.
  pose proof
    (class_Alt _ _ _ _ (class_Range "0" "9")
       (class_Alt _ _ _ _ (class_Range "a" "z")
          (class_Alt _ _ _ _ (class_Range "A" "Z")
             (class_Alt _ _ _ _ (class_Lit "(")
                (class_Alt _ _ _ _ (class_Lit ")")
                   (class_Alt _ _ _ _ (class_Lit ".")
                      (class_Alt _ _ _ _ (class_Lit "/")
                         (class_Alt _ _ _ _ (class_Lit "_")
                            (class_Lit "-"))))))))) as H.
  refine (class_ext _ _ _ _ H).
  intros c. unfold name_byte, is_digit, is_lower, is_upper.
  now rewrite !orb_assoc.
Qed.

(** X3: [ValidLaunchTemplateName] accepts exactly the strings of letters,
    digits and the bytes ()./_- that are at least 3 bytes long and at most
    99 under a key that ends in "prefix", 125 under any other key. *)
Theorem ValidLaunchTemplateName_accepts (s k : string) :
  ValidLaunchTemplateName (VString s) k = Return [] []
  <-> 3 <= len s <= name_limit k /\ all_bytes name_byte s = true.
Proof.
  unfold ValidLaunchTemplateName, assertString, MatchString, name_limit.
  cbn [body].
  rewrite (accepts_Plus_class _ _ s class_name_byte).
  destruct (len s <? 3) eqn:H3.
  { split; [discriminate|]. intros [[Hlo _] _]. lia. }
  assert (Hne : negb (String.eqb s EmptyString) = true).
  { destruct s; [|reflexivity]. unfold len in H3. simpl in H3. discriminate. }
  rewrite Hne. simpl andb at 3.
  destruct (HasSuffix k "prefix"); simpl.
  - destruct (len s >? 99) eqn:H99.
    + split; [discriminate|]. intros [[_ Hhi] _]. lia.
    + destruct (all_bytes name_byte s); simpl.
      * split; [intros _; split; [lia | reflexivity] | reflexivity].
      * split; [discriminate | intros [_ H]; discriminate].
  - destruct (len s >? 125) eqn:H125.
    + split; [discriminate|]. intros [[_ Hhi] _]. lia.
    + destruct (all_bytes name_byte s); simpl.
      * split; [intros _; split; [lia | reflexivity] | reflexivity].
      * split; [discriminate | intros [_ H]; discriminate].
Qed.

(** ** Time windows *)

Lemma accepts_Cat_Alt_l (a b r : re) (s : string) :
  accepts (Cat (Alt a b) r) s = accepts (Cat a r) s || accepts (Cat b r) s.
Proof.
  apply eq_true_iff_eq. rewrite orb_true_iff, !accepts_Cat. split.
  - intros [s1 [s2 [Hs [H1 H2]]]].
    rewrite accepts_Alt in H1. apply orb_true_iff in H1.
    destruct H1; [left | right]; now exists s1, s2.
  - intros [[s1 [s2 [Hs [H1 H2]]]] | [s1 [s2 [Hs [H1 H2]]]]];
      exists s1, s2; rewrite accepts_Alt, H1; auto using orb_true_r.
Qed.

Lemma append_assoc (a b c : string) : (a +++ b) +++ c = a +++ (b +++ c).
Proof. induction a as [|x a IH]; simpl; [reflexivity | now rewrite IH]. Qed.

Lemma accepts_Cat_assoc (a b r : re) (s : string) :
  accepts (Cat (Cat a b) r) s = accepts (Cat a (Cat b r)) s.
Proof.
  apply eq_true_iff_eq. rewrite !accepts_Cat. split.
  - intros [s1 [s2 [Hs [H1 H2]]]].
    apply accepts_Cat in H1. destruct H1 as [t1 [t2 [Ht [Ha Hb]]]].
    exists t1, (t2 +++ s2). subst. rewrite append_assoc. repeat split; auto.
    apply accepts_Cat. now exists t2, s2.
  - intros [s1 [s2 [Hs [H1 H2]]]].
    apply accepts_Cat in H2. destruct H2 as [t1 [t2 [Ht [Hb Hr]]]].
    exists (s1 +++ t1), t2. subst. rewrite append_assoc. repeat split; auto.
    apply accepts_Cat. now exists s1, t1.
Qed.

(** turn the tests on bytes of the context and the goal into arithmetic *)
Ltac bytes_to_Z :=
  rewrite <- ?byte_in_same in *;
  unfold is_digit, digit_value, byte_in, code in *;
  cbn [N_of_ascii N_of_digits N.add N.mul Z.of_N Pos.add Pos.mul Pos.succ] in *;
  rewrite ?andb_true_iff, ?andb_false_iff, ?orb_true_iff, ?orb_false_iff,
    ?Z.leb_le, ?Z.leb_gt, ?Z.ltb_lt, ?Z.ltb_ge in *.

Lemma accepts_hh24mi (s : string) : accepts hh24mi s = is_clock s.
Proof.
  unfold hh24mi, digit.
  rewrite accepts_Cat_Alt_l, !accepts_Cat_assoc.
  rewrite (accepts_Cat_class _ _ _ s (class_Range "0" "1")).
  rewrite (accepts_Cat_class _ _ _ s (class_Lit "2")).
  destruct s as [|h1 s]; [reflexivity|].
  rewrite (accepts_Cat_class _ _ _ s (class_Range "0" "9")).
  rewrite (accepts_Cat_class _ _ _ s (class_Range "0" "3")).
  destruct s as [|h2 s]; [simpl; now rewrite !andb_false_r|].
  rewrite (accepts_Cat_class _ _ _ s (class_Lit ":")).
  destruct s as [|c s]; [simpl; now rewrite !andb_false_r|].
  rewrite (accepts_Cat_class _ _ _ s (class_Range "0" "5")).
  destruct s as [|m1 s]; [simpl; now rewrite !andb_false_r|].
  rewrite (accepts_class_cons _ _ s (class_Range "0" "9")).
  destruct s as [|m2 [|x s]]; [simpl; now rewrite !andb_false_r| |
    simpl; now rewrite !andb_false_r].
  unfold is_clock. apply eq_true_iff_eq.
  bytes_to_Z. lia.
Qed.

Lemma accepts_Cat_Lit (c : ascii) (r : re) (s : string) :
  accepts (Cat (Lit c) r) s = true
  <-> exists t, s = String c t /\ accepts r t = true.
Proof.
  rewrite (accepts_Cat_class _ _ _ s (class_Lit c)).
  destruct s as [|x s].
  - split; [discriminate | intros [t [H _]]; discriminate].
  - rewrite andb_true_iff, Ascii.eqb_eq. split.
    + intros [-> H]. now exists s.
    + intros [t [H Ht]]. inversion H; subst. auto.
Qed.

(** The pattern [^(r-r|)$] of the two window formats. *)
Lemma accepts_window (r : re) (P : string -> Prop) (s : string) :
  (forall t, accepts r t = true <-> P t) ->
  accepts (Alt (Cat r (Cat (Lit "-") r)) Eps) s = true <-> is_window P s.
Proof.
  intros Hr. unfold is_window.
  rewrite accepts_Alt, orb_true_iff, accepts_Eps, String.eqb_eq, accepts_Cat.
  split.
  - intros [[a [t [Hs [Ha Ht]]]] | He]; [right | left]; auto.
    apply accepts_Cat_Lit in Ht. destruct Ht as [b [Ht Hb]]. subst.
    exists a, b. repeat split; now apply Hr.
  - intros [He | [a [b [Hs [Ha Hb]]]]]; [now right | left].
    exists a, (String "-" b). repeat split; auto.
    + now apply Hr.
    + apply accepts_Cat_Lit. exists b. split; [reflexivity | now apply Hr].
Qed.

(** X4: [ValidOnceADayWindowFormat] accepts the empty string and the
    windows "hh:mm-hh:mm" between two times of the 24-hour clock (hours 00
    to 23, minutes 00 to 59, two digits each), and nothing else; what it
    rejects gets the one error of [ValidateOnceADayWindowFormat]. *)
Theorem ValidOnceADayWindowFormat_accepts (value k : string) :
  (ValidateOnceADayWindowFormat value = None
   <-> is_window (fun t => is_clock t = true) value)
  /\ (ValidOnceADayWindowFormat (VString value) k = Return [] []
      <-> is_window (fun t => is_clock t = true) value)
  /\ (exists errors,
         ValidOnceADayWindowFormat (VString value) k = Return [] errors
         /\ (List.length errors <= 1)%nat).
Proof.
  assert (H : ValidateOnceADayWindowFormat value = None
              <-> is_window (fun t => is_clock t = true) value).
  { rewrite <- (accepts_window hh24mi _ value)
      by (intros t; now rewrite accepts_hh24mi).
    unfold ValidateOnceADayWindowFormat, MatchString. cbn [body].
    destruct (accepts _ value); simpl; split; congruence. }
  split; [exact H|].
  unfold ValidOnceADayWindowFormat, assertString.
  destruct (ValidateOnceADayWindowFormat value) as [err|]; simpl; split.
  - rewrite <- H. split; discriminate.
  - eexists; split; [reflexivity | simpl; lia].
  - rewrite <- H. split; reflexivity.
  - eexists; split; [reflexivity | simpl; lia].
Qed.

Lemma accepts_days (d : string) :
  accepts (Alts [Str "sun"; Str "mon"; Str "tue"; Str "wed"; Str "thu";
                 Str "fri"; Str "sat"]) d = is_day d.
Proof.
  cbn [Alts]. rewrite !accepts_Alt, !accepts_Str.
  unfold is_day, days. cbn [existsb]. now rewrite orb_false_r.
Qed.

Lemma accepts_dddhh24mi (s : string) :
  accepts dddhh24mi s = true <-> is_day_time s.
Proof.
  unfold dddhh24mi, is_day_time. rewrite accepts_Cat. split.
  - intros [d [u [Hs [Hd Hu]]]].
    apply accepts_Cat_Lit in Hu. destruct Hu as [t [Hu Ht]]. subst.
    exists d, t. rewrite <- accepts_days, <- accepts_hh24mi. auto.
  - intros [d [t [Hs [Hd Ht]]]].
    exists d, (String ":" t). repeat split; auto.
    + now rewrite accepts_days.
    + apply accepts_Cat_Lit. exists t. now rewrite accepts_hh24mi.
Qed.

(** X5: [ValidOnceAWeekWindowFormat] looks at the value in lower case only:
    it accepts a value exactly when its lower-case form is empty or a
    window "ddd:hh:mm-ddd:hh:mm" between two times of the week (a day
    sun..sat, hours 00 to 23, minutes 00 to 59); the value it rejects gets
    one error, which quotes the lower-case form and not the value. *)
Theorem ValidOnceAWeekWindowFormat_accepts
    (E : Externals) (value k : string) :
  (ValidateOnceAWeekWindowFormat value = None
   <-> is_window is_day_time (strings_ToLower value))
  /\ (ValidOnceAWeekWindowFormat (VString value) k = Return [] []
      <-> is_window is_day_time (strings_ToLower value))
  /\ (ValidOnceAWeekWindowFormat (VString value) k = Return [] []
      \/ ValidOnceAWeekWindowFormat (VString value) k
         = Return [] [Errorf ("(%s) must satisfy the format of " +++ dquote
                              +++ "ddd:hh24:mi-ddd:hh24:mi" +++ dquote)
                        [OString (strings_ToLower value)]]).
Proof.
  assert (H : ValidateOnceAWeekWindowFormat value = None
              <-> is_window is_day_time (strings_ToLower value)).
  { rewrite <- (accepts_window dddhh24mi _ (strings_ToLower value)
                  accepts_dddhh24mi).
    unfold ValidateOnceAWeekWindowFormat, MatchString. cbn [body].
    destruct (accepts _ (strings_ToLower value)); simpl; split; congruence. }
  split; [exact H|].
  unfold ValidOnceAWeekWindowFormat, assertString.
  destruct (ValidateOnceAWeekWindowFormat value) as [err|] eqn:Hv; simpl; split.
  - rewrite <- H. split; discriminate.
  - right. unfold ValidateOnceAWeekWindowFormat in Hv.
    destruct (negb _) in Hv; [|discriminate].
    inversion Hv. reflexivity.
  - rewrite <- H. split; reflexivity.
  - now left.
Qed.

(** ** Autonomous system numbers *)

Lemma digit_value_range (c : ascii) :
  is_digit c = true -> 0 <= digit_value c <= 9.
Proof. intros H. bytes_to_Z. lia. Qed.

Lemma decimal_from_ge (s : string) (n : Z) :
  0 <= n -> all_bytes is_digit s = true -> n <= decimal_from n s.
Proof.
  revert n. induction s as [|c s IH]; intros n Hn Hall;
    cbn [decimal_from]; [lia|].
  unfold all_bytes in Hall. simpl in Hall.
  apply andb_true_iff in Hall. destruct Hall as [Hc Hall].
  pose proof (digit_value_range c Hc).
  specialize (IH (10 * n + digit_value c) ltac:(lia) Hall). lia.
Qed.

Lemma ParseUint_loop_spec (s0 s : string) (n : Z) :
  0 <= n <= Strconv.maxUint64 ->
  match Strconv.ParseUint_loop s0 s n with
  | (un, None) =>
      all_bytes is_digit s = true
      /\ un = decimal_from n s /\ un <= Strconv.maxUint64
  | (_, Some _) =>
      all_bytes is_digit s = false
      \/ Strconv.maxUint64 < decimal_from n s
  end.
Proof.
  revert n. induction s as [|c s IH]; intros n Hn.
  - simpl. auto with zarith.
  - cbn [Strconv.ParseUint_loop decimal_from]. unfold all_bytes. cbn [list_ascii_of_string forallb].
    destruct (is_digit c) eqn:Hc; cbn [negb andb]; [|now left].
    pose proof (digit_value_range c Hc) as Hd.
    fold (digit_value c).
    destruct (n >=? Strconv.maxUint64 / 10 + 1) eqn:Hcut.
    { destruct (forallb is_digit (list_ascii_of_string s)) eqn:Hall; [|now left].
      right.
      pose proof (decimal_from_ge s (10 * n + digit_value c) ltac:(lia) Hall).
      unfold Strconv.maxUint64 in *.
      apply Z.geb_le in Hcut.
      change (2 ^ 64 - 1) with 18446744073709551615 in *.
      change (18446744073709551615 / 10 + 1) with 1844674407370955162 in Hcut.
      lia. }
    replace (n * 10 + digit_value c) with (10 * n + digit_value c) by lia.
    destruct (10 * n + digit_value c >? Strconv.maxUint64) eqn:Hov.
    { destruct (forallb is_digit (list_ascii_of_string s)) eqn:Hall; [|now left].
      right.
      pose proof (decimal_from_ge s (10 * n + digit_value c) ltac:(lia) Hall).
      lia. }
    apply (IH (10 * n + digit_value c)). lia.
Qed.

Lemma ParseUint_spec (s : string) :
  match Strconv.ParseUint s with
  | (un, None) =>
      is_number s = true /\ un = decimal s /\ un <= Strconv.maxUint64
  | (_, Some _) =>
      is_number s = false \/ Strconv.maxUint64 < decimal s
  end.
Proof.
  unfold Strconv.ParseUint, is_number, decimal.
  destruct s as [|c s]; [now left|].
  pose proof (ParseUint_loop_spec (String c s) (String c s) 0) as H.
  destruct (Strconv.ParseUint_loop (String c s) (String c s) 0) as [un [e|]].
  - destruct H as [H|H]; [unfold Strconv.maxUint64; lia | | ]; [left | right]; auto.
  - destruct H as [H1 [H2 H3]]; [unfold Strconv.maxUint64; lia|].
    simpl negb. rewrite H1. auto.
Qed.

(** What [strconv.ParseInt(s, 10, 64)] gives for [s] with its first byte
    [c0]: the number after the sign [neg] is read by [ParseUint]. *)
Lemma ParseInt_cases (c0 : ascii) (rest : string) (neg : bool) (t : string) :
  (if Ascii.eqb c0 "+" then (false, rest)
   else if Ascii.eqb c0 "-" then (true, rest)
   else (false, String c0 rest)) = (neg, t) ->
  match Strconv.ParseUint t with
  | (un, None) =>
      Strconv.ParseInt (String c0 rest)
      = if negb neg && (un >=? 2 ^ 63) then
          (2 ^ 63 - 1,
           Some (NumError "ParseInt" (String c0 rest) Strconv.ErrRange))
        else if neg && (un >? 2 ^ 63) then
          (- 2 ^ 63,
           Some (NumError "ParseInt" (String c0 rest) Strconv.ErrRange))
        else (if neg then - un else un, None)
  | (_, Some _) => snd (Strconv.ParseInt (String c0 rest)) <> None
  end.
Proof.
  intros Hsign. unfold Strconv.ParseInt. rewrite Hsign.
  destruct (Strconv.ParseUint t) as [un [e|]]; [|reflexivity].
  repeat case_match; discriminate.
Qed.

Lemma Valid4ByteASN_by_sign (c0 : ascii) (rest k : string) (neg : bool)
    (t : string) :
  (if Ascii.eqb c0 "+" then (false, rest)
   else if Ascii.eqb c0 "-" then (true, rest)
   else (false, String c0 rest)) = (neg, t) ->
  Valid4ByteASN (VString (String c0 rest)) k = Return [] []
  <-> is_number t = true /\ decimal t <= 4294967295
      /\ (neg = true -> decimal t = 0).
Proof.
  intros Hsign.
  pose proof (ParseInt_cases c0 rest neg t Hsign) as HI.
  pose proof (ParseUint_spec t) as HU.
  assert (Hpos : is_number t = true -> 0 <= decimal t).
  { unfold is_number, decimal. intros H. apply andb_true_iff in H.
    apply decimal_from_ge; [lia | tauto]. }
  unfold Valid4ByteASN, assertString.
  destruct (Strconv.ParseUint t) as [un [e|]].
  - destruct (Strconv.ParseInt (String c0 rest)) as [asn [e'|]];
      [|now elim HI].
    split; [discriminate|]. intros [Hn [Hle _]].
    unfold Strconv.maxUint64 in HU.
    destruct HU as [HU|HU]; [congruence | lia].
  - rewrite HI. destruct HU as [Hn [Hun Hmax]]. subst un.
    specialize (Hpos Hn).
    destruct neg; cbn [negb andb].
    + destruct (decimal t >? 2 ^ 63) eqn:Hbig.
      * split; [discriminate|]. intros [_ [Hle _]]. lia.
      * destruct ((- decimal t <? 0) || (- decimal t >? 4294967295)) eqn:Hr.
        -- split; [discriminate|]. intros [_ [_ Hz]].
           specialize (Hz eq_refl). rewrite Hz in Hr. discriminate.
        -- split; [|reflexivity]. intros _.
           apply orb_false_iff in Hr. destruct Hr as [Hr _].
           apply Z.ltb_ge in Hr. repeat split; auto; lia.
    + destruct (decimal t >=? 2 ^ 63) eqn:Hbig.
      * split; [discriminate|]. intros [_ [Hle _]]. lia.
      * destruct ((decimal t <? 0) || (decimal t >? 4294967295)) eqn:Hr.
        -- split; [discriminate|]. intros [_ [Hle _]].
           apply orb_true_iff in Hr. destruct Hr as [Hr|Hr]; lia.
        -- split; [|reflexivity]. intros _.
           apply orb_false_iff in Hr. destruct Hr as [_ Hr].
           repeat split; auto; [lia | discriminate].
Qed.

(** X6: [Valid4ByteASN] accepts exactly the decimal numbers from 0 to
    4294967295: an optional sign, then one or more decimal digits (leading
    zeros allowed) whose number is at most 4294967295, and zero after a
    minus sign. *)
Theorem Valid4ByteASN_accepts (s k : string) :
  Valid4ByteASN (VString s) k = Return [] []
  <-> exists sign digits,
      s = sign +++ digits
      /\ (sign = EmptyString \/ sign = "+" \/ sign = "-")
      /\ is_number digits = true
      /\ decimal digits <= 4294967295
      /\ (sign = "-" -> decimal digits = 0).
Proof.
  destruct s as [|c0 rest].
  { split; [discriminate|].
    intros [sign [digits [Hs [_ [Hn _]]]]].
    destruct sign; [|discriminate]. simpl in Hs. subst digits. discriminate. }
  destruct (Ascii.eqb c0 "+") eqn:Hplus;
    [|destruct (Ascii.eqb c0 "-") eqn:Hminus].
  - apply Ascii.eqb_eq in Hplus. subst c0.
    rewrite (Valid4ByteASN_by_sign "+" rest k false rest eq_refl). split.
    + intros [Hn [Hle _]]. exists "+", rest.
      repeat split; auto. discriminate.
    + intros [sign [digits [Hs [Hsign [Hn [Hle Hz]]]]]].
      destruct Hsign as [-> | [-> | ->]]; simpl in Hs.
      * subst digits. discriminate.
      * inversion Hs; subst. repeat split; auto. discriminate.
      * discriminate.
  - apply Ascii.eqb_eq in Hminus. subst c0.
    rewrite (Valid4ByteASN_by_sign "-" rest k true rest eq_refl). split.
    + intros [Hn [Hle Hz]]. exists "-", rest. repeat split; auto.
    + intros [sign [digits [Hs [Hsign [Hn [Hle Hz]]]]]].
      destruct Hsign as [-> | [-> | ->]]; simpl in Hs.
      * subst digits. discriminate.
      * discriminate.
      * inversion Hs; subst. repeat split; auto.
  - rewrite (Valid4ByteASN_by_sign c0 rest k false (String c0 rest))
      by (now rewrite Hplus, Hminus).
    split.
    + intros [Hn [Hle _]]. exists EmptyString, (String c0 rest).
      repeat split; auto. discriminate.
    + intros [sign [digits [Hs [Hsign [Hn [Hle Hz]]]]]].
      destruct Hsign as [-> | [-> | ->]]; simpl in Hs.
      * subst digits. repeat split; auto. discriminate.
      * inversion Hs; subst. discriminate.
      * inversion Hs; subst. discriminate.
Qed.

(** ** The sign of a duration *)

Lemma uint64_nonneg (z : Z) : 0 <= Time.uint64 z.
Proof. unfold Time.uint64. apply Z.mod_pos_bound. lia. Qed.

(** The text the errors quote has no part in what the loop computes. *)
Lemma ParseDuration_body_orig (orig orig' s : string) (d : Z) :
  match Time.ParseDuration_body orig s d,
        Time.ParseDuration_body orig' s d with
  | inr x, inr y => x = y /\ (s <> EmptyString -> 0 <= snd x)
  | inl _, inl _ => True
  | _, _ => False
  end.
Proof.
  unfold Time.ParseDuration_body.
  destruct s as [|c0 s0]; [split; [reflexivity | congruence]|].
  destruct (negb (Ascii.eqb c0 "." || is_digit c0)); [exact I|].
  destruct (Time.leadingInt (String c0 s0)) as [[v s1] [e|]]; [exact I|].
  destruct (match s1 with
            | EmptyString => _
            | String _ _ => _
            end) as [[[f scale] s2] post].
  destruct (negb _ && negb post); [exact I|].
  destruct (Time.unit_end s2 =? 0)%nat; [exact I|].
  destruct (Time.unitMap _) as [unit|]; [|exact I].
  repeat case_if; try exact I;
    (split; [reflexivity|]; intros _; cbn [snd]; apply uint64_nonneg).
Qed.

Lemma ParseDuration_loop_orig (orig orig' : string) (fuel : nat) :
  forall (s : string) (d : Z),
    0 <= d ->
    match Time.ParseDuration_loop fuel orig s d,
          Time.ParseDuration_loop fuel orig' s d with
    | Some (inr x), Some (inr y) => x = y /\ 0 <= x
    | Some (inl _), Some (inl _) => True
    | None, None => True
    | _, _ => False
    end.
Proof.
  induction fuel as [|fuel IH]; intros s d Hd; simpl.
  - destruct s; auto.
  - destruct s as [|c s]; [auto|].
    pose proof (ParseDuration_body_orig orig orig' (String c s) d) as Hb.
    destruct (Time.ParseDuration_body orig (String c s) d) as [r|[s1 d1]];
      destruct (Time.ParseDuration_body orig' (String c s) d) as [r'|[s2 d2]];
      try contradiction; [exact I|].
    destruct Hb as [Heq Hpos]. inversion Heq; subst.
    apply IH. apply Hpos. discriminate.
Qed.

Lemma int64_small (z : Z) : - 2 ^ 63 <= z < 2 ^ 63 -> Time.int64 z = z.
Proof.
  intros H. unfold Time.int64.
  rewrite Z.mod_small by lia. lia.
Qed.

(** X7: for a text [s] without a sign that [time.ParseDuration] reads as
    the duration [d], [ValidDuration] accepts [s] and "+" followed by [s],
    and it rejects "-" followed by [s] with the one error "must be greater
    than zero", unless [d] is zero: then it accepts that too. *)
Theorem ValidDuration_sign (s k : string) (d : Time.Duration) :
  unsigned s = true ->
  Time.ParseDuration s = (d, None) ->
  ValidDuration (VString s) k = Return [] []
  /\ ValidDuration (VString ("+" +++ s)) k = Return [] []
  /\ ValidDuration (VString ("-" +++ s)) k
     = if d =? 0 then Return [] [] else Return [] [negative_error k].
Proof.
  intros Hu Hp.
  assert (Hsigned : forall sign : ascii,
             Ascii.eqb sign "-" || Ascii.eqb sign "+" = true ->
             0 <= d
             /\ Time.ParseDuration (String sign s)
                = (if Ascii.eqb sign "-" then - d else d, None)).
  { intros sign Hsign.
    unfold Time.ParseDuration in *. rewrite Hsign.
    assert (Hs : (match s with
                  | EmptyString => (false, s)
                  | String c rest =>
                      if Ascii.eqb c "-" || Ascii.eqb c "+"
                      then (Ascii.eqb c "-", rest) else (false, s)
                  end) = (false, s)).
    { destruct s as [|c rest]; [reflexivity|]. simpl in Hu.
      apply negb_true_iff in Hu. now rewrite Hu. }
    rewrite Hs in Hp.
    destruct (String.eqb s "0").
    { inversion Hp. split; [lia|]. now destruct (Ascii.eqb sign "-"). }
    destruct (String.eqb s EmptyString); [discriminate|].
    pose proof (ParseDuration_loop_orig s (String sign s) (String.length s)
                  s 0 ltac:(lia)) as Hl.
    destruct (Time.ParseDuration_loop (String.length s) s s 0)
      as [[r|dd]|] eqn:Hl1;
      destruct (Time.ParseDuration_loop (String.length s) (String sign s) s 0)
        as [[r'|dd']|]; try contradiction.
    - apply ParseDuration_loop_returns_zero in Hl1. subst r. now elim (proj2 Hl1).
    - destruct Hl as [<- Hpos].
      destruct (dd >? 2 ^ 63 - 1) eqn:Hbig; [discriminate|].
      rewrite int64_small in Hp by lia. inversion Hp; subst d.
      split; [assumption|].
      destruct (Ascii.eqb sign "-").
      + rewrite (int64_small dd) by lia. rewrite int64_small by lia. reflexivity.
      + rewrite int64_small by lia. reflexivity.
    - discriminate. }
  assert (Hd : 0 <= d) by (apply (Hsigned "+"%char); reflexivity).
  unfold ValidDuration, assertString.
  change ("+" +++ s) with (String "+" s).
  change ("-" +++ s) with (String "-" s).
  rewrite Hp, (proj2 (Hsigned "+"%char eq_refl)),
    (proj2 (Hsigned "-"%char eq_refl)).
  unfold ValidDuration_checks. cbn [Ascii.eqb Bool.eqb].
  repeat split.
  - destruct (d <? 0) eqn:H; [lia | reflexivity].
  - destruct (d <? 0) eqn:H; [lia | reflexivity].
  - destruct (d =? 0) eqn:H0; destruct (- d <? 0) eqn:H; try reflexivity; lia.
Qed.

Lemma ValidDuration_sign_witness :
  ValidDuration (VString "1h30m") "ttl" = Return [] []
  /\ ValidDuration (VString "+1h30m") "ttl" = Return [] []
  /\ ValidDuration (VString "-1h30m") "ttl"
     = Return [] [Errorf "%q must be greater than zero" [OString "ttl"]].
Proof.
  apply (ValidDuration_sign "1h30m" "ttl" 5400000000000); reflexivity.
Defined.

(** ** Floats above a threshold *)

Lemma SFcompare_antisym (x y : spec_float) :
  SFcompare y x = option_map CompOpp (SFcompare x y).
Proof.
  destruct x as [sx|sx| |sx mx ex]; destruct y as [sy|sy| |sy my ey];
    try reflexivity;
    try (destruct sx; reflexivity); try (destruct sy; reflexivity);
    try (destruct sx, sy; reflexivity).
  simpl. destruct sx, sy; try reflexivity; simpl; f_equal;
    rewrite (Z.compare_antisym ex ey); destruct (ex ?= ey); simpl;
      try reflexivity;
      rewrite Pos.compare_cont_antisym; simpl;
      rewrite ?CompOpp_involutive; reflexivity.
Qed.

(** X8: the validator made by [FloatGreaterThan] accepts a float exactly
    when it is strictly above the threshold in the order of IEEE 754, or
    when the float or the threshold is NaN (no comparison with NaN holds,
    so [v <= threshold] is false then); a float equal to a threshold that
    is not NaN is rejected. *)
Theorem FloatGreaterThan_accepts (threshold v : float64) (k : string) :
  (FloatGreaterThan threshold (VFloat64 v) k = Return [] []
   <-> SFltb threshold v = true \/ v = S754_nan \/ threshold = S754_nan)
  /\ (threshold <> S754_nan ->
      FloatGreaterThan threshold (VFloat64 threshold) k
      = Return [] [Errorf "expected %s to be greater than (%f), got %f"
                     [OString k; OFloat64 threshold; OFloat64 threshold]]).
Proof.
  unfold FloatGreaterThan, Float64.leb, SFleb, SFltb. split.
  - rewrite (SFcompare_antisym v threshold).
    destruct (SFcompare v threshold) as [[| |]|] eqn:Hc; simpl.
    + split; [discriminate|]. intros [H | [-> | ->]]; try discriminate.
      destruct v; discriminate.
    + split; [discriminate|]. intros [H | [-> | ->]]; try discriminate.
      destruct v; discriminate.
    + split; [now left | reflexivity].
    + split; [|reflexivity]. intros _. right.
      destruct v as [s|s| |s m e]; destruct threshold as [s'|s'| |s' m' e'];
        auto; discriminate.
  - intros Hn.
    assert (H : SFcompare threshold threshold = Some Eq).
    { destruct threshold as [s|s| |s m e]; try reflexivity.
      - now destruct s.
      - congruence.
      - simpl. destruct s; rewrite Z.compare_refl;
          now rewrite Pos.compare_cont_refl. }
    now rewrite H.
Qed.

Lemma FloatGreaterThan_accepts_witness :
  FloatGreaterThan (Float64.of_Z 1) (VFloat64 (Float64.of_Z 1)) "ratio"
  = Return [] [Errorf "expected %s to be greater than (%f), got %f"
                 [OString "ratio"; OFloat64 (Float64.of_Z 1);
                  OFloat64 (Float64.of_Z 1)]].
Proof.
  apply (proj2 (FloatGreaterThan_accepts (Float64.of_Z 1) (Float64.of_Z 1)
                  "ratio")).
  discriminate.
Defined.

(** ** The text of an ARN *)

Lemma cut_spec (c : ascii) (s : string) :
  match cut c s with
  | Some (l, r) => s = l +++ String c r /\ without c l = true
  | None => without c s = true
  end.
Proof.
  unfold without, all_bytes.
  induction s as [|x s IH]; simpl; [reflexivity|].
  destruct (Ascii.eqb x c) eqn:Hx; simpl.
  - apply Ascii.eqb_eq in Hx. subst. auto.
  - destruct (cut c s) as [[l r]|]; simpl; [|assumption].
    destruct IH as [-> Hl]. rewrite Hx. auto.
Qed.

Lemma cut_app (c : ascii) (l r : string) :
  without c l = true -> cut c (l +++ String c r) = Some (l, r).
Proof.
  unfold without, all_bytes.
  induction l as [|x l IH]; simpl.
  - now rewrite Ascii.eqb_refl.
  - rewrite andb_true_iff, negb_true_iff. intros [Hx Hl].
    now rewrite Hx, (IH Hl).
Qed.

Lemma prefix_arn (s : string) :
  HasPrefix s Arn.arnPrefix = true -> exists t, s = Arn.arnPrefix +++ t.
Proof.
  unfold HasPrefix, Arn.arnPrefix.
  do 4 (destruct s as [|? s]; [discriminate|]; cbn [String.prefix];
        match goal with
        | |- context [ascii_dec ?a ?b] =>
            destruct (ascii_dec a b); [subst | discriminate]
        end).
  intros _. now exists s.
Qed.

(** [arn.Parse] reads back the fields of the text of an ARN. *)
Lemma Parse_ARN_String (a : Arn.ARN) :
  fields_without_colon a = true -> Arn.Parse (ARN_String a) = (a, None).
Proof.
  unfold fields_without_colon. rewrite !andb_true_iff.
  intros [[[Hp Hs] Hr] Ha].
  destruct a as [p sv r ac res]. simpl in *.
  unfold Arn.Parse, ARN_String, Arn.arnSections, Arn.arnDelimiter. simpl.
  change (":" +++ ?x) with (String ":" x).
  rewrite (cut_app ":" p _ Hp).
  rewrite (cut_app ":" sv _ Hs).
  rewrite (cut_app ":" r _ Hr).
  rewrite (cut_app ":" ac _ Ha).
  assert (Hpre : forall x, HasPrefix x EmptyString = true)
    by (intros []; reflexivity).
  now rewrite Hpre.
Qed.

(** Every text [arn.Parse] accepts is the text of the ARN it returns. *)
Lemma Parse_inv (s : string) (a : Arn.ARN) :
  Arn.Parse s = (a, None) ->
  s = ARN_String a /\ fields_without_colon a = true.
Proof.
  unfold Arn.Parse.
  destruct (HasPrefix s Arn.arnPrefix) eqn:Hpre; [|discriminate].
  apply prefix_arn in Hpre. destruct Hpre as [t ->].
  unfold Arn.arnSections, Arn.arnDelimiter, Arn.arnPrefix. simpl.
  pose proof (cut_spec ":" t) as H1.
  destruct (cut ":" t) as [[p t1]|]; [|discriminate].
  pose proof (cut_spec ":" t1) as H2.
  destruct (cut ":" t1) as [[sv t2]|]; [|discriminate].
  pose proof (cut_spec ":" t2) as H3.
  destruct (cut ":" t2) as [[r t3]|]; [|discriminate].
  pose proof (cut_spec ":" t3) as H4.
  destruct (cut ":" t3) as [[ac res]|]; [|discriminate].
  simpl. intros H. inversion H; subst a.
  destruct H1 as [-> Hp], H2 as [-> Hs], H3 as [-> Hr], H4 as [-> Ha].
  unfold ARN_String, fields_without_colon. simpl.
  now rewrite Hp, Hs, Hr, Ha.
Qed.

Lemma ARN_String_not_empty (a : Arn.ARN) :
  String.eqb (ARN_String a) EmptyString = false.
Proof. reflexivity. Qed.

(** The errors of [ValidARNCheck] without secondary checks on a text that
    parses. *)
Lemma ValidARN_parsed (value k : string) (a : Arn.ARN) :
  String.eqb value EmptyString = false ->
  Arn.Parse value = (a, None) ->
  ValidARN (VString value) k = Return [] (subfield_errors k value a).
Proof.
  intros He Hparse. unfold ValidARN, ValidARNCheck.
  rewrite He, Hparse. simpl. f_equal.
  unfold subfield_errors, failing, partition_ok, region_ok, accountID_ok,
    resource_ok, partition_error, region_error, accountID_error,
    resource_error.
  destruct (String.eqb (Arn.Partition a) EmptyString);
    destruct (Regexp.MatchString partitionRegexp (Arn.Partition a)); simpl;
    destruct (String.eqb (Arn.Region a) EmptyString);
    destruct (Regexp.MatchString regionRegexp (Arn.Region a)); simpl;
    destruct (String.eqb (Arn.AccountID a) EmptyString);
    destruct (Regexp.MatchString accountIDRegexp (Arn.AccountID a)); simpl;
    destruct (String.eqb (Arn.Resource a) EmptyString);
    reflexivity.
Qed.

(** X9: [ValidARN] accepts the empty string and exactly the texts
    "arn:partition:service:region:account:resource" whose first four fields
    hold no colon and whose partition, region, account ID and resource pass
    their checks; the service is not looked at. *)
Theorem ValidARN_accepts (s k : string) :
  ValidARN (VString s) k = Return [] []
  <-> s = EmptyString
      \/ exists a,
          s = ARN_String a
          /\ fields_without_colon a = true
          /\ partition_ok a = true /\ region_ok a = true
          /\ accountID_ok a = true /\ resource_ok a = true.
Proof.
  assert (Hok : forall a, subfield_errors k s a = []
                          <-> partition_ok a = true /\ region_ok a = true
                              /\ accountID_ok a = true /\ resource_ok a = true).
  { intros a. unfold subfield_errors, failing.
    destruct (partition_ok a), (region_ok a), (accountID_ok a),
      (resource_ok a); simpl; split; intros H;
      try discriminate; try tauto; try (decompose [and] H; discriminate). }
  destruct (String.eqb s EmptyString) eqn:He.
  { apply String.eqb_eq in He. subst. split; [now left | reflexivity]. }
  destruct (Arn.Parse s) as [a [err|]] eqn:Hparse.
  - split.
    + unfold ValidARN, ValidARNCheck. rewrite He, Hparse. discriminate.
    + intros [-> | [a' [Hs [Hf _]]]]; [discriminate|].
      rewrite Hs, (Parse_ARN_String a' Hf) in Hparse. discriminate.
  - rewrite (ValidARN_parsed s k a He Hparse).
    destruct (Parse_inv s a Hparse) as [Hs Hf]. split.
    + intros H. right. exists a. inversion H as [H0].
      apply Hok in H0. tauto.
    + intros [-> | [a' [Hs' [Hf' Hoks]]]]; [discriminate|].
      assert (a' = a).
      { rewrite Hs', (Parse_ARN_String a' Hf') in Hparse. congruence. }
      subst a'. f_equal. apply Hok. exact Hoks.
Qed.

(** ** The three CIDR validators together *)

(** X10: the generic CIDR validator accepts a text exactly when one of the
    two family variants accepts it, and no text is accepted by both
    variants. *)
Theorem CIDR_variants_split (cidr : string) :
  (ValidateCIDRBlock cidr = None
   <-> ValidateIPv4CIDRBlock cidr = None \/ ValidateIPv6CIDRBlock cidr = None)
  /\ ~ (ValidateIPv4CIDRBlock cidr = None /\ ValidateIPv6CIDRBlock cidr = None).
Proof.
  unfold ValidateCIDRBlock, ValidateIPv4CIDRBlock, ValidateIPv6CIDRBlock.
  destruct (Net.ParseCIDR cidr) as [[ip ipnet]|err].
  - destruct (Net.To4 ip) as [|b0 bs];
      destruct (CIDRBlocksEqual cidr (Net.IPNet_String ipnet)); simpl;
      (split; [split; [intros H; try discriminate H; auto
                      | intros [H|H]; congruence]
              | intros [H1 H2]; congruence]).
  - split; [split; [discriminate | intros [H|H]; discriminate]
           | intros [H _]; discriminate].
Qed.

(** ** Dotted IPv4 texts *)

Lemma in_below (n : nat) (x : Z) :
  0 <= x < Z.of_nat n -> In x (below n).
Proof.
  intros H. unfold below. apply in_map_iff. exists (Z.to_nat x).
  split; [lia|]. apply in_seq. lia.
Qed.

Lemma octet_scan_loop (ds : string) :
  forall (prev : option ascii) (val digLen v' dl' : Z),
    all_bytes is_digit ds = true ->
    ds <> EmptyString ->
    octet_scan ds val digLen = Some (v', dl') ->
    exists p,
      is_digit p = true
      /\ forall rest fields,
          Net.parseIPv4Fields_loop (ds +++ rest) prev val digLen fields
          = Net.parseIPv4Fields_loop rest (Some p) v' dl' fields.
Proof.
  induction ds as [|c ds IH]; intros prev val digLen v' dl' Hall Hne Hscan;
    [congruence|].
  unfold all_bytes in Hall. simpl in Hall.
  apply andb_true_iff in Hall. destruct Hall as [Hc Hall].
  cbn [octet_scan] in Hscan.
  destruct ((digLen =? 1) && (val =? 0)) eqn:Hz; [discriminate|].
  destruct (val * 10 + code c - code "0" >? 255) eqn:Hbig; [discriminate|].
  destruct ds as [|c' ds'].
  - inversion Hscan; subst. exists c. split; [assumption|].
    intros rest fields. cbn [String.append Net.parseIPv4Fields_loop].
    now rewrite Hc, Hz, Hbig.
  - destruct (IH (Some c) _ _ _ _ Hall ltac:(discriminate) Hscan)
      as [p [Hp Hloop]].
    exists p. split; [assumption|].
    intros rest fields.
    change (String c (String c' ds') +++ rest)
      with (String c (String c' ds' +++ rest)).
    cbn [Net.parseIPv4Fields_loop].
    rewrite Hc, Hz, Hbig. apply Hloop.
Qed.

(** what the text of each octet is like: digits that [parseIPv4Fields]
    reads back, and no slash *)
Lemma octet_texts :
  forallb (fun n =>
             all_bytes is_digit (Net.uitoa n)
             && negb (String.eqb (Net.uitoa n) EmptyString)
             && match octet_scan (Net.uitoa n) 0 0 with
                | Some (v, _) => v =? n
                | None => false
                end)
          (below 256) = true.
Proof. vm_compute. reflexivity. Qed.

Lemma octet_text (n : Z) :
  0 <= n <= 255 ->
  all_bytes is_digit (Net.uitoa n) = true
  /\ Net.uitoa n <> EmptyString
  /\ exists dl, octet_scan (Net.uitoa n) 0 0 = Some (n, dl).
Proof.
  intros Hn.
  pose proof octet_texts as H.
  rewrite forallb_forall in H.
  specialize (H n (in_below 256 n ltac:(lia))).
  apply andb_true_iff in H. destruct H as [H Hscan].
  apply andb_true_iff in H. destruct H as [Hall Hne].
  repeat split; [assumption | |].
  - intros He. rewrite He in Hne. discriminate.
  - destruct (octet_scan (Net.uitoa n) 0 0) as [[v dl]|]; [|discriminate].
    apply Z.eqb_eq in Hscan. subst. now exists dl.
Qed.

Lemma dot_step (p : ascii) (rest : string) (v dl : Z) (fields : list Z) :
  is_digit p = true ->
  rest <> EmptyString ->
  (List.length fields < 3)%nat ->
  Net.parseIPv4Fields_loop (String "." rest) (Some p) v dl fields
  = Net.parseIPv4Fields_loop rest (Some "."%char) 0 0 (fields ++ [v]).
Proof.
  intros Hp Hne Hlen. cbn [Net.parseIPv4Fields_loop].
  change (is_digit ".") with false. cbn [Ascii.eqb Bool.eqb].
  destruct rest as [|x rest]; [congruence|].
  assert (Hpd : Ascii.eqb p "." = false).
  { rewrite <- byte_in_same. apply not_true_is_false. intros H.
    bytes_to_Z. lia. }
  rewrite Hpd.
  assert (H3 : (List.length fields =? 3)%nat = false)
    by (apply Nat.eqb_neq; lia).
  now rewrite H3.
Qed.

Lemma append_not_empty (a b : string) :
  a <> EmptyString -> a +++ b <> EmptyString.
Proof. destruct a; [congruence | discriminate]. Qed.

(** [parseIPv4Fields] reads the dotted text of four octets back. *)
Lemma parseIPv4Fields_dotted (a b c d : Z) :
  0 <= a <= 255 -> 0 <= b <= 255 -> 0 <= c <= 255 -> 0 <= d <= 255 ->
  Net.parseIPv4Fields (dotted a b c d) = Some [a; b; c; d].
Proof.
  intros Ha Hb Hc Hd.
  destruct (octet_text a Ha) as [Ha1 [Ha2 [dla Ha3]]].
  destruct (octet_text b Hb) as [Hb1 [Hb2 [dlb Hb3]]].
  destruct (octet_text c Hc) as [Hc1 [Hc2 [dlc Hc3]]].
  destruct (octet_text d Hd) as [Hd1 [Hd2 [dld Hd3]]].
  unfold Net.parseIPv4Fields, dotted, Net.string4.
  cbn [nth String.append].
  destruct (octet_scan_loop _ None _ _ _ _ Ha1 Ha2 Ha3) as [pa [Hpa Hla]].
  rewrite Hla, dot_step
    by (first [assumption | apply append_not_empty; assumption | simpl; lia]).
  destruct (octet_scan_loop _ (Some "."%char) _ _ _ _ Hb1 Hb2 Hb3)
    as [pb [Hpb Hlb]].
  rewrite Hlb, dot_step
    by (first [assumption | apply append_not_empty; assumption | simpl; lia]).
  destruct (octet_scan_loop _ (Some "."%char) _ _ _ _ Hc1 Hc2 Hc3)
    as [pc [Hpc Hlc]].
  rewrite Hlc, dot_step
    by (first [assumption | apply append_not_empty; assumption | simpl; lia]).
  destruct (octet_scan_loop _ (Some "."%char) _ _ _ _ Hd1 Hd2 Hd3)
    as [pd [Hpd Hld]].
  cbn [app].
  replace (Net.uitoa d) with (Net.uitoa d +++ EmptyString)
    by (clear; induction (Net.uitoa d) as [|x t IH]; simpl; congruence).
  rewrite Hld. reflexivity.
Qed.

Lemma ParseAddr_scan_digits (s ds r : string) :
  all_bytes is_digit ds = true ->
  Net.ParseAddr_scan s (ds +++ String "." r) = Net.parseIPv4 s.
Proof.
  unfold all_bytes. induction ds as [|c ds IH]; simpl; [reflexivity|].
  rewrite andb_true_iff. intros [Hc Hall].
  assert (Hn : Ascii.eqb c "." = false /\ Ascii.eqb c ":" = false
               /\ Ascii.eqb c "%" = false).
  { rewrite <- !byte_in_same.
    repeat split; apply not_true_is_false; intros H; bytes_to_Z; lia. }
  destruct Hn as [-> [-> ->]]. auto.
Qed.

(** [netip.ParseAddr] reads the dotted text of four octets back. *)
Lemma ParseAddr_dotted (a b c d : Z) :
  0 <= a <= 255 -> 0 <= b <= 255 -> 0 <= c <= 255 -> 0 <= d <= 255 ->
  Net.ParseAddr (dotted a b c d) = Some (Net.Addr4 [a; b; c; d]).
Proof.
  intros Ha Hb Hc Hd. unfold Net.ParseAddr.
  assert (Hs : exists r, dotted a b c d = Net.uitoa a +++ String "." r).
  { unfold dotted, Net.string4. cbn [nth String.append]. eexists.
    reflexivity. }
  destruct Hs as [r Hs]. rewrite Hs at 2.
  rewrite ParseAddr_scan_digits by (apply (octet_text a Ha)).
  unfold Net.parseIPv4. now rewrite parseIPv4Fields_dotted.
Qed.


Lemma land_240 :
  forallb (fun a => Bool.eqb (Z.land a 240 =? 224)
                      ((224 <=? a) && (a <=? 239)))
          (below 256) = true.
Proof. vm_compute. reflexivity. Qed.

Lemma is_IPv4_inv (ip : list Z) :
  is_IPv4 ip = true ->
  exists a b c d,
    ip = [a; b; c; d]
    /\ 0 <= a <= 255 /\ 0 <= b <= 255 /\ 0 <= c <= 255 /\ 0 <= d <= 255.
Proof.
  unfold is_IPv4, is_byte. rewrite andb_true_iff. intros [Hlen Hb].
  destruct ip as [|a [|b [|c [|d [|e ip]]]]]; try discriminate.
  simpl in Hb. rewrite !andb_true_iff, !Z.leb_le in Hb.
  exists a, b, c, d. repeat split; tauto.
Qed.

Lemma ParseAddr_string4 (ip : list Z) :
  is_IPv4 ip = true ->
  Net.ParseAddr (Net.string4 ip) = Some (Net.Addr4 ip).
Proof.
  intros H. destruct (is_IPv4_inv ip H) as [a [b [c [d [-> [Ha [Hb [Hc Hd]]]]]]]].
  now apply ParseAddr_dotted.
Qed.

(** X11: on the dotted text of four octets, [ValidMulticastIPAddress]
    accepts exactly the addresses whose first octet is from 224 to 239;
    the others get the one error "is not a valid multicast address". *)
Theorem ValidMulticastIPAddress_dotted (ip : list Z) (k : string) :
  is_IPv4 ip = true ->
  ValidMulticastIPAddress (VString (Net.string4 ip)) k
  = if (224 <=? nth 0 ip 0) && (nth 0 ip 0 <=? 239) then Return [] []
    else Return [] [Errorf "%q is not a valid multicast address"
                      [OString (Net.string4 ip)]].
Proof.
  intros H.
  unfold ValidMulticastIPAddress, assertString, validateMulticastIPAddress,
    Net.ParseIP.
  rewrite (ParseAddr_string4 ip H).
  destruct (is_IPv4_inv ip H) as [a [b [c [d [-> [Ha _]]]]]].
  cbn [Net.Zone String.eqb Net.As16 Net.v4InV6Prefix app nth].
  unfold Net.IsMulticast.
  change (Net.To4 [0; 0; 0; 0; 0; 0; 0; 0; 0; 0; 255; 255; a; b; c; d])
    with [a; b; c; d].
  pose proof land_240 as Hl. rewrite forallb_forall in Hl.
  specialize (Hl a (in_below 256 a ltac:(lia))).
  apply eqb_prop in Hl. rewrite Hl.
  now destruct ((224 <=? a) && (a <=? 239)).
Qed.

Lemma ValidMulticastIPAddress_dotted_witness :
  ValidMulticastIPAddress (VString "239.255.255.250") "group" = Return [] []
  /\ ValidMulticastIPAddress (VString "10.0.0.1") "group"
     = Return [] [Errorf "%q is not a valid multicast address"
                    [OString "10.0.0.1"]].
Proof.
  split.
  - apply (ValidMulticastIPAddress_dotted [239; 255; 255; 250] "group").
    reflexivity.
  - apply (ValidMulticastIPAddress_dotted [10; 0; 0; 1] "group").
    reflexivity.
Defined.

(** ** IPv4 blocks *)

(** what the prefix lengths of IPv4 are like: their text is digits that
    [dtoi] reads back, their mask is four bytes of that many leading ones *)
Lemma prefix_lengths :
  forallb (fun n =>
             let m := Net.CIDRMask n 32 in
             all_bytes is_digit (Net.uitoa n)
             && (let '(v, i, ok) := Net.dtoi (Net.uitoa n) in
                 (v =? n) && (i =? len (Net.uitoa n)) && ok)
             && (List.length m =? 4)%nat && forallb is_byte m
             && (Net.simpleMaskLength m =? n))
          (below 33) = true.
Proof. vm_compute. reflexivity. Qed.

Lemma prefix_length (n : Z) :
  0 <= n <= 32 ->
  all_bytes is_digit (Net.uitoa n) = true
  /\ Net.dtoi (Net.uitoa n) = (n, len (Net.uitoa n), true)
  /\ (exists m0 m1 m2 m3,
         Net.CIDRMask n 32 = [m0; m1; m2; m3]
         /\ 0 <= m0 /\ 0 <= m1 /\ 0 <= m2 /\ 0 <= m3)
  /\ Net.simpleMaskLength (Net.CIDRMask n 32) = n.
Proof.
  intros Hn. pose proof prefix_lengths as H.
  rewrite forallb_forall in H.
  specialize (H n (in_below 33 n ltac:(lia))). cbv zeta in H.
  rewrite !andb_true_iff in H.
  destruct H as [[[[Hd Hdtoi] Hlen] Hbytes] Hsimple].
  split; [assumption|]. split; [|split].
  - destruct (Net.dtoi (Net.uitoa n)) as [[v i] ok].
    rewrite !andb_true_iff, !Z.eqb_eq in Hdtoi.
    destruct Hdtoi as [[-> ->] ->]. reflexivity.
  - destruct (Net.CIDRMask n 32) as [|m0 [|m1 [|m2 [|m3 [|m4 m]]]]];
      try discriminate.
    exists m0, m1, m2, m3. unfold is_byte in Hbytes. simpl in Hbytes.
    rewrite !andb_true_iff, !Z.leb_le in Hbytes. repeat split; tauto.
  - now apply Z.eqb_eq.
Qed.

Lemma without_app (c : ascii) (x y : string) :
  without c (x +++ y) = without c x && without c y.
Proof.
  unfold without, all_bytes.
  induction x as [|a x IH]; simpl; [reflexivity|].
  now rewrite IH, andb_assoc.
Qed.

Lemma digits_without_slash (s : string) :
  all_bytes is_digit s = true -> without "/" s = true.
Proof.
  unfold without, all_bytes. induction s as [|c s IH]; simpl; [reflexivity|].
  rewrite !andb_true_iff. intros [Hc Hs]. split; [|auto].
  apply negb_true_iff. rewrite <- byte_in_same.
  apply not_true_is_false. intros H. bytes_to_Z. lia.
Qed.

Lemma string4_without_slash (ip : list Z) :
  is_IPv4 ip = true -> without "/" (Net.string4 ip) = true.
Proof.
  intros H. destruct (is_IPv4_inv ip H) as [a [b [c [d [-> [Ha [Hb [Hc Hd]]]]]]]].
  unfold Net.string4. cbn [nth].
  rewrite !without_app.
  rewrite (digits_without_slash (Net.uitoa a)) by (now apply octet_text).
  rewrite (digits_without_slash (Net.uitoa b)) by (now apply octet_text).
  rewrite (digits_without_slash (Net.uitoa c)) by (now apply octet_text).
  rewrite (digits_without_slash (Net.uitoa d)) by (now apply octet_text).
  reflexivity.
Qed.

Lemma land_byte (a b : Z) :
  0 <= a <= 255 -> 0 <= b -> 0 <= Z.land a b <= 255.
Proof.
  intros Ha Hb.
  assert (H0 : 0 <= Z.land a b) by (apply Z.land_nonneg; lia).
  split; [assumption|].
  destruct (Z.eq_dec (Z.land a b) 0) as [->|Hz]; [lia|].
  assert (Hlt : Z.land a b < 2 ^ 8); [|lia].
  apply Z.log2_lt_pow2; [lia|].
  pose proof (Z.log2_land a b ltac:(lia) Hb).
  assert (Z.log2 a < 8); [|lia].
  destruct (Z.eq_dec a 0) as [->|Ha0]; [simpl; lia|].
  apply Z.log2_lt_pow2; lia.
Qed.

(** The network of four octets is four octets, masking it again changes
    nothing, and its bytes are those of [ParseCIDR]. *)
Lemma network_spec (ip : list Z) (n : Z) :
  is_IPv4 ip = true -> 0 <= n <= 32 ->
  is_IPv4 (network ip n) = true
  /\ network (network ip n) n = network ip n
  /\ Net.Mask (Net.v4InV6Prefix ++ ip) (Net.CIDRMask n 32) = network ip n.
Proof.
  intros H Hn.
  destruct (is_IPv4_inv ip H) as [a [b [c [d [-> [Ha [Hb [Hc Hd]]]]]]]].
  destruct (prefix_length n Hn)
    as [_ [_ [[m0 [m1 [m2 [m3 [Hm [H0 [H1 [H2 H3]]]]]]]] _]]].
  unfold network. rewrite Hm.
  change (Net.Mask (Net.v4InV6Prefix ++ [a; b; c; d]) [m0; m1; m2; m3])
    with [Z.land a m0; Z.land b m1; Z.land c m2; Z.land d m3].
  change (Net.Mask [a; b; c; d] [m0; m1; m2; m3])
    with [Z.land a m0; Z.land b m1; Z.land c m2; Z.land d m3].
  change (Net.Mask [Z.land a m0; Z.land b m1; Z.land c m2; Z.land d m3]
            [m0; m1; m2; m3])
    with [Z.land (Z.land a m0) m0; Z.land (Z.land b m1) m1;
          Z.land (Z.land c m2) m2; Z.land (Z.land d m3) m3].
  repeat split.
  - unfold is_IPv4, is_byte. simpl.
    pose proof (land_byte a m0 Ha H0). pose proof (land_byte b m1 Hb H1).
    pose proof (land_byte c m2 Hc H2). pose proof (land_byte d m3 Hd H3).
    rewrite !andb_true_iff, !Z.leb_le. repeat split; lia.
  - now rewrite <- !Z.land_assoc, !Z.land_diag.
Qed.

Lemma ParseCIDR_block (ip : list Z) (n : Z) :
  is_IPv4 ip = true -> 0 <= n <= 32 ->
  Net.ParseCIDR (block ip n)
  = inl (Net.v4InV6Prefix ++ ip,
         mkIPNet (network ip n) (Net.CIDRMask n 32)).
Proof.
  intros H Hn. unfold Net.ParseCIDR, block.
  change ("/" +++ ?x) with (String "/" x).
  rewrite (cut_app "/" _ _ (string4_without_slash ip H)).
  rewrite (ParseAddr_string4 ip H).
  cbn [Net.Zone Net.BitLen Net.As16 String.eqb negb].
  destruct (prefix_length n Hn) as [_ [-> _]].
  rewrite Z.eqb_refl. cbn [negb orb].
  destruct (n <? 0) eqn:H0; [lia|].
  destruct (n >? 32) eqn:H32; [lia|].
  cbn [orb].
  now rewrite (proj2 (proj2 (network_spec ip n H Hn))).
Qed.

Lemma IP_String_IPv4 (ip : list Z) :
  is_IPv4 ip = true ->
  Net.IP_String (Net.v4InV6Prefix ++ ip) = Net.string4 ip
  /\ Net.To4 (Net.v4InV6Prefix ++ ip) = ip
  /\ Net.To4 ip = ip /\ ip <> [].
Proof.
  intros H. destruct (is_IPv4_inv ip H) as [a [b [c [d [-> _]]]]].
  repeat split. discriminate.
Qed.

Lemma IPNet_String_network (ip : list Z) (n : Z) :
  is_IPv4 ip = true -> 0 <= n <= 32 ->
  Net.IPNet_String (mkIPNet (network ip n) (Net.CIDRMask n 32))
  = block (network ip n) n.
Proof.
  intros H Hn.
  destruct (network_spec ip n H Hn) as [Hnet _].
  destruct (is_IPv4_inv _ Hnet) as [a [b [c [d [Hab _]]]]].
  destruct (prefix_length n Hn)
    as [_ [_ [[m0 [m1 [m2 [m3 [Hm _]]]]] Hsimple]]].
  unfold Net.IPNet_String, block. rewrite Hab in *.
  rewrite Hm in *.
  change (Net.networkNumberAndMask
            {| IPNet_IP := [a; b; c; d]; IPNet_Mask := [m0; m1; m2; m3] |})
    with (Some ([a; b; c; d], [m0; m1; m2; m3])).
  cbv iota beta. rewrite Hsimple.
  destruct (n =? -1) eqn:Hneg; [lia|].
  reflexivity.
Qed.

Lemma string4_inj (x y : list Z) :
  is_IPv4 x = true -> is_IPv4 y = true ->
  Net.string4 x = Net.string4 y -> x = y.
Proof.
  intros Hx Hy Heq.
  pose proof (ParseAddr_string4 x Hx) as H1.
  pose proof (ParseAddr_string4 y Hy) as H2.
  rewrite Heq in H1. congruence.
Qed.

Lemma CIDRBlocksEqual_block (ip : list Z) (n : Z) :
  is_IPv4 ip = true -> 0 <= n <= 32 ->
  CIDRBlocksEqual (block ip n) (block (network ip n) n) = true
  <-> network ip n = ip.
Proof.
  intros H Hn.
  destruct (network_spec ip n H Hn) as [Hnet [Hidem _]].
  unfold CIDRBlocksEqual.
  rewrite (ParseCIDR_block ip n H Hn), (ParseCIDR_block _ n Hnet Hn).
  rewrite Hidem, String.eqb_refl, andb_true_r.
  rewrite (proj1 (IP_String_IPv4 ip H)), (proj1 (IP_String_IPv4 _ Hnet)).
  rewrite String.eqb_eq. split.
  - now apply string4_inj.
  - now intros ->.
Qed.

(** X12: for an IPv4 address [ip] and a prefix length [n] from 0 to 32,
    [ValidateCIDRBlock] and [ValidateIPv4CIDRBlock] accept the text
    "a.b.c.d/n" exactly when the address has no host bit set, that is when
    masking it with [n] leading ones gives it back; otherwise the error
    suggests the masked address with the same prefix length. *)
Theorem ValidateCIDRBlock_IPv4_blocks (ip : list Z) (n : Z) :
  is_IPv4 ip = true ->
  0 <= n <= 32 ->
  let ipnet := mkIPNet (network ip n) (Net.CIDRMask n 32) in
  Net.IPNet_String ipnet = block (network ip n) n
  /\ (network ip n = ip ->
      ValidateCIDRBlock (block ip n) = None
      /\ ValidateIPv4CIDRBlock (block ip n) = None)
  /\ (network ip n <> ip ->
      ValidateCIDRBlock (block ip n)
      = Some (Errorf "%q is not a valid CIDR block; did you mean %q?"
                [OString (block ip n); OIPNet ipnet])
      /\ ValidateIPv4CIDRBlock (block ip n)
         = Some (Errorf "%q is not a valid IPv4 CIDR block; did you mean %q?"
                   [OString (block ip n); OIPNet ipnet])).
Proof.
  intros H Hn ipnet. subst ipnet.
  pose proof (IPNet_String_network ip n H Hn) as Hstr.
  pose proof (CIDRBlocksEqual_block ip n H Hn) as Heq.
  destruct (IP_String_IPv4 ip H) as [_ [Hto4 [_ Hne]]].
  split; [exact Hstr|].
  unfold ValidateCIDRBlock, ValidateIPv4CIDRBlock.
  rewrite (ParseCIDR_block ip n H Hn), Hto4, Hstr.
  destruct ip as [|a ip']; [congruence|].
  split; intros Hnet.
  - apply Heq in Hnet. rewrite Hnet. auto.
  - destruct (CIDRBlocksEqual (block (a :: ip') n)
                (block (network (a :: ip') n) n)) eqn:Hc; [|auto].
    now elim Hnet; apply Heq.
Qed.

Lemma ValidateCIDRBlock_IPv4_blocks_witness :
  ValidateCIDRBlock "192.168.4.0/22" = None
  /\ ValidateIPv4CIDRBlock "192.168.5.7/22"
     = Some (Errorf "%q is not a valid IPv4 CIDR block; did you mean %q?"
               [OString "192.168.5.7/22";
                OIPNet (mkIPNet [192; 168; 4; 0] [255; 255; 252; 0])])
  /\ Net.IPNet_String (mkIPNet [192; 168; 4; 0] [255; 255; 252; 0])
     = "192.168.4.0/22".
Proof.
  split; [|split].
  - apply (proj1 (proj2 (ValidateCIDRBlock_IPv4_blocks [192; 168; 4; 0] 22
                           eq_refl ltac:(lia)))).
    reflexivity.
  - apply (proj2 (proj2 (ValidateCIDRBlock_IPv4_blocks [192; 168; 5; 7] 22
                           eq_refl ltac:(lia)))).
    discriminate.
  - apply (proj1 (ValidateCIDRBlock_IPv4_blocks [192; 168; 5; 7] 22
                    eq_refl ltac:(lia))).
Defined.

(** ** A number and a unit *)

Lemma uint64_small (z : Z) : 0 <= z < 2 ^ 64 -> Time.uint64 z = z.
Proof. intros H. unfold Time.uint64. now apply Z.mod_small. Qed.

(** [leadingInt] on digits followed by a text that starts with no digit:
    the number of the digits when it is at most 2^63, an error when it is
    more. *)
Lemma leadingInt_loop_digits (ds u : string) (x : Z) :
  all_bytes is_digit ds = true ->
  match u with String c _ => is_digit c = false | EmptyString => True end ->
  0 <= x <= 2 ^ 63 ->
  Time.leadingInt_loop (ds +++ u) x
  = if decimal_from x ds <=? 2 ^ 63 then (decimal_from x ds, u, None)
    else (0, EmptyString, Some Time.errLeadingInt).
Proof.
  intros Hall Hu. revert x.
  induction ds as [|c ds IH]; intros x Hx.
  - cbn [String.append decimal_from].
    destruct (x <=? 2 ^ 63) eqn:Hle; [|lia].
    destruct u as [|c u]; [reflexivity|].
    cbn [Time.leadingInt_loop]. now rewrite Hu.
  - unfold all_bytes in Hall. simpl in Hall.
    apply andb_true_iff in Hall. destruct Hall as [Hc Hall].
    pose proof (digit_value_range c Hc) as Hd.
    cbn [String.append decimal_from Time.leadingInt_loop].
    rewrite Hc. cbn [negb]. fold (digit_value c).
    destruct (x >? 2 ^ 63 / 10) eqn:Hcut.
    { pose proof (decimal_from_ge ds (10 * x + digit_value c) ltac:(lia) Hall).
      change (2 ^ 63 / 10) with 922337203685477580 in Hcut.
      destruct (decimal_from (10 * x + digit_value c) ds <=? 2 ^ 63) eqn:Hle;
        [lia | reflexivity]. }
    change (2 ^ 63 / 10) with 922337203685477580 in Hcut.
    replace (x * 10 + code c - code "0") with (10 * x + digit_value c)
      by (unfold digit_value; lia).
    rewrite uint64_small by lia.
    destruct (10 * x + digit_value c >? 2 ^ 63) eqn:Hov.
    { pose proof (decimal_from_ge ds (10 * x + digit_value c) ltac:(lia) Hall).
      destruct (decimal_from (10 * x + digit_value c) ds <=? 2 ^ 63) eqn:Hle;
        [lia | reflexivity]. }
    apply (IH Hall). lia.
Qed.

Lemma unit_facts (u : string) (unit : Z) :
  Time.unitMap u = Some unit ->
  (exists c u', u = String c u' /\ Ascii.eqb c "." = false
                /\ is_digit c = false)
  /\ Time.unit_end u = String.length u
  /\ 1 <= unit <= 3600000000000.
Proof.
  unfold Time.unitMap.
  repeat (match goal with
          | |- context [if String.eqb u ?t then _ else _] =>
              let Heq := fresh "Heq" in
              destruct (String.eqb u t) eqn:Heq;
              [apply String.eqb_eq in Heq; subst u; intros Hu; inversion Hu;
               subst; repeat split; try (vm_compute; congruence);
               do 2 eexists; repeat split; reflexivity
              | clear Heq]
          end).
  discriminate.
Qed.

Lemma substring_all (s : string) : substring 0 (String.length s) s = s.
Proof. induction s as [|c s IH]; simpl; [reflexivity | now rewrite IH]. Qed.

Lemma drop_all (s : string) : drop (String.length s) s = EmptyString.
Proof. induction s as [|c s IH]; simpl; auto. Qed.

Lemma append_length (a b : string) :
  String.length (a +++ b) = (String.length a + String.length b)%nat.
Proof. induction a as [|c a IH]; simpl; [reflexivity | now rewrite IH]. Qed.

(** [time.ParseDuration] on a number and a unit: the product in
    nanoseconds when it fits an [int64], an error when it does not. *)
Lemma ParseDuration_number_unit (ds u : string) (unit : Z) :
  is_number ds = true ->
  Time.unitMap u = Some unit ->
  Time.ParseDuration (ds +++ u)
  = if decimal ds * unit <=? 2 ^ 63 - 1 then (decimal ds * unit, None)
    else (0, Some (Time.invalid_duration (ds +++ u))).
Proof.
  intros Hnum Hunit.
  destruct (unit_facts u unit Hunit) as [[cu [u' [Hu [Hdot Hdig]]]] [Hend Hrange]].
  unfold is_number in Hnum. apply andb_true_iff in Hnum.
  destruct Hnum as [Hne Hall].
  destruct ds as [|c0 ds']; [discriminate|].
  assert (Hc0 : is_digit c0 = true).
  { unfold all_bytes in Hall. simpl in Hall.
    now apply andb_true_iff in Hall. }
  assert (Hsign : Ascii.eqb c0 "-" || Ascii.eqb c0 "+" = false).
  { rewrite <- !byte_in_same. apply orb_false_iff.
    split; apply not_true_is_false; intros H; bytes_to_Z; lia. }
  assert (Hpos : 0 <= decimal (String c0 ds')).
  { unfold decimal. apply decimal_from_ge; [lia | assumption]. }
  set (s := String c0 ds' +++ u) in *.
  assert (Hint : Time.leadingInt s
                 = if decimal (String c0 ds') <=? 2 ^ 63
                   then (decimal (String c0 ds'), u, None)
                   else (0, EmptyString, Some Time.errLeadingInt)).
  { unfold Time.leadingInt, s, decimal.
    apply leadingInt_loop_digits; [assumption | | lia].
    rewrite Hu. assumption. }
  assert (Hs : s = String c0 (ds' +++ u)) by reflexivity.
  assert (Hlen : String.length s
                 = S (String.length ds' + String.length u)).
  { rewrite Hs. simpl. now rewrite append_length. }
  assert (Hbody :
            Time.ParseDuration_body s s 0
            = if decimal (String c0 ds') * unit <=? 2 ^ 63
              then inr (EmptyString, decimal (String c0 ds') * unit)
              else inl (0, Some (Time.invalid_duration s))).
  { unfold Time.ParseDuration_body. rewrite Hint. rewrite Hs at 1.
    rewrite Hc0, orb_true_r. cbn [negb].
    destruct (decimal (String c0 ds') <=? 2 ^ 63) eqn:Hle.
    2:{ destruct (decimal (String c0 ds') * unit <=? 2 ^ 63) eqn:Hle2;
          [nia | reflexivity]. }
    rewrite Hlen.
    assert (Hpre : (S (String.length ds' + String.length u)
                    =? String.length u)%nat = false)
      by (apply Nat.eqb_neq; lia).
    rewrite Hpre. rewrite Hu at 1. rewrite Hdot. cbn [negb andb].
    rewrite Hend.
    assert (Hi : (String.length u =? 0)%nat = false)
      by (rewrite Hu; reflexivity).
    rewrite Hi, substring_all, drop_all, Hunit.
    destruct (decimal (String c0 ds') >? 2 ^ 63 / unit) eqn:Hdiv.
    { assert (2 ^ 63 / unit < decimal (String c0 ds')) by lia.
      assert (2 ^ 63 < decimal (String c0 ds') * unit).
      { pose proof (Z.div_mod (2 ^ 63) unit ltac:(lia)).
        pose proof (Z.mod_pos_bound (2 ^ 63) unit ltac:(lia)). nia. }
      destruct (decimal (String c0 ds') * unit <=? 2 ^ 63) eqn:Hle2;
        [lia | reflexivity]. }
    assert (Hprod : decimal (String c0 ds') * unit <= 2 ^ 63).
    { assert (decimal (String c0 ds') <= 2 ^ 63 / unit) by lia.
      pose proof (Z.mul_div_le (2 ^ 63) unit ltac:(lia)). nia. }
    cbn [Z.gtb Z.compare andb].
    rewrite (uint64_small (decimal (String c0 ds') * unit)) by nia.
    rewrite Z.add_0_l.
    rewrite (uint64_small (decimal (String c0 ds') * unit)) by nia.
    destruct (decimal (String c0 ds') * unit >? 2 ^ 63) eqn:Hgt; [lia|].
    destruct (decimal (String c0 ds') * unit <=? 2 ^ 63) eqn:Hle2;
      [reflexivity | lia]. }
  assert (Hsplit :
            match s with
            | String c rest =>
                if Ascii.eqb c "-" || Ascii.eqb c "+"
                then (Ascii.eqb c "-", rest) else (false, s)
            | EmptyString => (false, s)
            end = (false, s)).
  { unfold s. cbn [String.append]. now rewrite Hsign. }
  assert (H0 : String.eqb s "0" = false).
  { rewrite Hs, Hu. destruct ds'; simpl; now destruct (Ascii.eqb c0 "0"). }
  assert (He : String.eqb s EmptyString = false) by (now rewrite Hs).
  assert (Hloop : forall n,
             Time.ParseDuration_loop (S n) s s 0
             = match Time.ParseDuration_body s s 0 with
               | inl r => Some (inl r)
               | inr (s', d') => Time.ParseDuration_loop n s s' d'
               end).
  { intros n. rewrite Hs at 2. reflexivity. }
  unfold Time.ParseDuration. rewrite Hsplit, H0, He, Hlen, Hloop, Hbody.
  destruct (decimal (String c0 ds') * unit <=? 2 ^ 63) eqn:Hle.
  - assert (Hl : forall fuel d, Time.ParseDuration_loop fuel s EmptyString d
                                = Some (inr d)) by (intros [|fuel] d; reflexivity).
    rewrite Hl.
    destruct (decimal (String c0 ds') * unit >? 2 ^ 63 - 1) eqn:Hgt;
      destruct (decimal (String c0 ds') * unit <=? 2 ^ 63 - 1) eqn:Hle2;
      try lia; [reflexivity|].
    rewrite int64_small by nia. reflexivity.
  - destruct (decimal (String c0 ds') * unit <=? 2 ^ 63 - 1) eqn:Hle2;
      [lia | reflexivity].
Qed.

(** X13: on a number followed by a unit (ns, us, ms, s, m, h),
    [ValidDuration] accepts exactly the durations that fit an [int64] of
    nanoseconds, that is up to 2^63 - 1 ns (about 292 years); a larger one
    gets the one error "cannot be parsed as a duration". *)
Theorem ValidDuration_number_unit (ds u k : string) (unit : Z) :
  is_number ds = true ->
  Time.unitMap u = Some unit ->
  ValidDuration (VString (ds +++ u)) k
  = if decimal ds * unit <=? 2 ^ 63 - 1 then Return [] []
    else Return [] [parse_error k (Time.invalid_duration (ds +++ u))].
Proof.
  intros Hnum Hunit. unfold ValidDuration, assertString.
  rewrite (ParseDuration_number_unit ds u unit Hnum Hunit).
  assert (Hpos : 0 <= decimal ds * unit).
  { destruct (unit_facts u unit Hunit) as [_ [_ Hr]].
    unfold is_number in Hnum. apply andb_true_iff in Hnum.
    pose proof (decimal_from_ge ds 0 ltac:(lia) (proj2 Hnum)).
    unfold decimal. nia. }
  destruct (decimal ds * unit <=? 2 ^ 63 - 1); unfold ValidDuration_checks.
  - destruct (decimal ds * unit <? 0) eqn:Hneg; [lia | reflexivity].
  - reflexivity.
Qed.

Lemma ValidDuration_number_unit_witness :
  ValidDuration (VString "2562047h") "ttl" = Return [] []
  /\ ValidDuration (VString "2562048h") "ttl"
     = Return [] [parse_error "ttl" (Time.invalid_duration "2562048h")].
Proof.
  split.
  - apply (ValidDuration_number_unit "2562047" "h" "ttl" Time.Hour);
      reflexivity.
  - apply (ValidDuration_number_unit "2562048" "h" "ttl" Time.Hour);
      reflexivity.
Defined.

Import Names.

(** X14: on a number without sign, [Valid4ByteASN] tells two errors apart:
    a number above 4294967295 that still fits an [int64] "must be in the
    range 0 to 4294967295", a larger one "must be a 64-bit integer". *)
Theorem Valid4ByteASN_number (ds k : string) :
  is_number ds = true ->
  Valid4ByteASN (VString ds) k
  = if decimal ds <=? 4294967295 then Return [] []
    else if decimal ds <? 2 ^ 63 then
      Return [] [Errorf "%q (%q) must be in the range 0 to 4294967295"
                   [OString k; OValue (VString ds)]]
    else
      Return [] [Errorf "%q (%q) must be a 64-bit integer"
                   [OString k; OValue (VString ds)]].
Proof.
  intros Hnum.
  assert (Hpos : 0 <= decimal ds).
  { unfold is_number in Hnum. apply andb_true_iff in Hnum.
    unfold decimal. apply decimal_from_ge; [lia | tauto]. }
  destruct ds as [|c0 rest]; [discriminate|].
  assert (Hc0 : is_digit c0 = true).
  { unfold is_number, all_bytes in Hnum. simpl in Hnum.
    now apply andb_true_iff in Hnum. }
  assert (Hsign : (if Ascii.eqb c0 "+" then (false, rest)
                   else if Ascii.eqb c0 "-" then (true, rest)
                   else (false, String c0 rest)) = (false, String c0 rest)).
  { assert (Ascii.eqb c0 "+" = false /\ Ascii.eqb c0 "-" = false) as [-> ->];
      [|reflexivity].
    rewrite <- !byte_in_same.
    split; apply not_true_is_false; intros H; bytes_to_Z; lia. }
  pose proof (ParseInt_cases c0 rest false (String c0 rest) Hsign) as HI.
  pose proof (ParseUint_spec (String c0 rest)) as HU.
  unfold Valid4ByteASN, assertString.
  destruct (Strconv.ParseUint (String c0 rest)) as [un [e|]].
  - destruct HU as [HU|HU]; [congruence|].
    unfold Strconv.maxUint64 in HU.
    destruct (Strconv.ParseInt (String c0 rest)) as [asn [e'|]];
      [|now elim HI].
    destruct (decimal (String c0 rest) <=? 4294967295) eqn:H1; [lia|].
    destruct (decimal (String c0 rest) <? 2 ^ 63) eqn:H2; [lia|].
    reflexivity.
  - rewrite HI. destruct HU as [_ [-> _]]. cbn [negb andb].
    destruct (decimal (String c0 rest) >=? 2 ^ 63) eqn:Hbig.
    + destruct (decimal (String c0 rest) <=? 4294967295) eqn:H1; [lia|].
      destruct (decimal (String c0 rest) <? 2 ^ 63) eqn:H2; [lia|].
      reflexivity.
    + destruct (decimal (String c0 rest) <=? 4294967295) eqn:H1;
        destruct (decimal (String c0 rest) <? 2 ^ 63) eqn:H2; try lia.
      * destruct (decimal (String c0 rest) <? 0) eqn:H0; [lia|].
        destruct (decimal (String c0 rest) >? 4294967295) eqn:H3; [lia|].
        reflexivity.
      * destruct (decimal (String c0 rest) <? 0) eqn:H0; [lia|].
        destruct (decimal (String c0 rest) >? 4294967295) eqn:H3; [|lia].
        reflexivity.
Qed.

Lemma Valid4ByteASN_number_witness :
  Valid4ByteASN (VString "4294967296") "asn"
  = Return [] [Errorf "%q (%q) must be in the range 0 to 4294967295"
                 [OString "asn"; OValue (VString "4294967296")]]
  /\ Valid4ByteASN (VString "9223372036854775808") "asn"
     = Return [] [Errorf "%q (%q) must be a 64-bit integer"
                    [OString "asn"; OValue (VString "9223372036854775808")]].
Proof.
  split.
  - apply (Valid4ByteASN_number "4294967296" "asn"). reflexivity.
  - apply (Valid4ByteASN_number "9223372036854775808" "asn"). reflexivity.
Defined.

(** X15: [ValidDuration] wants a unit: a number alone is rejected with one
    error, whatever the number, except the single text "0". *)
Theorem ValidDuration_bare_number (ds k : string) :
  is_number ds = true ->
  ValidDuration (VString "0") k = Return [] []
  /\ (ds <> "0" ->
      exists err, ValidDuration (VString ds) k = Return [] [parse_error k err]).
Proof.
  intros Hnum. split; [reflexivity|]. intros Hne0.
  assert (Herr : exists e, Time.ParseDuration ds = (0, Some e)).
  { unfold is_number in Hnum. apply andb_true_iff in Hnum.
    destruct Hnum as [Hne Hall].
    destruct ds as [|c0 rest]; [discriminate|].
    assert (Hc0 : is_digit c0 = true).
    { unfold all_bytes in Hall. simpl in Hall.
      now apply andb_true_iff in Hall. }
    assert (Hsign : Ascii.eqb c0 "-" || Ascii.eqb c0 "+" = false).
    { rewrite <- !byte_in_same. apply orb_false_iff.
      split; apply not_true_is_false; intros H; bytes_to_Z; lia. }
    pose proof (leadingInt_loop_digits (String c0 rest) EmptyString 0
                  Hall I ltac:(lia)) as Hint.
    assert (Happ : forall s, s +++ EmptyString = s)
      by (induction s as [|x s IH]; simpl; congruence).
    rewrite Happ in Hint.
    unfold Time.ParseDuration. rewrite Hsign.
    destruct (String.eqb (String c0 rest) "0") eqn:H0;
      [apply String.eqb_eq in H0; congruence|].
    cbn [String.eqb String.length Time.ParseDuration_loop].
    unfold Time.ParseDuration_body, Time.leadingInt.
    rewrite Hint, Hc0, orb_true_r. cbn [negb].
    destruct (decimal_from 0 (String c0 rest) <=? 2 ^ 63).
    - cbn [String.length Nat.eqb negb andb Time.unit_end]. eauto.
    - eauto. }
  destruct Herr as [e He]. exists e.
  unfold ValidDuration, assertString. now rewrite He.
Qed.

Lemma ValidDuration_bare_number_witness :
  exists err, ValidDuration (VString "00") "ttl"
              = Return [] [parse_error "ttl" err].
Proof.
  apply (proj2 (ValidDuration_bare_number "00" "ttl" eq_refl)).
  discriminate.
Defined.

(** ** Composing the composition helpers *)

Lemma ValidAllDiag_all (validators : list SchemaValidateDiagFunc)
    (i : value) (path : Path) :
  ValidAllDiag validators i path = all_diagnostics validators i path.
Proof. unfold ValidAllDiag. now rewrite ValidAllDiag_range_spec. Qed.

Lemma ValidAnyDiag_any (validators : list SchemaValidateDiagFunc)
    (i : value) (path : Path) :
  ValidAnyDiag validators i path
  = if existsb (succeeds i path) validators then []
    else all_diagnostics validators i path.
Proof. unfold ValidAnyDiag. now rewrite ValidAnyDiag_range_spec. Qed.

Lemma all_diagnostics_nil (validators : list SchemaValidateDiagFunc)
    (i : value) (path : Path) :
  validators <> [] ->
  existsb (succeeds i path) validators = false ->
  all_diagnostics validators i path <> [].
Proof.
  destruct validators as [|v vs]; [congruence|]. intros _.
  simpl. unfold succeeds at 1.
  destruct (v i path); [discriminate | intros _; discriminate].
Qed.

(** X16: the helpers compose: [ValidAllDiag] of a concatenation is the
    concatenation of the results, and nesting [ValidAllDiag] changes
    nothing; [ValidAnyDiag] of no validator accepts every value, so nesting
    [ValidAnyDiag] changes nothing only when the nested lists are not
    empty. *)
Theorem Diag_helpers_compose
    (xs ys : list SchemaValidateDiagFunc) (i : value) (path : Path) :
  ValidAllDiag (xs ++ ys) i path
  = ValidAllDiag xs i path ++ ValidAllDiag ys i path
  /\ ValidAllDiag [ValidAllDiag xs; ValidAllDiag ys] i path
     = ValidAllDiag (xs ++ ys) i path
  /\ ValidAnyDiag [] i path = []
  /\ (xs <> [] -> ys <> [] ->
      ValidAnyDiag [ValidAnyDiag xs; ValidAnyDiag ys] i path
      = ValidAnyDiag (xs ++ ys) i path).
Proof.
  assert (Happ : all_diagnostics (xs ++ ys) i path
                 = all_diagnostics xs i path ++ all_diagnostics ys i path).
  { unfold all_diagnostics. now rewrite flat_map_app. }
  repeat split.
  - now rewrite !ValidAllDiag_all.
  - rewrite (ValidAllDiag_all [_; _]). unfold all_diagnostics at 1. simpl.
    now rewrite app_nil_r, !ValidAllDiag_all.
  - intros Hx Hy.
    assert (Hnest : ValidAnyDiag [ValidAnyDiag xs; ValidAnyDiag ys] i path
                    = match ValidAnyDiag xs i path, ValidAnyDiag ys i path with
                      | [], _ => []
                      | _, [] => []
                      | a, b => a ++ b
                      end).
    { unfold ValidAnyDiag at 1. cbn [ValidAnyDiag_range].
      destruct (ValidAnyDiag xs i path); [reflexivity|].
      destruct (ValidAnyDiag ys i path); reflexivity. }
    rewrite Hnest, !ValidAnyDiag_any, existsb_app, Happ.
    destruct (existsb (succeeds i path) xs) eqn:Ex; [reflexivity|].
    pose proof (all_diagnostics_nil xs i path Hx Ex) as Hxn.
    destruct (all_diagnostics xs i path) as [|dx dxs]; [congruence|].
    destruct (existsb (succeeds i path) ys) eqn:Ey; [reflexivity|].
    pose proof (all_diagnostics_nil ys i path Hy Ey) as Hyn.
    destruct (all_diagnostics ys i path) as [|dy dys]; [congruence|].
    reflexivity.
Qed.

Lemma Diag_helpers_compose_witness :
  ValidAnyDiag [ValidAnyDiag [requireFloat]; ValidAnyDiag [requireBool]]
    (VString "x") ["attr"]
  = ValidAnyDiag [requireFloat; requireBool] (VString "x") ["attr"].
Proof.
  apply (proj2 (proj2 (proj2 (Diag_helpers_compose [requireFloat] [requireBool]
                                (VString "x") ["attr"]))));
    discriminate.
Defined.

(** ** An IPv4 block or an IPv6 block *)

(** X17: the validator made by [IsIPv4CIDRBlockOrIPv6CIDRBlock] panics on
    a value that is not a string.  It runs the supplied IPv4 validator on
    every string, a block or not, and panics when that one does.  With
    supplied validators that accept the string, it accepts exactly what
    [ValidateCIDRBlock] accepts, and a string rejected by both variants
    gets the error of the IPv4 variant followed by the error of the IPv6
    variant. *)
Theorem IsIPv4CIDRBlockOrIPv6CIDRBlock_behaviour
    (ipv4Validator ipv6Validator : SchemaValidateFunc) (v : value)
    (s k : string) :
  (is_string v = false ->
   IsIPv4CIDRBlockOrIPv6CIDRBlock ipv4Validator ipv6Validator v k
   = Panic (TypeAssertionError v "string"))
  /\ (forall p,
         ipv4Validator (VString s) k = Panic p ->
         IsIPv4CIDRBlockOrIPv6CIDRBlock ipv4Validator ipv6Validator
           (VString s) k = Panic p)
  /\ (ipv4Validator (VString s) k = Return [] [] ->
      ipv6Validator (VString s) k = Return [] [] ->
      (IsIPv4CIDRBlockOrIPv6CIDRBlock ipv4Validator ipv6Validator
         (VString s) k = Return [] []
       <-> ValidateCIDRBlock s = None)
      /\ (forall e4 e6,
             ValidateIPv4CIDRBlock s = Some e4 ->
             ValidateIPv6CIDRBlock s = Some e6 ->
             IsIPv4CIDRBlockOrIPv6CIDRBlock ipv4Validator ipv6Validator
               (VString s) k = Return [] [e4; e6])).
Proof.
  unfold IsIPv4CIDRBlockOrIPv6CIDRBlock, validation_Any, validation_All.
  split; [|split].
  - intros Hv. destruct v; [discriminate | reflexivity ..].
  - intros p Hp. cbn [validation_Any_range validation_All_range].
    unfold ValidIPv4CIDRNetworkAddress, assertString.
    destruct (ValidateIPv4CIDRBlock s); now rewrite Hp.
  - intros H4 H6.
    cbn [validation_Any_range validation_All_range].
    unfold ValidIPv4CIDRNetworkAddress, ValidIPv6CIDRNetworkAddress,
      assertString.
    rewrite H4, H6.
    unfold ValidateCIDRBlock, ValidateIPv4CIDRBlock, ValidateIPv6CIDRBlock.
    destruct (Net.ParseCIDR s) as [[ip ipnet]|err].
    + destruct (Net.To4 ip) as [|b0 bs];
        destruct (CIDRBlocksEqual s (Net.IPNet_String ipnet)); simpl;
        (split; [split; congruence | intros e4 e6 He4 He6; congruence]).
    + simpl. split; [split; discriminate|].
      intros e4 e6 He4 He6. congruence.
Qed.

Lemma IsIPv4CIDRBlockOrIPv6CIDRBlock_behaviour_witness :
  IsIPv4CIDRBlockOrIPv6CIDRBlock
    (fun _ _ => Return [] []) (fun _ _ => Return [] []) (VInt 8) "cidr"
  = Panic (TypeAssertionError (VInt 8) "string")
  /\ IsIPv4CIDRBlockOrIPv6CIDRBlock
       (fun _ _ => Return [] []) (fun _ _ => Return [] [])
       (VString "10.0.0.1/24") "cidr"
     = Return []
         [Errorf "%q is not a valid IPv4 CIDR block; did you mean %q?"
            [OString "10.0.0.1/24";
             OIPNet (mkIPNet [10; 0; 0; 0] [255; 255; 255; 0])];
          not_IPv6_error "10.0.0.1/24"].
Proof.
  split.
  - apply (proj1 (IsIPv4CIDRBlockOrIPv6CIDRBlock_behaviour
                    (fun _ _ => Return [] []) (fun _ _ => Return [] [])
                    (VInt 8) EmptyString "cidr")).
    reflexivity.
  - apply (proj2 (proj2 (proj2 (IsIPv4CIDRBlockOrIPv6CIDRBlock_behaviour
                    (fun _ _ => Return [] []) (fun _ _ => Return [] [])
                    VNil "10.0.0.1/24" "cidr")) eq_refl eq_refl));
      vm_compute; reflexivity.
Defined.

(** ** Region names and the fields of an ARN *)

Lemma class_lower : class_of lower is_lower.
Proof. exact (class_Range "a" "z"). Qed.

Lemma accepts_dashed_word (w : string) :
  accepts (Cat (Lit "-") (Plus lower)) w = true
  <-> exists x, w = String "-" x /\ lower_word x = true.
Proof.
  rewrite accepts_Cat_Lit. unfold lower_word.
  split; intros [x [Hw Hx]]; exists x; split; auto.
  - now rewrite <- (accepts_Plus_class _ _ x class_lower).
  - now rewrite (accepts_Plus_class _ _ x class_lower).
Qed.

Lemma accepts_Star_dashed (n : nat) :
  forall t,
    (String.length t <= n)%nat ->
    accepts (Star (Cat (Lit "-") (Plus lower))) t = true ->
    exists ws, t = dashed ws /\ forallb lower_word ws = true.
Proof.
  induction n as [|n IH]; intros t Hlen Hacc.
  - destruct t; [|simpl in Hlen; lia]. now exists [].
  - destruct t as [|c t]; [now exists []|].
    apply accepts_Star_cons in Hacc.
    destruct Hacc as [s1 [s2 [Ht [H1 H2]]]].
    apply accepts_dashed_word in H1. destruct H1 as [x [Hx Hw]].
    inversion Hx; subst.
    destruct (IH s2) as [ws [Hs2 Hws]]; [|assumption|].
    { simpl in Hlen. rewrite append_length in Hlen. lia. }
    exists (x :: ws). simpl. rewrite Hw, Hws. subst. auto.
Qed.

Lemma dashed_accepts_Star (ws : list string) :
  forallb lower_word ws = true ->
  accepts (Star (Cat (Lit "-") (Plus lower))) (dashed ws) = true.
Proof.
  induction ws as [|w ws IH]; [reflexivity|].
  simpl forallb. rewrite andb_true_iff. intros [Hw Hws].
  change (dashed (w :: ws)) with (String "-" (w +++ dashed ws)).
  apply accepts_Star_cons. exists w, (dashed ws).
  repeat split; auto.
  apply accepts_dashed_word. now exists w.
Qed.

Lemma accepts_words (t : string) :
  accepts (Star (Cat (Lit "-") (Plus lower))) t = true
  <-> exists ws, t = dashed ws /\ forallb lower_word ws = true.
Proof.
  split.
  - apply (accepts_Star_dashed (String.length t)). lia.
  - intros [ws [-> H]]. now apply dashed_accepts_Star.
Qed.

Lemma accepts_partition (s : string) :
  MatchString partitionRegexp s = true <-> is_partition s.
Proof.
  unfold MatchString, partitionRegexp, is_partition. cbn [body].
  rewrite accepts_Cat. split.
  - intros [s1 [s2 [Hs [H1 H2]]]].
    rewrite accepts_Str in H1. apply String.eqb_eq in H1.
    apply accepts_words in H2. destruct H2 as [ws [-> Hws]].
    exists ws. subst. auto.
  - intros [ws [Hs Hws]]. exists "aws", (dashed ws).
    repeat split; auto. now apply dashed_accepts_Star.
Qed.

Lemma accepts_region (s : string) :
  MatchString regionRegexp s = true <-> is_region s.
Proof.
  unfold MatchString, regionRegexp, is_region. cbn [body].
  rewrite accepts_Cat. split.
  - intros [p [rest [Hs [Hp Hrest]]]].
    rewrite (accepts_Repeat_class lower is_lower 2 class_lower) in Hp.
    apply andb_true_iff in Hp. destruct Hp as [Hlen Hlow].
    apply Nat.eqb_eq in Hlen.
    apply accepts_Cat in Hrest. destruct Hrest as [m [tail [Hr [Hm Htail]]]].
    unfold Plus in Hm. apply accepts_Cat in Hm.
    destruct Hm as [w1 [m' [Hm [Hw1 Hm']]]].
    apply accepts_dashed_word in Hw1. destruct Hw1 as [x [Hx Hxw]].
    apply accepts_words in Hm'. destruct Hm' as [ws [Hws Hall]].
    apply accepts_Cat_Lit in Htail. destruct Htail as [t [Ht Hd]].
    unfold digit in Hd.
    rewrite (accepts_class_cons _ _ t (class_Range "0" "9")) in Hd.
    destruct t as [|d [|d' t]]; try discriminate.
    exists p, (x :: ws), d. subst.
    repeat split; auto; try discriminate;
      try (simpl; rewrite Hxw; assumption);
      try (simpl; now rewrite !append_assoc).
  - intros [p [ws [d [Hs [Hlen [Hlow [Hne [Hall Hd]]]]]]]].
    destruct ws as [|x ws]; [congruence|].
    simpl in Hall. apply andb_true_iff in Hall. destruct Hall as [Hx Hws].
    exists p, (dashed (x :: ws) +++ "-" +++ String d EmptyString).
    split; [exact Hs|]. split.
    + rewrite (accepts_Repeat_class lower is_lower 2 class_lower).
      now rewrite Hlen, Hlow.
    + apply accepts_Cat.
      exists (dashed (x :: ws)), (String "-" (String d EmptyString)).
      split; [reflexivity|]. split.
      * unfold Plus. apply accepts_Cat.
        exists (String "-" x), (dashed ws).
        split; [reflexivity|]. split.
        -- apply accepts_dashed_word. now exists x.
        -- now apply dashed_accepts_Star.
      * apply accepts_Cat_Lit. exists (String d EmptyString).
        split; [reflexivity|]. unfold digit.
        now rewrite (accepts_class_cons _ _ _ (class_Range "0" "9")).
Qed.

Lemma accepts_account (s : string) :
  MatchString accountIDRegexp s = is_account s.
Proof.
  unfold MatchString, accountIDRegexp, is_account. cbn [body Alts].
  rewrite !accepts_Alt, !accepts_Str.
  rewrite (accepts_Repeat_class digit is_digit 12 (class_Range "0" "9")).
  now rewrite !orb_assoc.
Qed.

(** X18: [ValidRegionName] accepts the empty string and exactly the region
    names: two lower-case letters, one or more lower-case words each after
    a dash, then a dash and one digit. *)
Theorem ValidRegionName_accepts (s k : string) :
  ValidRegionName (VString s) k = Return [] []
  <-> s = EmptyString \/ is_region s.
Proof.
  unfold ValidRegionName, assertString.
  destruct (String.eqb s EmptyString) eqn:He.
  - apply String.eqb_eq in He. split; [now left | reflexivity].
  - pose proof (accepts_region s) as Hr.
    destruct (MatchString regionRegexp s); simpl.
    + split; [intros _; right; now apply Hr | reflexivity].
    + split; [discriminate|]. intros [-> | H]; [discriminate|].
      apply Hr in H. discriminate.
Qed.

(** X19: what the subfield checks of the ARN validator ask of the fields:
    the partition is "aws" with dashed lower-case words after it, the
    region is empty or a region name, the account is empty, twelve digits,
    "aws", "aws-managed" or "third-party", the resource is not empty. *)
Theorem ARN_subfields (a : Arn.ARN) :
  (partition_ok a = true <-> is_partition (Arn.Partition a))
  /\ (region_ok a = true
      <-> Arn.Region a = EmptyString \/ is_region (Arn.Region a))
  /\ (accountID_ok a = true
      <-> Arn.AccountID a = EmptyString \/ is_account (Arn.AccountID a) = true)
  /\ (resource_ok a = true <-> Arn.Resource a <> EmptyString).
Proof.
  unfold partition_ok, region_ok, accountID_ok, resource_ok.
  repeat split.
  - rewrite andb_true_iff. intros [_ H]. now apply accepts_partition.
  - intros H. rewrite andb_true_iff. split; [|now apply accepts_partition].
    destruct H as [ws [-> _]]. reflexivity.
  - rewrite orb_true_iff, String.eqb_eq, accepts_region. tauto.
  - rewrite orb_true_iff, String.eqb_eq, accepts_region. tauto.
  - rewrite orb_true_iff, String.eqb_eq, accepts_account. tauto.
  - rewrite orb_true_iff, String.eqb_eq, accepts_account. tauto.
  - rewrite negb_true_iff. intros H He. rewrite He in H. discriminate.
  - intros H. apply negb_true_iff. apply not_true_is_false.
    intros He. apply String.eqb_eq in He. contradiction.
Qed.

(** ** One error at most *)

Lemma at_most_one_error_nil : at_most_one_error (Return [] []).
Proof. exists []. split; [reflexivity | simpl; lia]. Qed.

Lemma at_most_one_error_one (e : error) : at_most_one_error (Return [] [e]).
Proof. exists [e]. split; [reflexivity | simpl; lia]. Qed.

#[local] Hint Resolve at_most_one_error_nil at_most_one_error_one : validators.


Import Blocks.

(** ** CIDR blocks of either family *)

(** *** Hex fields *)

Lemma append_nil_r (s : string) : s +++ EmptyString = s.
Proof. induction s as [|c s IH]; simpl; [reflexivity | now rewrite IH]. Qed.

Lemma all_bytes_app (p : ascii -> bool) (x y : string) :
  all_bytes p (x +++ y) = all_bytes p x && all_bytes p y.
Proof.
  unfold all_bytes.
  induction x as [|a x IH]; simpl; [reflexivity|].
  now rewrite IH, andb_assoc.
Qed.

(** Every 16-bit field is read back from its text, which has one hex digit
    at least and hex digits only. *)
Lemma field_texts :
  forallb (fun hi =>
     forallb (fun lo =>
             let x := 256 * hi + lo in
             match Net.hexGroup (Net.appendHex x) 0 0 with
             | Some (v, S _, EmptyString) => v =? x
             | _ => false
             end
             && all_bytes is_hex (Net.appendHex x)
             && (Z.shiftr x 8 =? hi) && (Z.land x 255 =? lo))
          (below 256)) (below 256) = true.
Proof. vm_compute. reflexivity. Qed.

Lemma field_text (x : Z) :
  is_field x = true ->
  (exists k, Net.hexGroup (Net.appendHex x) 0 0 = Some (x, S k, EmptyString))
  /\ all_bytes is_hex (Net.appendHex x) = true
  /\ field_bytes x = [x / 256; x mod 256].
Proof.
  unfold is_field. rewrite andb_true_iff, Z.leb_le, Z.leb_le. intros Hx.
  pose proof field_texts as H.
  rewrite forallb_forall in H.
  assert (Hhi : 0 <= x / 256 < Z.of_nat 256)
    by (split; [apply Z.div_pos | apply Z.div_lt_upper_bound]; lia).
  specialize (H (x / 256) (in_below 256 _ Hhi)).
  rewrite forallb_forall in H.
  assert (Hlo : 0 <= x mod 256 < Z.of_nat 256)
    by (apply Z.mod_pos_bound; lia).
  specialize (H (x mod 256) (in_below 256 _ Hlo)).
  cbv zeta in H. rewrite <- Z.div_mod in H by lia.
  rewrite !andb_true_iff, !Z.eqb_eq in H.
  destruct H as [[[H1 H2] H3] H4].
  split; [|split; [assumption | unfold field_bytes; congruence]].
  destruct (Net.hexGroup (Net.appendHex x) 0 0) as [[[v [|k]] [|c r]]|];
    try discriminate.
  apply Z.eqb_eq in H1. subst v. now exists k.
Qed.

Lemma hexGroup_app (s rest : string) :
  field_end rest ->
  forall off acc v k,
    Net.hexGroup s off acc = Some (v, k, EmptyString) ->
    Net.hexGroup (s +++ rest) off acc = Some (v, k, rest).
Proof.
  intros Hrest. induction s as [|c s IH]; intros off acc v k; simpl.
  - intros H. inversion H; subst.
    destruct rest as [|c r]; simpl; [reflexivity|].
    simpl in Hrest. now rewrite Hrest.
  - destruct (Net.hexval c) as [h|]; [|discriminate].
    repeat case_if; try discriminate. apply IH.
Qed.

Lemma hexGroup_field (x : Z) (rest : string) :
  is_field x = true -> field_end rest ->
  exists k, Net.hexGroup (Net.appendHex x +++ rest) 0 0 = Some (x, S k, rest).
Proof.
  intros Hx Hrest.
  destruct (field_text x Hx) as [[k Hk] _].
  exists k. now apply hexGroup_app.
Qed.

(** the text of a field starts with a hex digit *)
Lemma field_head (x : Z) (rest : string) :
  is_field x = true ->
  exists c t, Net.appendHex x +++ rest = String c t /\ is_hex c = true.
Proof.
  intros Hx.
  destruct (field_text x Hx) as [[k Hk] [Hall _]].
  destruct (Net.appendHex x) as [|c t] eqn:Ht.
  - simpl in Hk. discriminate.
  - exists c, (t +++ rest). split; [reflexivity|].
    unfold all_bytes in Hall. simpl in Hall.
    now apply andb_true_iff in Hall.
Qed.

Lemma colon_field_end (t : string) : field_end (String ":" t).
Proof. reflexivity. Qed.

(** *** The rounds of [parseIPv6] on the text of fields *)

(** a field, a colon and another field: the field is stored *)
Lemma parseIPv6_loop_field (r : nat) (x y : Z) (t : string)
    (e : option nat) (ip : list Z) :
  is_field x = true -> is_field y = true ->
  Net.parseIPv6_loop (S r) (Net.appendHex x +++ String ":" (Net.appendHex y +++ t))
    e ip
  = Net.parseIPv6_loop r (Net.appendHex y +++ t) e (ip ++ field_bytes x).
Proof.
  intros Hx Hy.
  destruct (hexGroup_field x (String ":" (Net.appendHex y +++ t)) Hx
              (colon_field_end _)) as [k Hk].
  destruct (field_head y t Hy) as [c [t' [Ht Hc]]].
  cbn [Net.parseIPv6_loop]. rewrite Hk, Ht.
  cbn [Ascii.eqb Bool.eqb negb].
  destruct c as [[] [] [] [] [] [] [] []]; try discriminate Hc; reflexivity.
Qed.

(** a field and the ellipsis: the field is stored and the place noted *)
Lemma parseIPv6_loop_ellipsis (r : nat) (x : Z) (t : string) (ip : list Z) :
  is_field x = true ->
  Net.parseIPv6_loop (S r) (Net.appendHex x +++ String ":" (String ":" t))
    None ip
  = match t with
    | EmptyString =>
        Some (ip ++ field_bytes x, EmptyString,
              Some (List.length (ip ++ field_bytes x)))
    | _ => Net.parseIPv6_loop r t (Some (List.length (ip ++ field_bytes x)))
             (ip ++ field_bytes x)
    end.
Proof.
  intros Hx.
  destruct (hexGroup_field x (String ":" (String ":" t)) Hx
              (colon_field_end _)) as [k Hk].
  cbn [Net.parseIPv6_loop]. rewrite Hk. destruct t; reflexivity.
Qed.

(** the last field *)
Lemma parseIPv6_loop_last (r : nat) (x : Z) (e : option nat) (ip : list Z) :
  is_field x = true ->
  Net.parseIPv6_loop (S r) (Net.appendHex x) e ip
  = Some (ip ++ field_bytes x, EmptyString, e).
Proof.
  intros Hx.
  destruct (field_text x Hx) as [[k Hk] _].
  cbn [Net.parseIPv6_loop]. rewrite Hk. reflexivity.
Qed.

(** *** The fields of sixteen bytes *)

Lemma is_byte_spec (x : Z) : is_byte x = true <-> 0 <= x <= 255.
Proof. unfold is_byte. rewrite andb_true_iff, !Z.leb_le. reflexivity. Qed.

Lemma nth_byte (ip : list Z) (i : nat) :
  forallb is_byte ip = true -> 0 <= nth i ip 0 <= 255.
Proof.
  revert i. induction ip as [|a ip IH]; intros i; simpl.
  - destruct i; lia.
  - rewrite andb_true_iff, is_byte_spec. intros [Ha Hip].
    destruct i; [assumption | now apply IH].
Qed.

Lemma v6u16_field (ip : list Z) (i : nat) :
  forallb is_byte ip = true -> is_field (Net.v6u16 ip i) = true.
Proof.
  intros H. unfold is_field, Net.v6u16.
  pose proof (nth_byte ip (2 * i) H). pose proof (nth_byte ip (2 * i + 1) H).
  rewrite Z.shiftl_mul_pow2 by lia. change (2 ^ 8) with 256.
  rewrite andb_true_iff, !Z.leb_le. lia.
Qed.

Lemma field_bytes_v6u16 (ip : list Z) (i : nat) :
  forallb is_byte ip = true ->
  field_bytes (Net.v6u16 ip i) = [nth (2 * i) ip 0; nth (2 * i + 1) ip 0].
Proof.
  intros H.
  destruct (field_text _ (v6u16_field ip i H)) as [_ [_ Hfb]].
  rewrite Hfb. unfold Net.v6u16.
  pose proof (nth_byte ip (2 * i) H). pose proof (nth_byte ip (2 * i + 1) H).
  rewrite Z.shiftl_mul_pow2 by lia. change (2 ^ 8) with 256.
  rewrite Z.div_add_l, Z.div_small, Z.add_0_r by lia.
  rewrite Z.add_comm, Z.mod_add, Z.mod_small by lia.
  reflexivity.
Qed.

(** sixteen bytes are the bytes of their eight fields *)
Lemma bytes_of_fields (b : list Z) :
  is_IPv6 b = true ->
  b = flat_map (fun i => field_bytes (Net.v6u16 b i)) (seq 0 8).
Proof.
  unfold is_IPv6. rewrite andb_true_iff. intros [Hlen Hb].
  cbn [flat_map seq].
  rewrite !(field_bytes_v6u16 b _ Hb).
  do 17 (destruct b as [|? b]; try discriminate Hlen).
  reflexivity.
Qed.

(** *** The run of zero fields that is left out *)

Lemma zeroRun_spec (ip : list Z) (n : nat) :
  forall j,
    (j <= Net.zeroRun ip n j <= j + n)%nat
    /\ forall k, (j <= k < Net.zeroRun ip n j)%nat -> Net.v6u16 ip k = 0.
Proof.
  induction n as [|n IH]; intros j; simpl.
  - split; [lia | intros; lia].
  - destruct (Net.v6u16 ip j =? 0) eqn:Hj.
    + destruct (IH (S j)) as [H1 H2]. split; [lia|].
      intros k Hk. destruct (Nat.eq_dec k j) as [->|Hne].
      * now apply Z.eqb_eq.
      * apply H2. lia.
    + split; [lia | intros; lia].
Qed.

Lemma zeroSpan_spec (ip : list Z) (n : nat) :
  forall i zeroStart zeroEnd,
    (i + n <= 8)%nat ->
    span_ok ip zeroStart zeroEnd ->
    span_ok ip (fst (Net.zeroSpan ip n i zeroStart zeroEnd))
               (snd (Net.zeroSpan ip n i zeroStart zeroEnd)).
Proof.
  induction n as [|n IH]; intros i zs ze Hi Hok; cbn [Net.zeroSpan];
    [assumption|].
  destruct (zeroRun_spec ip (8 - i) i) as [Hj Hz].
  destruct ((2 <=? Net.zeroRun ip (8 - i) i - i)%nat
            && (ze - zs <? Net.zeroRun ip (8 - i) i - i)%nat) eqn:Hnew;
    apply IH; try lia; try assumption.
  right. apply andb_true_iff in Hnew as [H2 _]. apply Nat.leb_le in H2.
  split; [lia | assumption].
Qed.

(** *** The text of an IPv6 address *)

Lemma is_hex_colon (c : ascii) : is_hex c = true -> is_hex_or_colon c = true.
Proof. unfold is_hex_or_colon. now intros ->. Qed.

Lemma all_bytes_impl (p q : ascii -> bool) (s : string) :
  (forall c, p c = true -> q c = true) ->
  all_bytes p s = true -> all_bytes q s = true.
Proof.
  intros Hpq. unfold all_bytes. rewrite !forallb_forall.
  intros H c Hc. apply Hpq, H, Hc.
Qed.

Lemma all_bytes_cons (p : ascii -> bool) (c : ascii) (s : string) :
  all_bytes p (String c s) = p c && all_bytes p s.
Proof. reflexivity. Qed.

Lemma appendTo6_loop_bytes (ip : list Z) (zeroStart zeroEnd n : nat) :
  forallb is_byte ip = true ->
  forall i,
    all_bytes is_hex_or_colon (Net.appendTo6_loop ip zeroStart zeroEnd n i)
    = true.
Proof.
  intros Hip.
  assert (Hf : forall i, all_bytes is_hex_or_colon
                           (Net.appendHex (Net.v6u16 ip i)) = true).
  { intros i. apply (all_bytes_impl is_hex); [exact is_hex_colon|].
    apply field_text, v6u16_field, Hip. }
  induction n as [|n IH]; intros i; simpl; [reflexivity|].
  repeat case_if;
    rewrite ?all_bytes_cons, ?all_bytes_app, ?Hf, ?IH; reflexivity.
Qed.

Lemma string6_bytes (ip : list Z) :
  forallb is_byte ip = true ->
  all_bytes is_hex_or_colon (Net.string6 ip) = true.
Proof.
  intros Hip. unfold Net.string6.
  destruct (Net.zeroSpan ip 8 0 255 255) as [zs ze].
  now apply appendTo6_loop_bytes.
Qed.

Lemma cut_without (c : ascii) (s : string) :
  without c s = true -> cut c s = None.
Proof.
  unfold without, all_bytes.
  induction s as [|x s IH]; simpl; [reflexivity|].
  rewrite andb_true_iff, negb_true_iff. intros [Hx Hs].
  now rewrite Hx, (IH Hs).
Qed.

Lemma string6_without (ip : list Z) (c : ascii) :
  is_hex_or_colon c = false ->
  forallb is_byte ip = true ->
  without c (Net.string6 ip) = true.
Proof.
  intros Hc Hip. unfold without.
  apply (all_bytes_impl is_hex_or_colon); [|now apply string6_bytes].
  intros x Hx. apply negb_true_iff.
  destruct (Ascii.eqb x c) eqn:Hxc; [|reflexivity].
  apply Ascii.eqb_eq in Hxc. congruence.
Qed.

(** *** Reading the text of an IPv6 address back *)

Lemma hex_not_special (c : ascii) :
  is_hex c = true ->
  Ascii.eqb c "." = false /\ Ascii.eqb c ":" = false
  /\ Ascii.eqb c "%" = false.
Proof.
  destruct c as [[] [] [] [] [] [] [] []]; intros H; try discriminate H;
    repeat split.
Qed.

Lemma ParseAddr_scan_hex (s x r : string) :
  all_bytes is_hex x = true ->
  Net.ParseAddr_scan s (x +++ String ":" r) = Net.parseIPv6 s.
Proof.
  induction x as [|c x IH]; [reflexivity|].
  rewrite all_bytes_cons, andb_true_iff. intros [Hc Hx].
  destruct (hex_not_special c Hc) as [H1 [H2 H3]].
  cbn [String.append Net.ParseAddr_scan]. rewrite H1, H2, H3. now apply IH.
Qed.

Lemma ParseAddr_scan_colon (s r : string) :
  Net.ParseAddr_scan s (String ":" r) = Net.parseIPv6 s.
Proof. reflexivity. Qed.

(** a text without zone that starts with a field *)
Lemma parseIPv6_fields (x : Z) (t : string) :
  is_field x = true ->
  cut "%" (Net.appendHex x +++ t) = None ->
  Net.parseIPv6 (Net.appendHex x +++ t)
  = expand (Net.parseIPv6_loop 8 (Net.appendHex x +++ t) None []).
Proof.
  intros Hx Hcut. unfold Net.parseIPv6. rewrite Hcut.
  destruct (field_head x t Hx) as [c [t' [Ht Hc]]]. rewrite Ht.
  destruct (hex_not_special c Hc) as [_ [H2 _]].
  destruct c as [[] [] [] [] [] [] [] []]; try discriminate H2;
    cbv beta iota zeta delta [expand]; reflexivity.
Qed.

(** a text without zone that starts with the ellipsis and goes on *)
Lemma parseIPv6_leading (y : Z) (t : string) :
  is_field y = true ->
  cut "%" (String ":" (String ":" (Net.appendHex y +++ t))) = None ->
  Net.parseIPv6 (String ":" (String ":" (Net.appendHex y +++ t)))
  = expand (Net.parseIPv6_loop 8 (Net.appendHex y +++ t) (Some O) []).
Proof.
  intros Hy Hcut. unfold Net.parseIPv6. rewrite Hcut.
  destruct (field_head y t Hy) as [c [t' [Ht Hc]]]. rewrite Ht.
  cbv beta iota zeta delta [expand String.eqb]. reflexivity.
Qed.

(** a field, the ellipsis and another field *)
Lemma parseIPv6_loop_ellipsis_field (r : nat) (x y : Z) (t : string)
    (ip : list Z) :
  is_field x = true -> is_field y = true ->
  Net.parseIPv6_loop (S r)
    (Net.appendHex x +++ String ":" (String ":" (Net.appendHex y +++ t)))
    None ip
  = Net.parseIPv6_loop r (Net.appendHex y +++ t)
      (Some (List.length (ip ++ field_bytes x))) (ip ++ field_bytes x).
Proof.
  intros Hx Hy. rewrite parseIPv6_loop_ellipsis by assumption.
  destruct (field_head y t Hy) as [c [t' [Ht _]]]. now rewrite Ht.
Qed.

(** a field and the ellipsis at the end *)
Lemma parseIPv6_loop_ellipsis_last (r : nat) (x : Z) (ip : list Z) :
  is_field x = true ->
  Net.parseIPv6_loop (S r)
    (Net.appendHex x +++ String ":" (String ":" EmptyString)) None ip
  = Some (ip ++ field_bytes x, EmptyString,
          Some (List.length (ip ++ field_bytes x))).
Proof. intros Hx. now rewrite parseIPv6_loop_ellipsis. Qed.

(** [netip.ParseAddr] reads the text of every 16-byte address back. *)
Lemma ParseAddr_string6 (b : list Z) :
  is_IPv6 b = true ->
  Net.ParseAddr (Net.string6 b) = Some (Net.Addr6 b EmptyString).
Proof.
  intros Hb. pose proof Hb as Hb'. unfold is_IPv6 in Hb'.
  apply andb_true_iff in Hb' as [Hlen Hbytes].
  assert (Hf : forall i, is_field (Net.v6u16 b i) = true)
    by (intros i; now apply v6u16_field).
  assert (Hcut : cut "%" (Net.string6 b) = None)
    by (apply cut_without, string6_without; [reflexivity | assumption]).
  assert (Hok : span_ok b (fst (Net.zeroSpan b 8 0 255 255))
                          (snd (Net.zeroSpan b 8 0 255 255))).
  { apply zeroSpan_spec; [lia | left; split; reflexivity]. }
  unfold Net.ParseAddr. revert Hcut. unfold Net.string6.
  destruct (Net.zeroSpan b 8 0 255 255) as [zs ze]. cbn [fst snd] in Hok.
  destruct Hok as [[-> ->]|[Hr Hz]].
  - cbn [Net.appendTo6_loop Nat.leb Nat.eqb Nat.ltb String.append].
    intros Hcut.
    rewrite ParseAddr_scan_hex by apply field_text, Hf.
    rewrite parseIPv6_fields by (try apply Hf; assumption).
    rewrite !parseIPv6_loop_field by apply Hf.
    rewrite append_nil_r, parseIPv6_loop_last by apply Hf.
    cbn [app field_bytes expand List.length String.eqb negb Nat.ltb Nat.leb].
    apply f_equal, (f_equal (fun l => Net.Addr6 l EmptyString)).
    etransitivity; [|symmetry; apply (bytes_of_fields b Hb)].
    reflexivity.
  - destruct zs as [|[|[|[|[|[|[|zs]]]]]]]; [| | | | | | |exfalso; lia];
      destruct ze as [|[|[|[|[|[|[|[|[|ze]]]]]]]]]; try (exfalso; lia);
      cbn [Net.appendTo6_loop Nat.leb Nat.eqb Nat.ltb String.append];
      intros Hcut;
      try rewrite ParseAddr_scan_colon;
      try (rewrite ParseAddr_scan_hex by apply field_text, Hf);
      first [ rewrite parseIPv6_fields by (try apply Hf; assumption)
            | rewrite parseIPv6_leading by (try apply Hf; assumption)
            | change (Net.parseIPv6 (String ":" (String ":" EmptyString)))
                with (Some (Net.Addr6 (repeat 0 16) EmptyString)) ];
      rewrite ?parseIPv6_loop_field by apply Hf;
      try first [ rewrite parseIPv6_loop_ellipsis_field by apply Hf
                | rewrite parseIPv6_loop_ellipsis_last by apply Hf ];
      rewrite ?parseIPv6_loop_field by apply Hf;
      try (rewrite append_nil_r, parseIPv6_loop_last by apply Hf);
      cbn [app field_bytes expand List.length String.eqb negb Nat.ltb
           Nat.leb firstn skipn repeat Nat.sub];
      apply f_equal, (f_equal (fun l => Net.Addr6 l EmptyString));
      (etransitivity; [|symmetry; apply (bytes_of_fields b Hb)]);
      cbn [flat_map seq app field_bytes];
      repeat match goal with
             | |- context [Net.v6u16 b ?k] => rewrite (Hz k) by lia
             end;
      reflexivity.
Qed.

(** *** What [netip.ParseAddr] returns *)

Lemma is_digit_code (c : ascii) :
  is_digit c = true -> 0 <= code c - code "0" <= 9.
Proof.
  unfold is_digit, byte_in. rewrite andb_true_iff, !Z.leb_le.
  change (code "0") with 48. change (code "9") with 57. lia.
Qed.

Lemma forallb_app_byte (x y : list Z) :
  forallb is_byte x = true -> forallb is_byte y = true ->
  forallb is_byte (x ++ y) = true.
Proof. intros Hx Hy. now rewrite forallb_app, Hx, Hy. Qed.

Lemma parseIPv4Fields_loop_bytes (s : string) :
  forall (prev : option ascii) (val digLen : Z) (fields f : list Z),
    forallb is_byte fields = true ->
    0 <= val <= 255 ->
    Net.parseIPv4Fields_loop s prev val digLen fields = Some f ->
    forallb is_byte f = true.
Proof.
  induction s as [|c s IH]; intros prev val digLen fields f Hf Hval; simpl.
  - case_if; [discriminate|].
    intros H. inversion H; subst.
    apply forallb_app_byte; [assumption|].
    simpl. rewrite andb_true_r. now apply is_byte_spec.
  - destruct (is_digit c) eqn:Hc.
    + pose proof (is_digit_code c Hc) as Hd.
      destruct ((digLen =? 1) && (val =? 0)); [discriminate|].
      destruct (val * 10 + code c - code "0" >? 255) eqn:Hgt; [discriminate|].
      apply IH; [assumption|]. lia.
    + destruct (Ascii.eqb c "."); [|discriminate].
      destruct prev as [p|]; [|discriminate].
      destruct s as [|c' s']; [discriminate|].
      destruct (Ascii.eqb p "."); [discriminate|].
      destruct (List.length fields =? 3)%nat; [discriminate|].
      apply IH; [|lia].
      apply forallb_app_byte; [assumption|].
      simpl. rewrite andb_true_r. now apply is_byte_spec.
Qed.

Lemma parseIPv4Fields_valid (s : string) (f : list Z) :
  Net.parseIPv4Fields s = Some f -> is_IPv4 f = true.
Proof.
  unfold Net.parseIPv4Fields, is_IPv4. intros H.
  assert (Hlen : List.length f = 4%nat).
  { apply parseIPv4Fields_loop_length in H; [assumption | simpl; lia]. }
  assert (Hb : forallb is_byte f = true).
  { apply parseIPv4Fields_loop_bytes in H; [assumption | reflexivity | lia]. }
  now rewrite Hlen, Hb.
Qed.

Lemma hexval_range (c : ascii) (h : Z) :
  Net.hexval c = Some h -> 0 <= h <= 15.
Proof.
  unfold Net.hexval, byte_in.
  change (code "0") with 48. change (code "9") with 57.
  change (code "a") with 97. change (code "f") with 102.
  change (code "A") with 65. change (code "F") with 70.
  repeat case_if; intros H; inversion H; subst;
    repeat match goal with
           | H : _ && _ = true |- _ => apply andb_true_iff in H as [? ?]
           | H : (_ <=? _) = true |- _ => apply Z.leb_le in H
           end; lia.
Qed.

Lemma hexGroup_range (s : string) :
  forall off acc v k rest,
    0 <= acc <= 65535 ->
    Net.hexGroup s off acc = Some (v, k, rest) ->
    0 <= v <= 65535.
Proof.
  induction s as [|c s IH]; intros off acc v k rest Hacc; simpl.
  - intros H. inversion H; subst. assumption.
  - destruct (Net.hexval c) as [h|] eqn:Hh.
    + pose proof (hexval_range c h Hh).
      destruct (3 <? off)%nat; [discriminate|].
      destruct (acc * 16 + h >? 65535) eqn:Hgt; [discriminate|].
      apply IH. lia.
    + intros H. inversion H; subst. assumption.
Qed.

Lemma field_bytes_valid (x : Z) :
  0 <= x <= 65535 -> forallb is_byte (field_bytes x) = true.
Proof.
  intros Hx.
  assert (Hf : is_field x = true)
    by (unfold is_field; rewrite andb_true_iff, !Z.leb_le; lia).
  destruct (field_text x Hf) as [_ [_ ->]].
  simpl. rewrite andb_true_r, andb_true_iff, !is_byte_spec.
  split.
  - split; [apply Z.div_pos | apply Z.lt_succ_r, Z.div_lt_upper_bound]; lia.
  - pose proof (Z.mod_pos_bound x 256). lia.
Qed.

Lemma parseIPv6_loop_valid (rounds : nat) :
  forall s e ip ip' s' e',
    forallb is_byte ip = true ->
    (List.length ip + 2 * rounds <= 16)%nat ->
    Net.parseIPv6_loop rounds s e ip = Some (ip', s', e') ->
    forallb is_byte ip' = true /\ (List.length ip' <= 16)%nat.
Proof.
  induction rounds as [|r IH]; intros s e ip ip' s' e' Hip Hlen;
    cbn [Net.parseIPv6_loop].
  - intros H. inversion H; subst. split; [assumption | lia].
  - destruct (Net.hexGroup s 0 0) as [[[acc k] rest]|] eqn:Hg; [|discriminate].
    pose proof (hexGroup_range s 0 0 acc k rest ltac:(lia) Hg) as Hacc.
    pose proof (field_bytes_valid acc Hacc) as Hfb.
    assert (Hnew : forallb is_byte (ip ++ field_bytes acc) = true)
      by now apply forallb_app_byte.
    assert (Hnl : List.length (ip ++ field_bytes acc)
                  = (List.length ip + 2)%nat)
      by (rewrite length_app; reflexivity).
    change [Z.shiftr acc 8; Z.land acc 255] with (field_bytes acc).
    assert (Hemb : forall el,
               (if (match el with None => true | Some _ => false end)
                   && negb (List.length ip =? 12)%nat then None
                else if (16 <? List.length ip + 4)%nat then None
                else Net.embeddedIPv4 s ip el) = Some (ip', s', e') ->
               forallb is_byte ip' = true /\ (List.length ip' <= 16)%nat).
    { intros el. case_if; [discriminate|].
      destruct (16 <? List.length ip + 4)%nat eqn:H16; [discriminate|].
      apply Nat.ltb_ge in H16.
      unfold Net.embeddedIPv4.
      destruct (Net.parseIPv4Fields s) as [f|] eqn:Hf; [|discriminate].
      apply parseIPv4Fields_valid in Hf. unfold is_IPv4 in Hf.
      apply andb_true_iff in Hf as [Hl Hb]. apply Nat.eqb_eq in Hl.
      intros H. inversion H; subst.
      split; [now apply forallb_app_byte | rewrite length_app; lia]. }
    destruct k as [|k]; [discriminate|].
    destruct rest as [|c rest].
    + intros H. inversion H; subst. split; [assumption | lia].
    + destruct (Ascii.eqb c ".") eqn:Hdot.
      * apply Ascii.eqb_eq in Hdot. subst c. apply Hemb.
      * destruct (Ascii.eqb c ":") eqn:Hcolon.
        -- apply Ascii.eqb_eq in Hcolon. subst c.
           cbn [Ascii.eqb Bool.eqb negb].
           destruct rest as [|c1 s1]; [discriminate|].
           destruct (Ascii.eqb c1 ":") eqn:Hc1.
           ++ apply Ascii.eqb_eq in Hc1. subst c1.
              destruct e; [discriminate|].
              destruct s1.
              ** intros H. inversion H; subst. split; [assumption | lia].
              ** apply IH; [assumption | lia].
           ++ intros H.
              assert (H' : Net.parseIPv6_loop r (String c1 s1) e
                             (ip ++ field_bytes acc) = Some (ip', s', e')).
              { destruct c1 as [[] [] [] [] [] [] [] []];
                  try discriminate Hc1; exact H. }
              revert H'. apply IH; [assumption | lia].
        -- intros H. exfalso.
           destruct c as [[] [] [] [] [] [] [] []];
             try discriminate Hdot; try discriminate Hcolon;
             discriminate H.
Qed.

Lemma expanded_valid (e n : nat) (ip : list Z) :
  forallb is_byte ip = true ->
  (List.length ip < 16)%nat ->
  n = (16 - List.length ip)%nat ->
  is_IPv6 (firstn e ip ++ repeat 0 n ++ skipn e ip) = true.
Proof.
  intros Hb Hlt ->. unfold is_IPv6.
  assert (Hl : List.length (firstn e ip ++ repeat 0 (16 - List.length ip)
                            ++ skipn e ip) = 16%nat).
  { rewrite !length_app, repeat_length.
    pose proof (f_equal (@List.length Z) (firstn_skipn e ip)) as Hfs.
    rewrite length_app in Hfs. lia. }
  rewrite Hl. cbn [Nat.eqb andb].
  rewrite <- (firstn_skipn e ip) in Hb. rewrite forallb_app in Hb.
  apply andb_true_iff in Hb as [Hb1 Hb2].
  rewrite !forallb_app, Hb1, Hb2, andb_true_r. cbn [andb].
  clear. induction (16 - List.length ip)%nat; [reflexivity | assumption].
Qed.

Lemma parseIPv6_valid (s : string) (b : list Z) (zone : string) :
  Net.parseIPv6 s = Some (Net.Addr6 b zone) -> is_IPv6 b = true.
Proof.
  unfold Net.parseIPv6.
  destruct (match cut "%" s with
            | Some (s0, zone0) =>
                if String.eqb zone0 EmptyString then None else Some (s0, zone0)
            | None => Some (s, EmptyString)
            end) as [[s0 z0]|]; [|discriminate].
  destruct (match s0 with
            | String ":" (String ":" s') =>
                (Some O, s', String.eqb s' EmptyString)
            | _ => (None, s0, false)
            end) as [[e0 s1] only].
  destruct only.
  { intros H. inversion H; subst. reflexivity. }
  destruct (Net.parseIPv6_loop 8 s1 e0 []) as [[[ip s2] e2]|] eqn:Hloop;
    [|discriminate].
  apply parseIPv6_loop_valid in Hloop; [|reflexivity | simpl; lia].
  destruct Hloop as [Hb Hlen].
  destruct (negb (String.eqb s2 EmptyString)); [discriminate|].
  destruct (List.length ip <? 16)%nat eqn:Hlt.
  - apply Nat.ltb_lt in Hlt.
    destruct e2 as [e|]; [|discriminate].
    intros H. injection H as Hx _. subst b.
    apply expanded_valid; [assumption | lia | reflexivity].
  - apply Nat.ltb_ge in Hlt.
    destruct e2; [discriminate|].
    intros H. inversion H; subst. unfold is_IPv6.
    replace (List.length b) with 16%nat by lia. now rewrite Hb.
Qed.

Lemma ParseAddr_scan_valid (s rest : string) (a : Net.Addr) :
  Net.ParseAddr_scan s rest = Some a ->
  match a with
  | Net.Addr4 f => is_IPv4 f = true
  | Net.Addr6 b _ => is_IPv6 b = true
  end.
Proof.
  induction rest as [|c rest IH]; simpl; [discriminate|].
  destruct (Ascii.eqb c ".").
  { unfold Net.parseIPv4.
    destruct (Net.parseIPv4Fields s) as [f|] eqn:Hf; [|discriminate].
    intros H. inversion H; subst. now apply parseIPv4Fields_valid in Hf. }
  destruct (Ascii.eqb c ":").
  { destruct a as [f|b z]; intros H.
    - now apply parseIPv6_not_Addr4 in H.
    - now apply parseIPv6_valid in H. }
  destruct (Ascii.eqb c "%"); [discriminate | assumption].
Qed.

(** *** Masks *)

(** For two bytes [a] and [m]: [a] keeps its value under [m] exactly when
    it has no bit outside [m]; what is 255 under a mask was 255 under the
    mask 255. *)
Lemma byte_masks :
  forallb (fun a =>
     forallb (fun m =>
        Bool.eqb (Z.land a m =? a) (Z.land a (Z.lxor m 255) =? 0)
        && (if Z.land a m =? 255 then (a =? 255) && (m =? 255) else true)
        && (Z.land a 255 =? a))
       (below 256)) (below 256) = true.
Proof. vm_compute. reflexivity. Qed.

Lemma byte_mask (a m : Z) :
  0 <= a <= 255 -> 0 <= m <= 255 ->
  (Z.land a m = a <-> Z.land a (Z.lxor m 255) = 0)
  /\ (Z.land a m = 255 -> a = 255 /\ m = 255)
  /\ Z.land a 255 = a.
Proof.
  intros Ha Hm.
  pose proof byte_masks as H. rewrite forallb_forall in H.
  specialize (H a (in_below 256 a ltac:(lia))).
  rewrite forallb_forall in H.
  specialize (H m (in_below 256 m ltac:(lia))).
  rewrite !andb_true_iff in H. destruct H as [[H1 H2] H3].
  apply Bool.eqb_prop in H1. apply Z.eqb_eq in H3.
  split; [|split; [|assumption]].
  - rewrite <- !Z.eqb_eq. rewrite H1. reflexivity.
  - intros H255. rewrite H255 in H2. cbn [Z.eqb Pos.eqb] in H2.
    apply andb_true_iff in H2. rewrite !Z.eqb_eq in H2. assumption.
Qed.

Lemma masked_length (ip m : list Z) :
  List.length ip = List.length m ->
  List.length (masked ip m) = List.length ip.
Proof.
  intros H. unfold masked. rewrite length_map, length_combine. lia.
Qed.

Lemma masked_bytes (ip : list Z) :
  forall m,
    forallb is_byte ip = true -> forallb is_byte m = true ->
    forallb is_byte (masked ip m) = true.
Proof.
  induction ip as [|a ip IH]; intros [|x m]; simpl; try reflexivity.
  rewrite !andb_true_iff, !is_byte_spec.
  intros [Ha Hip] [Hx Hm]. split; [|now apply IH].
  apply land_byte; lia.
Qed.

Lemma masked_idem (ip : list Z) :
  forall m, masked (masked ip m) m = masked ip m.
Proof.
  induction ip as [|a ip IH]; intros [|x m]; simpl; try reflexivity.
  unfold masked in *. simpl. rewrite IH.
  now rewrite <- Z.land_assoc, Z.land_diag.
Qed.

(** an address is its own network exactly when it has no host bit *)
Lemma masked_fixed (ip : list Z) :
  forall m,
    List.length ip = List.length m ->
    forallb is_byte ip = true -> forallb is_byte m = true ->
    (masked ip m = ip
     <-> Net.isZeros (map (fun p => Z.land (fst p) (Z.lxor (snd p) 255))
                        (combine ip m)) = true).
Proof.
  unfold masked, Net.isZeros.
  induction ip as [|a ip IH]; intros [|x m] Hlen Hip Hm;
    try discriminate Hlen.
  - split; reflexivity.
  - cbn [forallb] in Hip, Hm.
    apply andb_true_iff in Hip as [Ha Hip]. apply andb_true_iff in Hm as [Hx Hm].
    apply is_byte_spec in Ha, Hx.
    destruct (byte_mask a x Ha Hx) as [Hax _].
    injection Hlen as Hlen. specialize (IH m Hlen Hip Hm).
    cbn [combine map forallb fst snd].
    rewrite andb_true_iff, Z.eqb_eq.
    split.
    + intros H. injection H as H1 H2.
      split; [symmetry; now apply Hax | now apply IH].
    + intros [H1 H2]. f_equal; [apply Hax; now symmetry | now apply IH].
Qed.

Lemma Mask_masked (ip m : list Z) :
  List.length ip = List.length m ->
  (List.length ip = 4 \/ List.length ip = 16)%nat ->
  Net.Mask ip m = masked ip m.
Proof.
  intros Hlen Hip. unfold Net.Mask, Net.IPv4len, Net.IPv6len.
  assert (Hm : List.length m = List.length ip) by now symmetry.
  destruct Hip as [Hip|Hip]; rewrite Hip in Hm; rewrite ?Hip, ?Hm;
    do 3 (cbn [Nat.eqb andb negb]; rewrite ?Hip, ?Hm); reflexivity.
Qed.

Lemma list_eqb_eq (a : list Z) :
  forall b, Net.list_eqb a b = true -> a = b.
Proof.
  unfold Net.list_eqb.
  induction a as [|x a IH]; intros [|y b]; simpl; try discriminate.
  - reflexivity.
  - rewrite !andb_true_iff, Z.eqb_eq. intros [Hl [Hxy Hab]].
    f_equal; [assumption|]. apply IH. now rewrite Hl, Hab.
Qed.

(** The prefix lengths of IPv6 and their masks: the length is read back
    from its decimal text and from the mask; a mask of 96 bits or more is
    twelve bytes 255 and the IPv4 mask of the bits above 96, a shorter one
    has not the byte 255 at index 11. *)
Lemma prefix_lengths6 :
  forallb (fun n =>
             let m := Net.CIDRMask n 128 in
             all_bytes is_digit (Net.uitoa n)
             && (let '(v, i, ok) := Net.dtoi (Net.uitoa n) in
                 (v =? n) && (i =? len (Net.uitoa n)) && ok)
             && (List.length m =? 16)%nat && forallb is_byte m
             && (Net.simpleMaskLength m =? n)
             && (if 96 <=? n
                 then Net.list_eqb m (repeat 255 12 ++ Net.CIDRMask (n - 96) 32)
                 else negb (nth 11 m 0 =? 255)))
          (below 129) = true.
Proof. vm_compute. reflexivity. Qed.

Lemma prefix_length6 (n : Z) :
  0 <= n <= 128 ->
  all_bytes is_digit (Net.uitoa n) = true
  /\ Net.dtoi (Net.uitoa n) = (n, len (Net.uitoa n), true)
  /\ List.length (Net.CIDRMask n 128) = 16%nat
  /\ forallb is_byte (Net.CIDRMask n 128) = true
  /\ Net.simpleMaskLength (Net.CIDRMask n 128) = n
  /\ (96 <= n ->
      Net.CIDRMask n 128 = repeat 255 12 ++ Net.CIDRMask (n - 96) 32)
  /\ (n < 96 -> nth 11 (Net.CIDRMask n 128) 0 <> 255).
Proof.
  intros Hn.
  pose proof prefix_lengths6 as H. rewrite forallb_forall in H.
  specialize (H n (in_below 129 n ltac:(lia))). cbv zeta in H.
  destruct (Net.dtoi (Net.uitoa n)) as [[v i] ok].
  rewrite !andb_true_iff in H.
  destruct H as [[[[[H1 [[H2 H3] H4]] H5] H6] H7] H8].
  apply Z.eqb_eq in H2, H3, H7. apply Nat.eqb_eq in H5. subst v i ok.
  repeat split; try assumption.
  - intros H96. apply Z.leb_le in H96. rewrite H96 in H8.
    now apply list_eqb_eq.
  - intros H96 Heq. apply Z.leb_gt in H96. rewrite H96 in H8.
    rewrite Heq in H8. discriminate.
Qed.

(** *** What [ParseCIDR] returns *)

Lemma ParseCIDR_inv (cidr : string) (ip : IP) (ipnet : IPNet) :
  Net.ParseCIDR cidr = inl (ip, ipnet) ->
  exists a n,
    match a with
    | Net.Addr4 f => is_IPv4 f = true
    | Net.Addr6 b zone => is_IPv6 b = true /\ zone = EmptyString
    end
    /\ 0 <= n <= Net.BitLen a
    /\ ip = Net.As16 a
    /\ ipnet = mkIPNet (Net.Mask (Net.As16 a) (Net.CIDRMask n (Net.BitLen a)))
                 (Net.CIDRMask n (Net.BitLen a)).
Proof.
  unfold Net.ParseCIDR.
  destruct (cut "/" cidr) as [[addr mask]|]; [|discriminate].
  destruct (Net.ParseAddr addr) as [a|] eqn:Ha; [|discriminate].
  destruct (negb (String.eqb (Net.Zone a) EmptyString)) eqn:Hzone;
    [discriminate|].
  destruct (Net.dtoi mask) as [[n i] ok].
  destruct (negb ok || negb (i =? len mask) || (n <? 0)
            || (n >? Net.BitLen a)) eqn:Hc; [discriminate|].
  intros H. injection H as <- <-.
  exists a, n.
  rewrite !orb_false_iff in Hc. destruct Hc as [[_ Hlo] Hhi].
  apply negb_false_iff, String.eqb_eq in Hzone.
  apply ParseAddr_scan_valid in Ha.
  repeat split; try lia.
  destruct a as [f|b zone]; [assumption | now split].
Qed.

(** *** The text of an address is read back *)

(** sixteen bytes are an IPv4-mapped address, or [To4] gives nothing *)
Lemma To4_sixteen (x : list Z) :
  is_IPv6 x = true ->
  Net.To4 x = []
  \/ exists f, is_IPv4 f = true /\ x = Net.v4InV6Prefix ++ f.
Proof.
  unfold is_IPv6. rewrite andb_true_iff. intros [Hlen Hb].
  do 17 (destruct x as [|? x]; try discriminate Hlen).
  unfold Net.To4, Net.IPv4len, Net.IPv6len.
  cbn [List.length Nat.eqb andb firstn nth skipn Net.isZeros forallb].
  match goal with |- context [if ?c then _ else _] => destruct c eqn:Hc end;
    [right | now left].
  rewrite !andb_true_iff, !Z.eqb_eq in Hc.
  destruct Hc as
    [[[H0 [H1 [H2 [H3 [H4 [H5 [H6 [H7 [H8 [H9 _]]]]]]]]]] H10] H11].
  subst. eexists. split; [|reflexivity].
  cbn [forallb] in Hb. rewrite !andb_true_iff in Hb.
  unfold is_IPv4. cbn [List.length Nat.eqb forallb andb].
  rewrite !andb_true_iff. tauto.
Qed.

Lemma mapped_valid (f : list Z) :
  is_IPv4 f = true -> is_IPv6 (Net.v4InV6Prefix ++ f) = true.
Proof.
  intros H. destruct (is_IPv4_inv f H) as [a [b [c [d [-> [Ha [Hb [Hc Hd]]]]]]]].
  unfold is_IPv6. cbn [Net.v4InV6Prefix app List.length Nat.eqb forallb andb].
  repeat (rewrite (proj2 (is_byte_spec _)) by lia). reflexivity.
Qed.

(** [netip.ParseAddr] reads the text of sixteen bytes back, as an IPv4
    address where they are IPv4-mapped. *)
Lemma ParseAddr_IP_String (x : list Z) :
  is_IPv6 x = true ->
  exists a,
    Net.ParseAddr (Net.IP_String x) = Some a
    /\ Net.As16 a = x /\ Net.Zone a = EmptyString.
Proof.
  intros Hx. pose proof Hx as Hx'. unfold is_IPv6 in Hx'.
  apply andb_true_iff in Hx' as [Hlen _]. apply Nat.eqb_eq in Hlen.
  unfold Net.IP_String, Net.IPv4len, Net.IPv6len. rewrite Hlen.
  cbn [Nat.eqb negb andb].
  destruct (To4_sixteen x Hx) as [H4|[f [Hf ->]]].
  - rewrite H4. cbn [List.length Nat.eqb].
    exists (Net.Addr6 x EmptyString).
    split; [now apply ParseAddr_string6 | split; reflexivity].
  - destruct (IP_String_IPv4 f Hf) as [_ [H4 _]]. rewrite H4.
    unfold is_IPv4 in Hf. pose proof Hf as Hf'.
    apply andb_true_iff in Hf' as [Hl _]. rewrite Hl.
    exists (Net.Addr4 f).
    split; [now apply ParseAddr_string4 | split; reflexivity].
Qed.

Lemma IP_String_inj (x y : list Z) :
  is_IPv6 x = true -> is_IPv6 y = true ->
  Net.IP_String x = Net.IP_String y -> x = y.
Proof.
  intros Hx Hy Heq.
  destruct (ParseAddr_IP_String x Hx) as [a [Ha [<- _]]].
  destruct (ParseAddr_IP_String y Hy) as [a' [Ha' [<- _]]].
  rewrite Heq in Ha. congruence.
Qed.

Lemma IP_String_without_slash (x : list Z) :
  is_IPv6 x = true -> without "/" (Net.IP_String x) = true.
Proof.
  intros Hx. pose proof Hx as Hx'. unfold is_IPv6 in Hx'.
  apply andb_true_iff in Hx' as [Hlen Hb]. apply Nat.eqb_eq in Hlen.
  unfold Net.IP_String, Net.IPv4len, Net.IPv6len. rewrite Hlen.
  cbn [Nat.eqb negb andb].
  destruct (To4_sixteen x Hx) as [H4|[f [Hf ->]]].
  - rewrite H4. cbn [List.length Nat.eqb].
    apply string6_without; [reflexivity | assumption].
  - destruct (IP_String_IPv4 f Hf) as [_ [H4 _]]. rewrite H4.
    pose proof Hf as Hf'. unfold is_IPv4 in Hf'.
    apply andb_true_iff in Hf' as [Hl _]. rewrite Hl.
    now apply string4_without_slash.
Qed.

(** *** The host bits *)

Lemma mask4_valid (n : Z) :
  0 <= n <= 32 ->
  List.length (Net.CIDRMask n 32) = 4%nat
  /\ forallb is_byte (Net.CIDRMask n 32) = true.
Proof.
  intros Hn.
  pose proof prefix_lengths as H. rewrite forallb_forall in H.
  specialize (H n (in_below 33 n ltac:(lia))). cbv zeta in H.
  rewrite !andb_true_iff in H.
  destruct H as [[[_ H1] H2] _]. apply Nat.eqb_eq in H1. now split.
Qed.

(** an IPv4 address has no host bit exactly when it is its network *)
Lemma host_bits_IPv4 (f net : list Z) (n : Z) :
  is_IPv4 f = true -> 0 <= n <= 32 ->
  host_bits_set (Net.v4InV6Prefix ++ f) (mkIPNet net (Net.CIDRMask n 32))
  = false
  <-> network f n = f.
Proof.
  intros Hf Hn. unfold host_bits_set, host_bits. rewrite negb_false_iff.
  destruct (mask4_valid n Hn) as [Hml Hmb].
  pose proof Hf as Hf'. unfold is_IPv4 in Hf'.
  apply andb_true_iff in Hf' as [Hfl Hfb]. apply Nat.eqb_eq in Hfl.
  cbn [IPNet_Mask]. rewrite length_app, Hfl, Hml.
  cbn [Net.v4InV6Prefix List.length Nat.add Nat.sub skipn app].
  unfold network. rewrite Mask_masked by (try left; congruence).
  symmetry. apply masked_fixed; [congruence | assumption | assumption].
Qed.

(** sixteen bytes have no host bit exactly when the mask keeps them *)
Lemma host_bits_IPv6 (b net : list Z) (n : Z) :
  is_IPv6 b = true -> 0 <= n <= 128 ->
  host_bits_set b (mkIPNet net (Net.CIDRMask n 128)) = false
  <-> masked b (Net.CIDRMask n 128) = b.
Proof.
  intros Hb Hn. unfold host_bits_set, host_bits. rewrite negb_false_iff.
  destruct (prefix_length6 n Hn) as [_ [_ [Hml [Hmb _]]]].
  pose proof Hb as Hb'. unfold is_IPv6 in Hb'.
  apply andb_true_iff in Hb' as [Hbl Hbb]. apply Nat.eqb_eq in Hbl.
  cbn [IPNet_Mask]. rewrite Hbl, Hml. cbn [Nat.sub skipn].
  symmetry. apply masked_fixed; [congruence | assumption | assumption].
Qed.

Lemma eqb_negb_iff (x y : bool) (P : Prop) :
  (x = true <-> P) -> (y = false <-> P) -> x = negb y.
Proof. destruct x, y; simpl; intuition congruence. Qed.

(** *** The text of a network *)

Lemma IP_String_four (g : list Z) :
  is_IPv4 g = true -> Net.IP_String g = Net.string4 g.
Proof.
  intros Hg. destruct (IP_String_IPv4 g Hg) as [_ [_ [H4 _]]].
  pose proof Hg as Hg'. unfold is_IPv4 in Hg'.
  apply andb_true_iff in Hg' as [Hl _]. apply Nat.eqb_eq in Hl.
  unfold Net.IP_String, Net.IPv4len, Net.IPv6len.
  rewrite H4, Hl. reflexivity.
Qed.

(** the text of an IPv4-mapped network under a mask of 96 bits or more *)
Lemma IPNet_String_mapped (g : list Z) (n : Z) :
  is_IPv4 g = true -> 0 <= n <= 32 ->
  Net.IPNet_String
    (mkIPNet (Net.v4InV6Prefix ++ g) (repeat 255 12 ++ Net.CIDRMask n 32))
  = block g n.
Proof.
  intros Hg Hn.
  destruct (IP_String_IPv4 g Hg) as [_ [H4 [_ Hne]]].
  destruct (prefix_length n Hn) as [_ [_ [[m0 [m1 [m2 [m3 [Hm _]]]]] Hsml]]].
  pose proof Hg as Hg'. unfold is_IPv4 in Hg'.
  apply andb_true_iff in Hg' as [Hl _]. apply Nat.eqb_eq in Hl.
  unfold Net.IPNet_String, Net.networkNumberAndMask, Net.IPv4len, Net.IPv6len.
  cbn [IPNet_IP IPNet_Mask]. rewrite H4.
  destruct g as [|g0 g']; [congruence|].
  rewrite Hl. rewrite length_app, repeat_length.
  rewrite Hm in *. cbn [List.length Nat.add Nat.eqb negb repeat app skipn].
  rewrite Hsml.
  destruct (n =? -1) eqn:Hneg; [apply Z.eqb_eq in Hneg; lia|].
  now rewrite IP_String_four.
Qed.

(** the text of a network of sixteen bytes that is not IPv4-mapped *)
Lemma IPNet_String_sixteen (b : list Z) (n : Z) :
  is_IPv6 b = true -> 0 <= n <= 128 -> Net.To4 b = [] ->
  Net.IPNet_String (mkIPNet b (Net.CIDRMask n 128))
  = Net.IP_String b +++ "/" +++ Net.uitoa n.
Proof.
  intros Hb Hn H4.
  destruct (prefix_length6 n Hn) as [_ [_ [Hml [_ [Hsml _]]]]].
  pose proof Hb as Hb'. unfold is_IPv6 in Hb'.
  apply andb_true_iff in Hb' as [Hl _]. apply Nat.eqb_eq in Hl.
  unfold Net.IPNet_String, Net.networkNumberAndMask, Net.IPv4len, Net.IPv6len.
  cbn [IPNet_IP IPNet_Mask]. rewrite H4, Hl, Hml.
  cbn [Nat.eqb negb]. rewrite Hsml.
  destruct (n =? -1) eqn:Hneg; [apply Z.eqb_eq in Hneg; lia|].
  reflexivity.
Qed.

(** [ParseCIDR] on the text of sixteen bytes that are not IPv4-mapped and
    a prefix length *)
Lemma ParseCIDR_sixteen (b : list Z) (n : Z) :
  is_IPv6 b = true -> 0 <= n <= 128 -> Net.To4 b = [] ->
  Net.ParseCIDR (Net.IP_String b +++ "/" +++ Net.uitoa n)
  = inl (b, mkIPNet (masked b (Net.CIDRMask n 128)) (Net.CIDRMask n 128)).
Proof.
  intros Hb Hn H4.
  destruct (prefix_length6 n Hn) as [_ [Hdtoi [Hml _]]].
  pose proof Hb as Hb'. unfold is_IPv6 in Hb'.
  apply andb_true_iff in Hb' as [Hl _]. apply Nat.eqb_eq in Hl.
  destruct (ParseAddr_IP_String b Hb) as [a [Ha [Ha16 Hz]]].
  assert (Hbits : Net.BitLen a = 128).
  { destruct a as [f|x z]; [|reflexivity].
    exfalso. apply ParseAddr_scan_Addr4 in Ha.
    destruct (To4_As16_Addr4 f Ha) as [Hf Hne].
    rewrite Ha16 in Hf. congruence. }
  unfold Net.ParseCIDR.
  change (Net.IP_String b +++ "/" +++ Net.uitoa n)
    with (Net.IP_String b +++ String "/" (Net.uitoa n)).
  rewrite cut_app by now apply IP_String_without_slash.
  rewrite Ha, Hz, Hdtoi, Hbits, Ha16. cbn [String.eqb negb orb].
  rewrite Z.eqb_refl. cbn [negb orb].
  destruct (n <? 0) eqn:Hlo; [apply Z.ltb_lt in Hlo; lia|].
  destruct (n >? 128) eqn:Hhi; [apply Z.gtb_lt in Hhi; lia|].
  cbn [orb]. rewrite Mask_masked by (try right; congruence).
  reflexivity.
Qed.

(** a network of sixteen bytes that is IPv4-mapped: the mask has 96 bits at
    least, the address is IPv4-mapped and the network is the network of
    its four bytes *)
Lemma masked_mapped (b g : list Z) (n : Z) :
  is_IPv6 b = true -> 0 <= n <= 128 -> is_IPv4 g = true ->
  masked b (Net.CIDRMask n 128) = Net.v4InV6Prefix ++ g ->
  96 <= n
  /\ Net.CIDRMask n 128 = repeat 255 12 ++ Net.CIDRMask (n - 96) 32
  /\ exists f, is_IPv4 f = true /\ b = Net.v4InV6Prefix ++ f
               /\ g = network f (n - 96).
Proof.
  intros Hb Hn Hg.
  destruct (prefix_length6 n Hn) as [_ [_ [Hml [Hmb [_ [H96 Hlt]]]]]].
  destruct (is_IPv4_inv g Hg) as [g0 [g1 [g2 [g3 [-> _]]]]].
  unfold is_IPv6 in Hb. apply andb_true_iff in Hb as [Hbl Hbb].
  remember (Net.CIDRMask n 128) as m eqn:Hm.
  do 17 (destruct b as [|? b]; try discriminate Hbl).
  do 17 (destruct m as [|? m]; try discriminate Hml).
  cbn [forallb] in Hbb, Hmb. rewrite !andb_true_iff, !is_byte_spec in Hbb, Hmb.
  cbn [masked combine map fst snd Net.v4InV6Prefix app].
  intros H. injection H as E0 E1 E2 E3 E4 E5 E6 E7 E8 E9 E10 E11 E12 E13 E14 E15.
  apply byte_mask in E11; [|tauto|tauto]. destruct E11 as [-> ->].
  assert (Hn96 : 96 <= n).
  { destruct (Z.lt_ge_cases n 96) as [Hc|Hc]; [|assumption].
    exfalso. apply (Hlt Hc). reflexivity. }
  specialize (H96 Hn96).
  split; [assumption|]. split; [assumption|].
  destruct (prefix_length (n - 96) ltac:(lia))
    as [_ [_ [[k0 [k1 [k2 [k3 [Hk _]]]]] _]]].
  rewrite Hk in H96. cbn [repeat app] in H96.
  injection H96 as -> -> -> -> -> -> -> -> -> -> -> -> -> -> ->.
  repeat match goal with
         | H : Z.land ?a 255 = _ |- _ =>
             rewrite (proj2 (proj2 (byte_mask a 255 ltac:(tauto) ltac:(lia))))
               in H
         end.
  subst.
  eexists [_; _; _; _]. split; [|split; [reflexivity|]].
  - unfold is_IPv4. cbn [List.length Nat.eqb forallb andb].
    rewrite !andb_true_iff, !is_byte_spec. tauto.
  - unfold network. rewrite Mask_masked, Hk by (try left; rewrite ?Hk; reflexivity).
    reflexivity.
Qed.

(** *** The canonical form of a parsed block *)

(** The text of the network that [ParseCIDR] returns parses again, to a
    network with the same text, and its address has the text of the first
    address exactly when that one has no host bit. *)
Lemma canonical_reparse (cidr : string) (ip : IP) (ipnet : IPNet) :
  Net.ParseCIDR cidr = inl (ip, ipnet) ->
  exists ip2 ipnet2,
    Net.ParseCIDR (Net.IPNet_String ipnet) = inl (ip2, ipnet2)
    /\ Net.IPNet_String ipnet2 = Net.IPNet_String ipnet
    /\ String.eqb (Net.IP_String ip2) (Net.IP_String ip)
       = negb (host_bits_set ip ipnet).
Proof.
  intros HP.
  destruct (ParseCIDR_inv cidr ip ipnet HP) as [a [n [Ha [Hn [-> ->]]]]].
  destruct a as [f|b zone].
  - (* an IPv4 text *)
    cbn [Net.As16 Net.BitLen] in *.
    destruct (network_spec f n Ha Hn) as [Hnet [Hidem HMask]].
    rewrite HMask.
    exists (Net.v4InV6Prefix ++ network f n),
           (mkIPNet (network f n) (Net.CIDRMask n 32)).
    split; [|split; [reflexivity|]].
    + rewrite IPNet_String_network, ParseCIDR_block, Hidem by assumption.
      reflexivity.
    + apply (eqb_negb_iff _ _ (network f n = f));
        [|now apply host_bits_IPv4].
      rewrite String.eqb_eq. split.
      * intros H. apply IP_String_inj in H; try now apply mapped_valid.
        now apply app_inv_head in H.
      * now intros ->.
  - (* an IPv6 text *)
    destruct Ha as [Hb ->]. cbn [Net.As16 Net.BitLen] in *.
    destruct (prefix_length6 n Hn) as [_ [_ [Hml [Hmb _]]]].
    pose proof Hb as Hb'. unfold is_IPv6 in Hb'.
    apply andb_true_iff in Hb' as [Hbl Hbb]. apply Nat.eqb_eq in Hbl.
    rewrite Mask_masked by (try right; congruence).
    assert (Hnet : is_IPv6 (masked b (Net.CIDRMask n 128)) = true).
    { unfold is_IPv6.
      rewrite masked_length, Hbl, masked_bytes by congruence. reflexivity. }
    assert (Hthird :
              String.eqb (Net.IP_String (masked b (Net.CIDRMask n 128)))
                         (Net.IP_String b)
              = negb (host_bits_set b
                        (mkIPNet (masked b (Net.CIDRMask n 128))
                                 (Net.CIDRMask n 128)))).
    { apply (eqb_negb_iff _ _ (masked b (Net.CIDRMask n 128) = b));
        [|now apply host_bits_IPv6].
      rewrite String.eqb_eq. split.
      - intros H. now apply IP_String_inj in H.
      - now intros ->. }
    destruct (To4_sixteen _ Hnet) as [H4|[g [Hg Hmapped]]].
    + (* the network is not IPv4-mapped *)
      exists (masked b (Net.CIDRMask n 128)),
             (mkIPNet (masked b (Net.CIDRMask n 128)) (Net.CIDRMask n 128)).
      split; [|split; [reflexivity | assumption]].
      rewrite IPNet_String_sixteen, ParseCIDR_sixteen by assumption.
      now rewrite masked_idem.
    + (* the network is IPv4-mapped *)
      destruct (masked_mapped b g n Hb Hn Hg Hmapped)
        as [H96 [Hm [f [Hf [Hbf Hgf]]]]].
      assert (Hn' : 0 <= n - 96 <= 32) by lia.
      destruct (network_spec f (n - 96) Hf Hn') as [_ [Hidem _]].
      exists (masked b (Net.CIDRMask n 128)),
             (mkIPNet g (Net.CIDRMask (n - 96) 32)).
      split; [|split; [|assumption]].
      * rewrite Hmapped at 1. rewrite Hm at 1.
        rewrite IPNet_String_mapped, ParseCIDR_block by assumption.
        rewrite Hmapped, Hgf, Hidem. reflexivity.
      * rewrite Hmapped, Hm.
        rewrite IPNet_String_mapped by assumption.
        rewrite Hgf. apply IPNet_String_network; assumption.
Qed.

(** C5: [ValidateCIDRBlock] accepts a CIDR text that is the canonical form
    of its network ("10.0.0.0/24", "2001:db8::/64") and rejects one whose
    host bits are set ("10.0.0.1/24", "2001:db8::1/64") with an error whose
    last operand is the network, printed "10.0.0.0/24" and "2001:db8::/64";
    a text that does not parse as a CIDR gets the parse error.  In general,
    for every text that [net.ParseCIDR] parses, of either family: the text
    is rejected exactly when its address has a host bit set, that is a bit
    outside the mask of its prefix length; the error then suggests the
    network of the address, and the text of that network is itself
    accepted. *)
Theorem ValidateCIDRBlock_canonical_form :
  ValidateCIDRBlock "10.0.0.0/24" = None
  /\ (exists ipnet,
         ValidateCIDRBlock "10.0.0.1/24"
         = Some (Errorf "%q is not a valid CIDR block; did you mean %q?"
                   [OString "10.0.0.1/24"; OIPNet ipnet])
         /\ Net.IPNet_String ipnet = "10.0.0.0/24")
  /\ ValidateCIDRBlock "10.0.0.1"
     = Some (not_CIDR_error "10.0.0.1" (ParseError "CIDR address" "10.0.0.1"))
  /\ ValidateCIDRBlock "2001:db8::/64" = None
  /\ (exists ipnet,
         ValidateCIDRBlock "2001:db8::1/64"
         = Some (Errorf "%q is not a valid CIDR block; did you mean %q?"
                   [OString "2001:db8::1/64"; OIPNet ipnet])
         /\ Net.IPNet_String ipnet = "2001:db8::/64")
  /\ (forall cidr,
         match Net.ParseCIDR cidr with
         | inr err => ValidateCIDRBlock cidr = Some (not_CIDR_error cidr err)
         | inl (ip, ipnet) =>
             ValidateCIDRBlock cidr
             = (if host_bits_set ip ipnet
                then Some (Errorf "%q is not a valid CIDR block; did you mean %q?"
                             [OString cidr; OIPNet ipnet])
                else None)
             /\ ValidateCIDRBlock (Net.IPNet_String ipnet) = None
         end).
Proof.
  split; [vm_compute; reflexivity|].
  split; [exists (mkIPNet [10; 0; 0; 0] [255; 255; 255; 0]);
          split; vm_compute; reflexivity|].
  split; [vm_compute; reflexivity|].
  split; [vm_compute; reflexivity|].
  split; [exists (mkIPNet [32; 1; 13; 184; 0; 0; 0; 0; 0; 0; 0; 0; 0; 0; 0; 0]
                    [255; 255; 255; 255; 255; 255; 255; 255;
                     0; 0; 0; 0; 0; 0; 0; 0]);
          split; vm_compute; reflexivity|].
  intros cidr.
  destruct (Net.ParseCIDR cidr) as [[ip ipnet]|err] eqn:HP.
  - destruct (canonical_reparse cidr ip ipnet HP)
      as [ip2 [ipnet2 [H2 [Hs Hip]]]].
    split.
    + unfold ValidateCIDRBlock, CIDRBlocksEqual. rewrite HP, H2, Hip, Hs.
      rewrite String.eqb_refl, andb_true_r, negb_involutive. reflexivity.
    + unfold ValidateCIDRBlock. rewrite H2, Hs.
      now rewrite (CIDRBlocksEqual_refl _ ip2 ipnet2 H2).
  - unfold ValidateCIDRBlock. rewrite HP. reflexivity.
Qed.
